(** * ForwardRenderModule: bindless texture table, pipeline permutation
      cache, content synchronisation and frame submission.

    Shallow embedding of
      framework/rendermodules/forward/forwardrendermodule.{h,cpp}.

    Conventions of the embedding
    - [uint32_t] / [uint64_t] values are integers of [Z] whose wrap-around
      is written out with [wrap32] / [wrap64]; [int32_t] slot indices are
      integers of [Z] (the sentinel is [-1]).
    - A C++ pointer is an address of [N]; [nullptr] is address 0.  Objects
      owned by the content system (surfaces, materials) are immutable while
      the module refers to them; a [Surface] value carries its own address
      and pointer comparison compares addresses.
    - [std::vector] is [list]; subscripting out of range is undefined in the
      source and is the outcome [OutOfRange] here.
    - [CauldronAssert(ASSERT_CRITICAL, ...)] that fails is the outcome
      [Fatal]. *)

From stdpp Require Import base decidable option list gmap strings.
From Stdlib Require Import ZArith Lia.

Local Open Scope Z_scope.

(** ** Machine integers and pointers *)

Definition wrap32 (z : Z) : Z := z mod 2 ^ 32.
Definition wrap64 (z : Z) : Z := z mod 2 ^ 64.

Definition ptr : Type := N.
Definition nullptr : ptr := 0%N.

(** ** Outcomes of fallible operations *)

Inductive Outcome (A : Type) : Type :=
| Done (a : A)
| Fatal (msg : string)
| OutOfRange.
Arguments Done {A} a.
Arguments Fatal {A} msg.
Arguments OutOfRange {A}.

Definition bindO {A B : Type} (x : Outcome A) (k : A → Outcome B) : Outcome B :=
  match x with
  | Done a => k a
  | Fatal msg => Fatal msg
  | OutOfRange => OutOfRange
  end.

Notation "x ←o e1 ; e2" := (bindO e1 (fun x => e2))
  (at level 100, e1 at next level, right associativity).

Definition CauldronAssert (condition : bool) (msg : string) : Outcome unit :=
  if condition then Done () else Fatal msg.

(** ** Framework enumerations used by the module *)

(** The enumerations below are declared by the framework, outside the
    module's sources; the module names [TextureClass]'s six enumerators,
    [MaterialBlend::Mask], and [UpscalerState::None] and [::PostUpscale]
    (the remaining state, [PreUpscale], is upscaling active and not yet
    applied). *)
Inductive TextureClass : Type :=
| Albedo | Normal | Emissive | Occlusion | MetalRough | SpecGloss.

Inductive MaterialBlend : Type :=
| Opaque | Mask | AlphaBlend.

Inductive UpscalerState : Type :=
| None_ | PreUpscale | PostUpscale.

#[global] Instance TextureClass_eq_dec : EqDecision TextureClass.
Proof. solve_decision. Defined.
#[global] Instance MaterialBlend_eq_dec : EqDecision MaterialBlend.
Proof. solve_decision. Defined.
#[global] Instance UpscalerState_eq_dec : EqDecision UpscalerState.
Proof. solve_decision. Defined.

(** Modelled from the spec: the enumerators of the framework's
    [VertexAttributeType] (Position, Normal, Tangent, Texcoord0, Texcoord1,
    Color0, Color1, Weight0, Weight1, Joints0, Joints1, PreviousPosition,
    Count) are declared outside the module; the module only relies on
    [VertexAttributeFlag_X = 0x1 << X], on Position and Normal being
    attributes 0 and 1 and on PreviousPosition being the last one. *)
Definition VertexAttributeType_Position : Z := 0.
Definition VertexAttributeType_Normal : Z := 1.
Definition VertexAttributeType_Tangent : Z := 2.
Definition VertexAttributeType_Texcoord0 : Z := 3.
Definition VertexAttributeType_Texcoord1 : Z := 4.
Definition VertexAttributeType_Color0 : Z := 5.
Definition VertexAttributeType_Color1 : Z := 6.
Definition VertexAttributeType_PreviousPosition : Z := 11.
Definition VertexAttributeType_Count : Z := 12.

Definition VertexAttributeFlag (attribute : Z) : Z := Z.shiftl 1 attribute.

Definition VertexAttributeFlag_Position := VertexAttributeFlag VertexAttributeType_Position.
Definition VertexAttributeFlag_Normal := VertexAttributeFlag VertexAttributeType_Normal.
Definition VertexAttributeFlag_Tangent := VertexAttributeFlag VertexAttributeType_Tangent.
Definition VertexAttributeFlag_Texcoord0 := VertexAttributeFlag VertexAttributeType_Texcoord0.
Definition VertexAttributeFlag_Texcoord1 := VertexAttributeFlag VertexAttributeType_Texcoord1.
Definition VertexAttributeFlag_Color0 := VertexAttributeFlag VertexAttributeType_Color0.
Definition VertexAttributeFlag_Color1 := VertexAttributeFlag VertexAttributeType_Color1.
Definition VertexAttributeFlag_PreviousPosition :=
  VertexAttributeFlag VertexAttributeType_PreviousPosition.

(** [DefineList] is the framework's [std::map] of shader defines.
    [std::map::insert] keeps an existing binding of the key. *)
Abbreviation DefineList := (gmap string string).

Definition define_insert (k v : string) (defines : DefineList) : DefineList :=
  match defines !! k with
  | Some _ => defines
  | None => <[k := v]> defines
  end.

(** ** Data model *)

Section Model.
(** The framework's sampler descriptor; the module only compares two
    descriptors with [operator==]. *)
Context {SamplerDesc : Type} `{EqDecision SamplerDesc}.

Record TextureInfo : Type := {
  tex_pTexture : ptr;
  TexSamplerDesc : SamplerDesc;
  UVSet : Z
}.

Record Material : Type := {
  HasPBRInfo : bool;
  HasPBRMetalRough : bool;
  HasPBRSpecGloss : bool;
  HasDoubleSided : bool;
  GetBlendMode : MaterialBlend;
  GetTextureInfo : TextureClass → option TextureInfo
}.

Record Surface : Type := {
  surfaceAddress : ptr;
  GetVertexAttributes : Z;
  GetMaterial : Material;
  HasTranslucency : bool;
  GetSurfaceID : Z;
  GetVertexBufferFormat : Z → Z;
  GetIndexCount : Z
}.

(** forwardrendermodule.h, [struct BoundTexture] *)
Record BoundTexture : Type := {
  pTexture : ptr;
  count : Z
}.

(** Modelled from the spec: [TextureIndices] (surfacerendercommon.h) is
    declared outside the module: five texture-slot indices, each paired
    with a sampler-slot index, initialised to the "unused" index [-1]. *)
Record TextureIndices : Type := {
  AlbedoTextureIndex : Z;
  AlbedoSamplerIndex : Z;
  MetalRoughSpecGlossTextureIndex : Z;
  MetalRoughSpecGlossSamplerIndex : Z;
  NormalTextureIndex : Z;
  NormalSamplerIndex : Z;
  EmissiveTextureIndex : Z;
  EmissiveSamplerIndex : Z;
  OcclusionTextureIndex : Z;
  OcclusionSamplerIndex : Z
}.

Definition TextureIndices_default : TextureIndices :=
  {| AlbedoTextureIndex := -1; AlbedoSamplerIndex := -1;
     MetalRoughSpecGlossTextureIndex := -1; MetalRoughSpecGlossSamplerIndex := -1;
     NormalTextureIndex := -1; NormalSamplerIndex := -1;
     EmissiveTextureIndex := -1; EmissiveSamplerIndex := -1;
     OcclusionTextureIndex := -1; OcclusionSamplerIndex := -1 |}.

(** forwardrendermodule.h, [struct PipelineSurfaceRenderInfo] *)
Record PipelineSurfaceRenderInfo : Type := {
  pOwner : ptr;
  pSurface : Surface;
  Indices : TextureIndices
}.

Inductive CullMode : Type := CullNone | CullFront | CullBack.

(** What [PipelineObject::CreatePipelineObject] is given (lines 607-647). *)
Record PipelineDesc : Type := {
  pso_defines : DefineList;
  pso_numRenderTargets : Z;
  pso_CullingMode : CullMode;
  pso_inputLayout : list (Z * Z * Z);   (* attribute, format, binding slot *)
  pso_DepthEnable : bool;
  pso_StencilEnable : bool;
  pso_DepthWriteEnable : bool
}.

(** forwardrendermodule.h, [struct PipelineRenderGroup] *)
Record PipelineRenderGroup : Type := {
  m_Pipeline : PipelineDesc;
  m_PipelineHash : Z;
  m_UsedAttributes : Z;
  m_RenderSurfaces : list PipelineSurfaceRenderInfo
}.

(** The slots of the module's [ParameterSet] that the module writes. *)
Record ParameterSet : Type := {
  ps_TextureSRV : gmap Z ptr;
  ps_Sampler : gmap Z SamplerDesc
}.

(** The members of [ForwardRenderModule] the modelled functions use.  A
    sampler object is identified with the descriptor it was created from.
    [createdPipelines] is the log of [CreatePipelineObject] calls. *)
Record ForwardRenderModule : Type := {
  m_VariableShading : bool;
  m_GenerateMotionVectors : bool;
  m_pParameterSet : ParameterSet;
  m_Textures : list BoundTexture;
  m_Samplers : list SamplerDesc;
  m_PipelineRenderGroups : list PipelineRenderGroup;
  createdPipelines : list PipelineDesc
}.

Definition set_Textures (f : list BoundTexture → list BoundTexture)
    (m : ForwardRenderModule) : ForwardRenderModule :=
  {| m_VariableShading := m_VariableShading m;
     m_GenerateMotionVectors := m_GenerateMotionVectors m;
     m_pParameterSet := m_pParameterSet m;
     m_Textures := f (m_Textures m);
     m_Samplers := m_Samplers m;
     m_PipelineRenderGroups := m_PipelineRenderGroups m;
     createdPipelines := createdPipelines m |}.

Definition set_Samplers (f : list SamplerDesc → list SamplerDesc)
    (m : ForwardRenderModule) : ForwardRenderModule :=
  {| m_VariableShading := m_VariableShading m;
     m_GenerateMotionVectors := m_GenerateMotionVectors m;
     m_pParameterSet := m_pParameterSet m;
     m_Textures := m_Textures m;
     m_Samplers := f (m_Samplers m);
     m_PipelineRenderGroups := m_PipelineRenderGroups m;
     createdPipelines := createdPipelines m |}.

Definition set_PipelineRenderGroups
    (f : list PipelineRenderGroup → list PipelineRenderGroup)
    (m : ForwardRenderModule) : ForwardRenderModule :=
  {| m_VariableShading := m_VariableShading m;
     m_GenerateMotionVectors := m_GenerateMotionVectors m;
     m_pParameterSet := m_pParameterSet m;
     m_Textures := m_Textures m;
     m_Samplers := m_Samplers m;
     m_PipelineRenderGroups := f (m_PipelineRenderGroups m);
     createdPipelines := createdPipelines m |}.

Definition set_ParameterSet (f : ParameterSet → ParameterSet)
    (m : ForwardRenderModule) : ForwardRenderModule :=
  {| m_VariableShading := m_VariableShading m;
     m_GenerateMotionVectors := m_GenerateMotionVectors m;
     m_pParameterSet := f (m_pParameterSet m);
     m_Textures := m_Textures m;
     m_Samplers := m_Samplers m;
     m_PipelineRenderGroups := m_PipelineRenderGroups m;
     createdPipelines := createdPipelines m |}.

Definition log_CreatePipelineObject (d : PipelineDesc)
    (m : ForwardRenderModule) : ForwardRenderModule :=
  {| m_VariableShading := m_VariableShading m;
     m_GenerateMotionVectors := m_GenerateMotionVectors m;
     m_pParameterSet := m_pParameterSet m;
     m_Textures := m_Textures m;
     m_Samplers := m_Samplers m;
     m_PipelineRenderGroups := m_PipelineRenderGroups m;
     createdPipelines := createdPipelines m ++ [d] |}.

(** The module right after [Init]: no texture, no sampler, no group. *)
Definition emptyModule (variableShading generateMotionVectors : bool)
    : ForwardRenderModule :=
  {| m_VariableShading := variableShading;
     m_GenerateMotionVectors := generateMotionVectors;
     m_pParameterSet := {| ps_TextureSRV := ∅; ps_Sampler := ∅ |};
     m_Textures := [];
     m_Samplers := [];
     m_PipelineRenderGroups := [];
     createdPipelines := [] |}.

(** ** Bindless resource table (lines 660-726) *)

(** Lines 666-670: the value of [textureSamplerIndex] when the sampler
    loop ends, scanning from index [i]. *)
Fixpoint scanSamplers (desc : SamplerDesc) (samplers : list SamplerDesc)
    (i : Z) : Z :=
  match samplers with
  | [] => i
  | s :: rest =>
      if decide (s = desc) then i else scanSamplers desc rest (i + 1)
  end.

(** Lines 681-698: the texture loop either returns from inside at the
    first slot bound to the texture, or runs out with [firstFreeIndex]. *)
Inductive TextureScan : Type :=
| AlreadyMapped (i : Z)
| NotMapped (firstFreeIndex : Z).

Fixpoint scanTextures (tex : ptr) (textures : list BoundTexture)
    (i firstFreeIndex : Z) : TextureScan :=
  match textures with
  | [] => NotMapped firstFreeIndex
  | boundTexture :: rest =>
      if decide (tex = pTexture boundTexture) then AlreadyMapped i
      else if decide (firstFreeIndex < 0 ∧ count boundTexture = 0)
           then scanTextures tex rest (i + 1) i
           else scanTextures tex rest (i + 1) firstFreeIndex
  end.

Definition bumpCount (b : BoundTexture) : BoundTexture :=
  {| pTexture := pTexture b; count := wrap32 (count b + 1) |}.

(** [AddTexture] returns the slot index, the value left in the
    by-reference [textureSamplerIndex], and the updated module. *)
Definition AddTexture (m : ForwardRenderModule) (pMaterial : Material)
    (textureClass : TextureClass) (textureSamplerIndex : Z)
    : Z * Z * ForwardRenderModule :=
  match GetTextureInfo pMaterial textureClass with
  | Some pTextureInfo =>
      let samplerIndex :=
        scanSamplers (TexSamplerDesc pTextureInfo) (m_Samplers m) 0 in
      let m1 :=
        if decide (samplerIndex = Z.of_nat (length (m_Samplers m)))
        then set_Samplers (λ s, s ++ [TexSamplerDesc pTextureInfo]) m
        else m in
      match scanTextures (tex_pTexture pTextureInfo) (m_Textures m1) 0 (-1) with
      | AlreadyMapped i =>
          (i, samplerIndex,
           set_Textures (alter bumpCount (Z.to_nat i)) m1)
      | NotMapped firstFreeIndex =>
          let b := {| pTexture := tex_pTexture pTextureInfo; count := 1 |} in
          if decide (firstFreeIndex < 0)
          then (Z.of_nat (length (m_Textures m1 ++ [b])) - 1, samplerIndex,
                set_Textures (λ t, t ++ [b]) m1)
          else (firstFreeIndex, samplerIndex,
                set_Textures (<[Z.to_nat firstFreeIndex := b]>) m1)
      end
  | None => (-1, textureSamplerIndex, m)
  end.

Definition releaseOne (b : BoundTexture) : BoundTexture :=
  let c := wrap32 (count b - 1) in
  if decide (c = 0) then {| pTexture := nullptr; count := c |}
  else {| pTexture := pTexture b; count := c |}.

Definition RemoveTexture (m : ForwardRenderModule) (index : Z)
    : Outcome ForwardRenderModule :=
  if decide (index >= 0) then
    match m_Textures m !! Z.to_nat index with
    | Some b => Done (set_Textures (<[Z.to_nat index := releaseOne b]>) m)
    | None => OutOfRange
    end
  else Done m.

(** ** Pipeline permutation cache (lines 525-657) *)

(** The framework helpers [Hash] and [Surface::GetVertexAttributeDefines]
    and the capacity macros are declared outside the module's sources and
    are parameters of the model. *)
Class Framework : Type := {
  Hash : DefineList → Z → Surface → Z;
  GetVertexAttributeDefines : Z → DefineList → DefineList;
  MAX_TEXTURES_COUNT : Z;
  MAX_SAMPLERS_COUNT : Z;
  MAX_SHADOW_MAP_TEXTURES_COUNT : Z
}.

Context `{Framework}.

Definition texcoordFlag (uvSet : Z) : Z :=
  if decide (uvSet = 0) then VertexAttributeFlag_Texcoord0
  else if decide (uvSet = 1) then VertexAttributeFlag_Texcoord1
  else 0.

Definition texcoordSetName (uvSet : Z) : string :=
  if decide (uvSet = 0) then "0" else "1".

(** Modelled from the spec: the framework helper [AddTextureToDefineList]
    is not part of the module's sources.  It emits "both a has-texture and
    a texcoord set index define (only if that texture's required texcoord
    attribute is itself present [on the surface])".  The spec describes no
    change to the used-attribute mask the helper is handed, so the mask is
    left as line 541 computed it. *)
Definition AddTextureToDefineList (defineList : DefineList)
    (usedAttributes surfaceAttributes : Z) (pMaterial : Material)
    (textureClass : TextureClass) (pTextureDefine pTexCoordDefine : string)
    : DefineList :=
  match GetTextureInfo pMaterial textureClass with
  | Some pTextureInfo =>
      if decide (Z.land surfaceAttributes (texcoordFlag (UVSet pTextureInfo)) ≠ 0)
      then define_insert pTexCoordDefine (texcoordSetName (UVSet pTextureInfo))
             (define_insert pTextureDefine EmptyString defineList)
      else defineList
  | None => defineList
  end.

(** Lines 537-541 *)
Definition candidateAttributes : Z :=
  Z.lor VertexAttributeFlag_Position
    (Z.lor VertexAttributeFlag_Normal
      (Z.lor VertexAttributeFlag_Tangent
        (Z.lor VertexAttributeFlag_Color0
          (Z.lor VertexAttributeFlag_Color1 VertexAttributeFlag_PreviousPosition)))).

Definition surfaceUsedAttributes (pSurface : Surface) : Z :=
  Z.land candidateAttributes (GetVertexAttributes pSurface).

(** Lines 543-592: the define list handed to [Hash] and to the shaders. *)
Definition surfaceDefineList (m : ForwardRenderModule) (pSurface : Surface)
    : DefineList :=
  let usedAttributes := surfaceUsedAttributes pSurface in
  let surfaceAttributes := GetVertexAttributes pSurface in
  let pMaterial := GetMaterial pSurface in
  let addTexture cls texDefine coordDefine (d : DefineList) :=
    AddTextureToDefineList d usedAttributes surfaceAttributes pMaterial cls
      texDefine coordDefine in
  let d0 : DefineList := ∅ in
  let d1 :=
    if m_GenerateMotionVectors m
    then define_insert "HAS_MOTION_VECTORS_RT" "3"
           (define_insert "HAS_MOTION_VECTORS" "1" d0)
    else d0 in
  let d2 :=
    if HasPBRInfo pMaterial then
      if HasPBRMetalRough pMaterial then
        addTexture MetalRough "ID_metallicRoughnessTexture" "ID_metallicRoughnessTexCoord"
          (addTexture Albedo "ID_albedoTexture" "ID_albedoTexCoord"
            (define_insert "MATERIAL_METALLICROUGHNESS" EmptyString d1))
      else if HasPBRSpecGloss pMaterial then
        addTexture SpecGloss "ID_specularGlossinessTexture" "ID_specularGlossinessTexCoord"
          (addTexture Albedo "ID_albedoTexture" "ID_albedoTexCoord"
            (define_insert "MATERIAL_SPECULARGLOSSINESS" EmptyString d1))
      else d1
    else d1 in
  let d3 :=
    addTexture Occlusion "ID_occlusionTexture" "ID_occlusionTexCoord"
      (addTexture Emissive "ID_emissiveTexture" "ID_emissiveTexCoord"
        (addTexture Normal "ID_normalTexture" "ID_normalTexCoord" d2)) in
  let d4 :=
    if HasDoubleSided pMaterial then define_insert "ID_doublesided" EmptyString d3
    else d3 in
  let d5 :=
    if decide (GetBlendMode pMaterial = Mask)
    then define_insert "ID_alphaMask" EmptyString d4
    else d4 in
  GetVertexAttributeDefines usedAttributes d5.

(** Line 595 *)
Definition surfaceHash (m : ForwardRenderModule) (pSurface : Surface) : Z :=
  wrap64 (Hash (surfaceDefineList m pSurface) (surfaceUsedAttributes pSurface) pSurface).

(** Lines 598-602: index of the first group with the hash, scanning from
    index [i]. *)
Fixpoint findPipelineHash (hash : Z) groups
    (i : Z) : option Z :=
  match groups with
  | [] => None
  | g :: rest =>
      if decide (m_PipelineHash g = hash) then Some i
      else findPipelineHash hash rest (i + 1)
  end.

(** Lines 344-351 and 630-635: the attributes of the mask in ascending
    attribute-index order. *)
Definition attributesOf (usedAttributes : Z) : list Z :=
  filter (λ attribute, Z.land usedAttributes (Z.shiftl 1 attribute) ≠ 0)
    (seqZ 0 VertexAttributeType_Count).

(** Lines 607-647 *)
Definition buildPipelineDesc (m : ForwardRenderModule) (pSurface : Surface)
    : PipelineDesc :=
  {| pso_defines := surfaceDefineList m pSurface;
     pso_numRenderTargets := if m_GenerateMotionVectors m then 2 else 1;
     pso_CullingMode :=
       if HasDoubleSided (GetMaterial pSurface) then CullNone else CullFront;
     pso_inputLayout :=
       imap (λ slot attribute,
               (attribute, GetVertexBufferFormat pSurface attribute, Z.of_nat slot))
            (attributesOf (surfaceUsedAttributes pSurface));
     pso_DepthEnable := true;
     pso_StencilEnable := false;
     pso_DepthWriteEnable := true |}.

Definition GetPipelinePermutationID (m : ForwardRenderModule)
    (pSurface : Surface) : Z * ForwardRenderModule :=
  let hash := surfaceHash m pSurface in
  match findPipelineHash hash (m_PipelineRenderGroups m) 0 with
  | Some i => (i, m)
  | None =>
      let pPipelineObj := buildPipelineDesc m pSurface in
      let pipelineGroup :=
        {| m_Pipeline := pPipelineObj;
           m_PipelineHash := hash;
           m_UsedAttributes := surfaceUsedAttributes pSurface;
           m_RenderSurfaces := [] |} in
      let m' :=
        set_PipelineRenderGroups (λ g, g ++ [pipelineGroup])
          (log_CreatePipelineObject pPipelineObj m) in
      (Z.of_nat (length (m_PipelineRenderGroups m')) - 1, m')
  end.

(** ** Content synchronisation (lines 396-520) *)

Inductive Component : Type :=
| MeshComponent (owner : ptr) (pMesh : list Surface)
| OtherComponent (owner : ptr).

(** [ContentBlock::EntityDataBlocks], each with its [Components]. *)
Definition ContentBlock : Type := list (list Component).

Definition setAlbedo (r : Z * Z) (t : TextureIndices) : TextureIndices :=
  {| AlbedoTextureIndex := r.1; AlbedoSamplerIndex := r.2;
     MetalRoughSpecGlossTextureIndex := MetalRoughSpecGlossTextureIndex t;
     MetalRoughSpecGlossSamplerIndex := MetalRoughSpecGlossSamplerIndex t;
     NormalTextureIndex := NormalTextureIndex t;
     NormalSamplerIndex := NormalSamplerIndex t;
     EmissiveTextureIndex := EmissiveTextureIndex t;
     EmissiveSamplerIndex := EmissiveSamplerIndex t;
     OcclusionTextureIndex := OcclusionTextureIndex t;
     OcclusionSamplerIndex := OcclusionSamplerIndex t |}.

Definition setMetalRoughSpecGloss (r : Z * Z) (t : TextureIndices) : TextureIndices :=
  {| AlbedoTextureIndex := AlbedoTextureIndex t;
     AlbedoSamplerIndex := AlbedoSamplerIndex t;
     MetalRoughSpecGlossTextureIndex := r.1;
     MetalRoughSpecGlossSamplerIndex := r.2;
     NormalTextureIndex := NormalTextureIndex t;
     NormalSamplerIndex := NormalSamplerIndex t;
     EmissiveTextureIndex := EmissiveTextureIndex t;
     EmissiveSamplerIndex := EmissiveSamplerIndex t;
     OcclusionTextureIndex := OcclusionTextureIndex t;
     OcclusionSamplerIndex := OcclusionSamplerIndex t |}.

Definition setNormal (r : Z * Z) (t : TextureIndices) : TextureIndices :=
  {| AlbedoTextureIndex := AlbedoTextureIndex t;
     AlbedoSamplerIndex := AlbedoSamplerIndex t;
     MetalRoughSpecGlossTextureIndex := MetalRoughSpecGlossTextureIndex t;
     MetalRoughSpecGlossSamplerIndex := MetalRoughSpecGlossSamplerIndex t;
     NormalTextureIndex := r.1; NormalSamplerIndex := r.2;
     EmissiveTextureIndex := EmissiveTextureIndex t;
     EmissiveSamplerIndex := EmissiveSamplerIndex t;
     OcclusionTextureIndex := OcclusionTextureIndex t;
     OcclusionSamplerIndex := OcclusionSamplerIndex t |}.

Definition setEmissive (r : Z * Z) (t : TextureIndices) : TextureIndices :=
  {| AlbedoTextureIndex := AlbedoTextureIndex t;
     AlbedoSamplerIndex := AlbedoSamplerIndex t;
     MetalRoughSpecGlossTextureIndex := MetalRoughSpecGlossTextureIndex t;
     MetalRoughSpecGlossSamplerIndex := MetalRoughSpecGlossSamplerIndex t;
     NormalTextureIndex := NormalTextureIndex t;
     NormalSamplerIndex := NormalSamplerIndex t;
     EmissiveTextureIndex := r.1; EmissiveSamplerIndex := r.2;
     OcclusionTextureIndex := OcclusionTextureIndex t;
     OcclusionSamplerIndex := OcclusionSamplerIndex t |}.

Definition setOcclusion (r : Z * Z) (t : TextureIndices) : TextureIndices :=
  {| AlbedoTextureIndex := AlbedoTextureIndex t;
     AlbedoSamplerIndex := AlbedoSamplerIndex t;
     MetalRoughSpecGlossTextureIndex := MetalRoughSpecGlossTextureIndex t;
     MetalRoughSpecGlossSamplerIndex := MetalRoughSpecGlossSamplerIndex t;
     NormalTextureIndex := NormalTextureIndex t;
     NormalSamplerIndex := NormalSamplerIndex t;
     EmissiveTextureIndex := EmissiveTextureIndex t;
     EmissiveSamplerIndex := EmissiveSamplerIndex t;
     OcclusionTextureIndex := r.1; OcclusionSamplerIndex := r.2 |}.

(** One [AddTexture] call of the load loop followed by the two
    assignments into [surfaceRenderInfo.TextureIndices]; the state threaded
    through is (indices, the local [samplerIndex], module). *)
Definition resolveTexture (pMaterial : Material) (textureClass : TextureClass)
    (store : Z * Z → TextureIndices → TextureIndices)
    (st : TextureIndices * Z * ForwardRenderModule)
    : TextureIndices * Z * ForwardRenderModule :=
  let '(indices, samplerIndex, m) := st in
  let '(textureIndex, samplerIndex', m') :=
    AddTexture m pMaterial textureClass samplerIndex in
  (store (textureIndex, samplerIndex') indices, samplerIndex', m').

(** Lines 421-447.  [uninitialised] is the indeterminate value the local
    [int32_t samplerIndex] holds before the first [AddTexture] call. *)
Definition resolveTextures (uninitialised : Z) (pMaterial : Material)
    (m : ForwardRenderModule) : TextureIndices * Z * ForwardRenderModule :=
  let st0 := (TextureIndices_default, uninitialised, m) in
  let st1 :=
    if HasPBRInfo pMaterial then
      let st := resolveTexture pMaterial Albedo setAlbedo st0 in
      if HasPBRMetalRough pMaterial
      then resolveTexture pMaterial MetalRough setMetalRoughSpecGloss st
      else if HasPBRSpecGloss pMaterial
      then resolveTexture pMaterial SpecGloss setMetalRoughSpecGloss st
      else st
    else st0 in
  resolveTexture pMaterial Occlusion setOcclusion
    (resolveTexture pMaterial Emissive setEmissive
      (resolveTexture pMaterial Normal setNormal st1)).

Definition push_back_surface (info : PipelineSurfaceRenderInfo)
    (g : PipelineRenderGroup) : PipelineRenderGroup :=
  {| m_Pipeline := m_Pipeline g;
     m_PipelineHash := m_PipelineHash g;
     m_UsedAttributes := m_UsedAttributes g;
     m_RenderSurfaces := m_RenderSurfaces g ++ [info] |}.

(** Lines 413-450: the body of the surface loop. *)
Definition loadSurface (uninitialised : Z) (owner : ptr)
    (m : ForwardRenderModule) (pSurface : Surface) : ForwardRenderModule :=
  if HasTranslucency pSurface then m
  else
    let '(indices, _, m1) :=
      resolveTextures uninitialised (GetMaterial pSurface) m in
    let surfaceRenderInfo :=
      {| pOwner := owner; pSurface := pSurface; Indices := indices |} in
    let '(group, m2) := GetPipelinePermutationID m1 pSurface in
    set_PipelineRenderGroups
      (alter (push_back_surface surfaceRenderInfo) (Z.to_nat group)) m2.

Definition loadComponent (uninitialised : Z) (m : ForwardRenderModule)
    (pComponent : Component) : ForwardRenderModule :=
  match pComponent with
  | MeshComponent owner pMesh => foldl (loadSurface uninitialised owner) m pMesh
  | OtherComponent _ => m
  end.

Definition loadEntities (uninitialised : Z) (m : ForwardRenderModule)
    (pContentBlock : ContentBlock) : ForwardRenderModule :=
  foldl (foldl (loadComponent uninitialised)) m pContentBlock.

Definition SetTextureSRV (tex : ptr) (slot : Z) (ps : ParameterSet) : ParameterSet :=
  {| ps_TextureSRV := <[slot := tex]> (ps_TextureSRV ps);
     ps_Sampler := ps_Sampler ps |}.

Definition SetSampler (s : SamplerDesc) (slot : Z) (ps : ParameterSet) : ParameterSet :=
  {| ps_TextureSRV := ps_TextureSRV ps;
     ps_Sampler := <[slot := s]> (ps_Sampler ps) |}.

Fixpoint publishTextures (textures : list BoundTexture) (i : Z)
    (ps : ParameterSet) : ParameterSet :=
  match textures with
  | [] => ps
  | b :: rest => publishTextures rest (i + 1) (SetTextureSRV (pTexture b) i ps)
  end.

Fixpoint publishSamplers (samplers : list SamplerDesc) (i : Z)
    (ps : ParameterSet) : ParameterSet :=
  match samplers with
  | [] => ps
  | s :: rest => publishSamplers rest (i + 1) (SetSampler s i ps)
  end.

(** Lines 456-466: the table is re-published behind two capacity
    assertions. *)
Definition publishTable (m : ForwardRenderModule) : Outcome ForwardRenderModule :=
  _ ←o CauldronAssert
         (bool_decide (Z.of_nat (length (m_Textures m)) ≤ MAX_TEXTURES_COUNT / 2))
         "Too many textures.";
  let m1 := set_ParameterSet (publishTextures (m_Textures m) 0) m in
  _ ←o CauldronAssert
         (bool_decide (Z.of_nat (length (m_Samplers m1)) ≤ MAX_SAMPLERS_COUNT))
         "Too many samplers.";
  Done (set_ParameterSet (publishSamplers (m_Samplers m1) 0) m1).

Definition OnNewContentLoaded (uninitialised : Z) (m : ForwardRenderModule)
    (pContentBlock : ContentBlock) : Outcome ForwardRenderModule :=
  publishTable (loadEntities uninitialised m pContentBlock).

(** Line 494 *)
Definition sameSurface (owner : ptr) (pSurface' : Surface)
    (info : PipelineSurfaceRenderInfo) : Prop :=
  pOwner info = owner ∧ surfaceAddress (pSurface info) = surfaceAddress pSurface'.

#[global] Instance sameSurface_dec owner s info : Decision (sameSurface owner s info).
Proof. unfold sameSurface. apply _. Defined.

(** Lines 492-510: position of the first entry of a surface list that
    matches both identities. *)
Fixpoint findRenderSurface (owner : ptr) (pSurface' : Surface)
    (surfaces : list PipelineSurfaceRenderInfo) : option nat :=
  match surfaces with
  | [] => None
  | info :: rest =>
      if decide (sameSurface owner pSurface' info) then Some 0%nat
      else S <$> findRenderSurface owner pSurface' rest
  end.

Definition eraseSurface (k : nat) (g : PipelineRenderGroup) : PipelineRenderGroup :=
  {| m_Pipeline := m_Pipeline g;
     m_PipelineHash := m_PipelineHash g;
     m_UsedAttributes := m_UsedAttributes g;
     m_RenderSurfaces := delete k (m_RenderSurfaces g) |}.

(** Lines 500-504 *)
Definition releaseTextures (indices : TextureIndices) (m : ForwardRenderModule)
    : Outcome ForwardRenderModule :=
  m1 ←o RemoveTexture m (AlbedoTextureIndex indices);
  m2 ←o RemoveTexture m1 (MetalRoughSpecGlossTextureIndex indices);
  m3 ←o RemoveTexture m2 (NormalTextureIndex indices);
  m4 ←o RemoveTexture m3 (EmissiveTextureIndex indices);
  RemoveTexture m4 (OcclusionTextureIndex indices).

(** Lines 489-515: the scan over the groups from group number [g] on. *)
Fixpoint unloadFromGroups (owner : ptr) (pSurface' : Surface)
    groups (g : nat) (m : ForwardRenderModule)
    : Outcome ForwardRenderModule :=
  match groups with
  | [] => Done m
  | pipelineGroup :: rest =>
      match findRenderSurface owner pSurface' (m_RenderSurfaces pipelineGroup) with
      | Some k =>
          match m_RenderSurfaces pipelineGroup !! k with
          | Some info =>
              m' ←o releaseTextures (Indices info) m;
              Done (set_PipelineRenderGroups (alter (eraseSurface k) g) m')
          | None => OutOfRange
          end
      | None => unloadFromGroups owner pSurface' rest (S g) m
      end
  end.

(** Lines 483-515: the body of the surface loop of the unload callback. *)
Definition unloadSurface (owner : ptr) (m : ForwardRenderModule)
    (pSurface' : Surface) : Outcome ForwardRenderModule :=
  unloadFromGroups owner pSurface' (m_PipelineRenderGroups m) 0%nat m.

Definition foldO {A B : Type} (f : A → B → Outcome A) : A → list B → Outcome A :=
  fix go (a : A) (l : list B) : Outcome A :=
    match l with
    | [] => Done a
    | b :: rest => a' ←o f a b; go a' rest
    end.

Definition unloadComponent (m : ForwardRenderModule) (pComponent : Component)
    : Outcome ForwardRenderModule :=
  match pComponent with
  | MeshComponent owner pMesh => foldO (unloadSurface owner) m pMesh
  | OtherComponent _ => Done m
  end.

Definition OnContentUnloaded (m : ForwardRenderModule)
    (pContentBlock : ContentBlock) : Outcome ForwardRenderModule :=
  foldO (foldO unloadComponent) m pContentBlock.

(** ** Frame submission (lines 173-394) *)

Record ResolutionInfo : Type := {
  RenderWidth : Z;
  RenderHeight : Z;
  UpscaleWidth : Z;
  UpscaleHeight : Z
}.

(** What [Execute] reads from the framework, the scene and the entities
    during one frame.  [skinOf owner] is [Some id] when the owner has an
    animation component, [id] being its [m_skinId]. *)
Record Frame : Type := {
  GetBRDFLutTexture : ptr;
  GetIBLIrradiance : ptr;
  GetIBLPrefiltered : ptr;
  GetScreenSpaceShadowTexture : ptr;
  shadowMapRenderTargets : list ptr;
  GetUpscalingState : UpscalerState;
  GetResolutionInfo : ResolutionInfo;
  IsActive : ptr → bool;
  skinOf : ptr → option Z
}.

Inductive RenderTarget : Type := ColorTarget | DepthTarget | MotionVectorTarget.

Inductive VertexBufferSource : Type :=
| SurfaceVertexBuffer (surface : ptr) (attribute : Z)
| SkinnedPositions (owner : ptr) (surfaceID : Z)
| SkinnedNormals (owner : ptr) (surfaceID : Z)
| SkinnedPreviousPosition (owner : ptr) (surfaceID : Z).

Inductive ConstantBufferKind : Type := InstanceInformationCB | TextureIndicesCB.

(** The calls [Execute] makes on the command list and on the dynamic
    buffer pool, in program order.  [DrawIndexedInstanced] stands for the
    per-surface sequence of lines 328-380 that ends in the draw call; it
    records the entry it is issued for and the slot [currentSurface] of
    the two batch-allocated buffers it initialises. *)
Inductive Command : Type :=
| ResourceBarrier (toWrite : bool) (targets : list RenderTarget)
| ClearRenderTarget (rasterView : Z)
| ClearDepthStencil (rasterView : Z)
| BeginRaster (numColorViews : Z) (variableShading : bool)
| SetViewportScissorRect (x y width height : Z)
| SetPrimitiveTopology
| SetPipelineState (pipeline : PipelineDesc)
| BatchAllocateConstantBuffer (kind : ConstantBufferKind) (count : Z)
| DrawIndexedInstanced (info : PipelineSurfaceRenderInfo) (currentSurface : Z)
    (vertexBuffers : list VertexBufferSource) (indexCount : Z)
| EndRaster (variableShading : bool).

(** Lines 254-264 *)
Definition viewportSize (upscaleState : UpscalerState) (resInfo : ResolutionInfo)
    : Z * Z :=
  if decide (upscaleState = None_ ∨ upscaleState = PostUpscale)
  then (UpscaleWidth resInfo, UpscaleHeight resInfo)
  else (RenderWidth resInfo, RenderHeight resInfo).

(** Lines 281-285 *)
Fixpoint countActive (frame : Frame) (surfaces : list PipelineSurfaceRenderInfo)
    (activeCount : Z) : Z :=
  match surfaces with
  | [] => activeCount
  | info :: rest =>
      countActive frame rest
        (if IsActive frame (pOwner info) then activeCount + 1 else activeCount)
  end.

(** Lines 343-371: the vertex buffers of one draw; the three skinned
    overrides subscript the vector at 0, 1 and its last position. *)
Definition selectVertexBuffers (frame : Frame) (usedAttributes : Z)
    (info : PipelineSurfaceRenderInfo) : Outcome (list VertexBufferSource) :=
  let vertexBuffers :=
    SurfaceVertexBuffer (surfaceAddress (pSurface info))
      <$> attributesOf usedAttributes in
  match skinOf frame (pOwner info) with
  | Some skinId =>
      if decide (skinId ≠ -1) then
        let surfaceID := GetSurfaceID (pSurface info) in
        if decide (2 ≤ length vertexBuffers)%nat then
          let v0 := <[0%nat := SkinnedPositions (pOwner info) surfaceID]> vertexBuffers in
          let v1 := <[1%nat := SkinnedNormals (pOwner info) surfaceID]> v0 in
          Done (<[pred (length v1) := SkinnedPreviousPosition (pOwner info) surfaceID]> v1)
        else OutOfRange
      else Done vertexBuffers
  | None => Done vertexBuffers
  end.

(** Lines 296-382: the draw pass over one group's surface list;
    [activeCount] is the size the two buffer vectors were given. *)
Fixpoint drawSurfaces (frame : Frame) (usedAttributes : Z) (activeCount : Z)
    (surfaces : list PipelineSurfaceRenderInfo) (currentSurface : Z)
    : Outcome (list Command) :=
  match surfaces with
  | [] => Done []
  | info :: rest =>
      if IsActive frame (pOwner info) then
        if decide (currentSurface < activeCount) then
          vertexBuffers ←o selectVertexBuffers frame usedAttributes info;
          cmds ←o drawSurfaces frame usedAttributes activeCount rest (currentSurface + 1);
          Done (DrawIndexedInstanced info currentSurface vertexBuffers
                  (GetIndexCount (pSurface info)) :: cmds)
        else OutOfRange
      else drawSurfaces frame usedAttributes activeCount rest currentSurface
  end.

(** Lines 278-382: the body of the loop over the pipeline groups. *)
Definition renderGroup (frame : Frame) (pipelineGroup : PipelineRenderGroup)
    : Outcome (list Command) :=
  let activeCount := countActive frame (m_RenderSurfaces pipelineGroup) 0 in
  draws ←o drawSurfaces frame (m_UsedAttributes pipelineGroup) activeCount
             (m_RenderSurfaces pipelineGroup) 0;
  Done (SetPipelineState (m_Pipeline pipelineGroup)
        :: BatchAllocateConstantBuffer InstanceInformationCB activeCount
        :: BatchAllocateConstantBuffer TextureIndicesCB activeCount
        :: draws).

Fixpoint renderGroups (frame : Frame) groups
    : Outcome (list Command) :=
  match groups with
  | [] => Done []
  | pipelineGroup :: rest =>
      cmds ←o renderGroup frame pipelineGroup;
      more ←o renderGroups frame rest;
      Done (cmds ++ more)
  end.

Definition bindIfPresent (tex : ptr) (slot : Z) (ps : ParameterSet) : ParameterSet :=
  if decide (tex ≠ nullptr) then SetTextureSRV tex slot ps else ps.

(** Lines 205-208 *)
Fixpoint bindShadowMaps (shadowMaps : list ptr) (i : Z) (ps : ParameterSet)
    : ParameterSet :=
  match shadowMaps with
  | [] => ps
  | t :: rest => bindShadowMaps rest (i + 1) (SetTextureSRV t (503 + i) ps)
  end.

(** Lines 177-210: the fixed slots 500.. are re-bound every frame. *)
Definition bindSceneTextures (frame : Frame) (ps : ParameterSet)
    : Outcome ParameterSet :=
  let ps1 :=
    bindIfPresent (GetIBLPrefiltered frame) 502
      (bindIfPresent (GetIBLIrradiance frame) 501
        (bindIfPresent (GetBRDFLutTexture frame) 500 ps)) in
  if decide (GetScreenSpaceShadowTexture frame ≠ nullptr)
  then Done (SetTextureSRV (GetScreenSpaceShadowTexture frame) 503 ps1)
  else
    let shadowMaps := shadowMapRenderTargets frame in
    if decide (Z.of_nat (length shadowMaps) > 0) then
      _ ←o CauldronAssert
             (bool_decide (Z.of_nat (length shadowMaps) ≤ MAX_SHADOW_MAP_TEXTURES_COUNT))
             "Lighting Render Module can only support up to %d shadow maps.";
      Done (bindShadowMaps shadowMaps 0 ps1)
    else Done ps1.

(** Lines 213-232 and 266-267: the calls before the group loop. *)
Definition beginFrame (m : ForwardRenderModule) (width height : Z) : list Command :=
  let mv := m_GenerateMotionVectors m in
  [ResourceBarrier true
     ([ColorTarget; DepthTarget] ++ (if mv then [MotionVectorTarget] else []));
   ClearRenderTarget 0]
  ++ (if mv then [ClearRenderTarget 1] else [])
  ++ [ClearDepthStencil 2;
      BeginRaster (if mv then 2 else 1) (m_VariableShading m);
      SetViewportScissorRect 0 0 width height;
      SetPrimitiveTopology].

(** Lines 387-393: the calls after the group loop. *)
Definition endFrame (m : ForwardRenderModule) : list Command :=
  [EndRaster (m_VariableShading m);
   ResourceBarrier false [ColorTarget; DepthTarget]].

Definition Execute (frame : Frame) (m : ForwardRenderModule)
    : Outcome (ForwardRenderModule * list Command) :=
  ps ←o bindSceneTextures frame (m_pParameterSet m);
  let size := viewportSize (GetUpscalingState frame) (GetResolutionInfo frame) in
  draws ←o renderGroups frame (m_PipelineRenderGroups m);
  Done (set_ParameterSet (λ _, ps) m,
        beginFrame m size.1 size.2 ++ draws ++ endFrame m).

(** ** Observations on traces and tables used by the statements *)

Definition isDraw (c : Command) : bool :=
  match c with DrawIndexedInstanced _ _ _ _ => true | _ => false end.

Definition drawCalls (cmds : list Command) : list Command := filter isDraw cmds.

Definition allocatedSlots (kind : ConstantBufferKind) (cmds : list Command) : Z :=
  foldr (λ c acc,
           match c with
           | BatchAllocateConstantBuffer k n =>
               match kind, k with
               | InstanceInformationCB, InstanceInformationCB
               | TextureIndicesCB, TextureIndicesCB => n + acc
               | _, _ => acc
               end
           | _ => acc
           end) 0 cmds.

Definition viewportCommands (cmds : list Command) : list (Z * Z * Z * Z) :=
  omap (λ c, match c with
             | SetViewportScissorRect x y w h => Some (x, y, w, h)
             | _ => None
             end) cmds.

Definition ownerActive (frame : Frame) (info : PipelineSurfaceRenderInfo) : Prop :=
  IsActive frame (pOwner info) = true.

#[global] Instance ownerActive_dec frame info : Decision (ownerActive frame info).
Proof. unfold ownerActive. apply _. Defined.

Definition activeSurfaces (frame : Frame) (pipelineGroup : PipelineRenderGroup)
    : list PipelineSurfaceRenderInfo :=
  filter (ownerActive frame) (m_RenderSurfaces pipelineGroup).

(** A sequence of calls on the bindless table. *)
Inductive TableCall : Type :=
| CallAddTexture (pMaterial : Material) (textureClass : TextureClass)
    (textureSamplerIndex : Z)
| CallRemoveTexture (index : Z).

Definition tableCall (m : ForwardRenderModule) (c : TableCall)
    : Outcome ForwardRenderModule :=
  match c with
  | CallAddTexture pMaterial textureClass textureSamplerIndex =>
      Done (AddTexture m pMaterial textureClass textureSamplerIndex).2
  | CallRemoveTexture index => RemoveTexture m index
  end.

Definition tableCalls : ForwardRenderModule → list TableCall → Outcome ForwardRenderModule :=
  foldO tableCall.

(** Position of the first slot whose reference count is zero. *)
Fixpoint firstFreeSlot (textures : list BoundTexture) : option nat :=
  match textures with
  | [] => None
  | b :: rest =>
      if decide (count b = 0) then Some 0%nat else S <$> firstFreeSlot rest
  end.

Definition boundIn (textures : list BoundTexture) (tex : ptr) : Prop :=
  ∃ i b, textures !! i = Some b ∧ pTexture b = tex.

(** The data-model invariant of a slot: it is free (its handle is null)
    exactly when its reference count is zero. *)
Definition slotInvariant (b : BoundTexture) : Prop :=
  pTexture b = nullptr ↔ count b = 0.

(** A texture-slot index an entry may hold: the sentinel (any negative
    value) or a slot of the table. *)
Definition validIndex (textures : list BoundTexture) (index : Z) : Prop :=
  index < 0 ∨ index < Z.of_nat (length textures).

Definition validIndices (textures : list BoundTexture) (t : TextureIndices) : Prop :=
  validIndex textures (AlbedoTextureIndex t)
  ∧ validIndex textures (MetalRoughSpecGlossTextureIndex t)
  ∧ validIndex textures (NormalTextureIndex t)
  ∧ validIndex textures (EmissiveTextureIndex t)
  ∧ validIndex textures (OcclusionTextureIndex t).

(** The entries a trace draws, with the buffer slot each one was given. *)
Definition drawnEntries (cmds : list Command) : list (PipelineSurfaceRenderInfo * Z) :=
  omap (λ c, match c with
             | DrawIndexedInstanced info slot _ _ => Some (info, slot)
             | _ => None
             end) cmds.

Definition componentSurfaces (c : Component) : list Surface :=
  match c with
  | MeshComponent _ pMesh => pMesh
  | OtherComponent _ => []
  end.

Definition blockSurfaces (pContentBlock : ContentBlock) : list Surface :=
  concat (componentSurfaces <$> concat pContentBlock).

(** Surfaces are objects of the content system: two surface values that
    live at one address are the same surface. *)
Definition addressConsistent (surfaces : list Surface) : Prop :=
  ∀ s1 s2, s1 ∈ surfaces → s2 ∈ surfaces →
    surfaceAddress s1 = surfaceAddress s2 → s1 = s2.

(** What every table reached from the empty one satisfies: a texture
    object is bound in at most one slot, and every count is a [uint32_t]. *)
Definition uniqueHandles (textures : list BoundTexture) : Prop :=
  ∀ i j bi bj, textures !! i = Some bi → textures !! j = Some bj →
    pTexture bi = pTexture bj → pTexture bi ≠ nullptr → i = j.

Definition countsInRange (textures : list BoundTexture) : Prop :=
  ∀ i b, textures !! i = Some b → 0 ≤ count b < 2 ^ 32.

(** The effect of [RemoveTexture] on the table for an index that is the
    sentinel or a slot of the table. *)
Definition releaseSlot (index : Z) (textures : list BoundTexture) : list BoundTexture :=
  if decide (index >= 0) then alter releaseOne (Z.to_nat index) textures
  else textures.

(** Lines 500-504 on the table. *)
Definition releaseSlots (t : TextureIndices) (textures : list BoundTexture)
    : list BoundTexture :=
  releaseSlot (OcclusionTextureIndex t)
    (releaseSlot (EmissiveTextureIndex t)
      (releaseSlot (NormalTextureIndex t)
        (releaseSlot (MetalRoughSpecGlossTextureIndex t)
          (releaseSlot (AlbedoTextureIndex t) textures)))).

(** The calls the loop over the pipeline groups makes. *)
Definition isGroupCommand (c : Command) : bool :=
  match c with
  | SetPipelineState _ | BatchAllocateConstantBuffer _ _
  | DrawIndexedInstanced _ _ _ _ => true
  | _ => false
  end.


(** A sequence of content notifications. *)
Inductive Notification : Type :=
| Loaded (uninitialised : Z) (pContentBlock : ContentBlock)
| Unloaded (pContentBlock : ContentBlock).

Definition notify (m : ForwardRenderModule) (n : Notification)
    : Outcome ForwardRenderModule :=
  match n with
  | Loaded uninitialised pContentBlock => OnNewContentLoaded uninitialised m pContentBlock
  | Unloaded pContentBlock => OnContentUnloaded m pContentBlock
  end.

Definition notifications : ForwardRenderModule → list Notification → Outcome ForwardRenderModule :=
  foldO notify.

Definition notifiedSurfaces (ns : list Notification) : list Surface :=
  concat ((λ n, match n with
                | Loaded _ pContentBlock => blockSurfaces pContentBlock
                | Unloaded _ => []
                end) <$> ns).

(** The entity+surface pair of an entry, as the unload callback compares
    it (line 494). *)
Definition pairOf (info : PipelineSurfaceRenderInfo) : ptr * ptr :=
  (pOwner info, surfaceAddress (pSurface info)).

(** The members the bindless-table functions leave alone. *)
Definition sameCache (m m' : ForwardRenderModule) : Prop :=
  m_PipelineRenderGroups m' = m_PipelineRenderGroups m
  ∧ createdPipelines m' = createdPipelines m
  ∧ m_GenerateMotionVectors m' = m_GenerateMotionVectors m
  ∧ m_VariableShading m' = m_VariableShading m.

(** What the pipeline cache satisfies in every state the notifications
    reach: the hashes of the groups are pairwise distinct, and every
    entry sits in the group of its surface's hash. *)
Definition groupsConsistent (m : ForwardRenderModule) : Prop :=
  NoDup (m_PipelineHash <$> m_PipelineRenderGroups m)
  ∧ ∀ g info, g ∈ m_PipelineRenderGroups m → info ∈ m_RenderSurfaces g →
      surfaceHash m (pSurface info) = m_PipelineHash g.

Definition entriesFrom (known : list Surface) (m : ForwardRenderModule) : Prop :=
  ∀ g info, g ∈ m_PipelineRenderGroups m → info ∈ m_RenderSurfaces g →
    pSurface info ∈ known.

Definition cacheInvariant (known : list Surface) (m : ForwardRenderModule) : Prop :=
  groupsConsistent m ∧ entriesFrom known m.


(** Every entry holds texture-slot indices that are the sentinel or slots
    of the table. *)
Definition entriesValid (m : ForwardRenderModule) : Prop :=
  ∀ g info, g ∈ m_PipelineRenderGroups m → info ∈ m_RenderSurfaces g →
    validIndices (m_Textures m) (Indices info).

(** What identifies a group once it is created. *)
Definition groupKey (g : PipelineRenderGroup) : PipelineDesc * Z * Z :=
  (m_Pipeline g, m_PipelineHash g, m_UsedAttributes g).

(** The pipelines a trace binds, in order. *)
Definition boundPipelines (cmds : list Command) : list PipelineDesc :=
  omap (λ c, match c with SetPipelineState p => Some p | _ => None end) cmds.

(** The keys of the groups, in group order. *)
Definition groupKeys (m : ForwardRenderModule) : list (PipelineDesc * Z * Z) :=
  groupKey <$> m_PipelineRenderGroups m.

(** The pipeline of a group key fits what the frame hands it: as many
    render targets as the raster pass of a module with flag [mv] opens, and
    an input layout that lists the attributes of the key's mask in
    ascending order, the k-th of them at binding slot k. *)
Definition layoutFits (mv : bool) (key : PipelineDesc * Z * Z) : Prop :=
  pso_numRenderTargets key.1.1 = (if mv then 2 else 1)
  ∧ (λ e : Z * Z * Z, e.1.1) <$> pso_inputLayout key.1.1 = attributesOf key.2
  ∧ ∀ (k : nat) (e : Z * Z * Z), pso_inputLayout key.1.1 !! k = Some e → e.2 = Z.of_nat k.

(** One pipeline object per group, created in group order, each fitting
    its group. *)
Definition pipelinesFit (m : ForwardRenderModule) : Prop :=
  createdPipelines m = (λ key : PipelineDesc * Z * Z, key.1.1) <$> groupKeys m
  ∧ Forall (layoutFits (m_GenerateMotionVectors m)) (groupKeys m).

(** Every registered entry, group after group. *)
Definition allEntries (m : ForwardRenderModule) : list PipelineSurfaceRenderInfo :=
  concat (m_RenderSurfaces <$> m_PipelineRenderGroups m).

(** The entity+surface pairs the two callbacks visit, in the order of
    their three nested loops (lines 399-413 and 473-487). *)
Definition componentPairs (c : Component) : list (ptr * Surface) :=
  match c with
  | MeshComponent owner pMesh => (λ pSurface, (owner, pSurface)) <$> pMesh
  | OtherComponent _ => []
  end.

Definition blockPairs (pContentBlock : ContentBlock) : list (ptr * Surface) :=
  concat (componentPairs <$> concat pContentBlock).

(** The pairs of them the load callback registers (line 415 skips a
    surface with translucency), as the unload callback compares them. *)
Definition registeredPairs (pairs : list (ptr * Surface)) : list (ptr * ptr) :=
  omap (λ p : ptr * Surface,
          if HasTranslucency p.2 then None else Some (p.1, surfaceAddress p.2)) pairs.

(** ** Teardown (lines 148-171) *)

Inductive TeardownEvent : Type :=
| DeletePipeline (pipeline : PipelineDesc)
| DeleteSampler (sampler : SamplerDesc).

(** Lines 158-170.  The assertion of line 161 stops the teardown when a
    group still holds a surface; otherwise the pipeline of every group is
    deleted, in group order, and then every sampler. *)
Definition destructor (m : ForwardRenderModule) : Outcome (list TeardownEvent) :=
  deleted ←o foldO (λ (deleted : list TeardownEvent) (pipelineGroup : PipelineRenderGroup),
                      _ ←o CauldronAssert
                             (bool_decide (length (m_RenderSurfaces pipelineGroup) = 0%nat))
                             "Not all pipeline surfaces have been removed. This ship is leaking.";
                      Done (deleted ++ [DeletePipeline (m_Pipeline pipelineGroup)]))
                   [] (m_PipelineRenderGroups m);
  Done (deleted ++ (DeleteSampler <$> m_Samplers m)).

(** ** Reference accounting *)

(** 1 when a texture index denotes slot [i], 0 otherwise (in particular
    for the sentinel). *)
Definition hits (index : Z) (i : nat) : Z :=
  if decide (index = Z.of_nat i) then 1 else 0.

(** How many of the five texture indices of an entry denote slot [i]. *)
Definition referencesOf (t : TextureIndices) (i : nat) : Z :=
  hits (AlbedoTextureIndex t) i + hits (MetalRoughSpecGlossTextureIndex t) i
  + hits (NormalTextureIndex t) i + hits (EmissiveTextureIndex t) i
  + hits (OcclusionTextureIndex t) i.

(** How many texture indices of the entries of a list denote slot [i]. *)
Definition references (surfaces : list PipelineSurfaceRenderInfo) (i : nat) : Z :=
  foldr (λ info total, referencesOf (Indices info) i + total) 0 surfaces.

(** The count of slot [i], 0 beyond the table. *)
Definition countAt (textures : list BoundTexture) (i : nat) : Z :=
  from_option count 0 (textures !! i).

(** Every count is, as a [uint32_t], the number of texture indices of
    registered entries that denote its slot. *)
Definition referencesCounted (m : ForwardRenderModule) : Prop :=
  ∀ i : nat, wrap32 (countAt (m_Textures m) i) = wrap32 (references (allEntries m) i).

(** A material whose texture infos all carry a texture object. *)
Definition texturesPresent (pMaterial : Material) : Prop :=
  ∀ (textureClass : TextureClass) (ti : TextureInfo),
    GetTextureInfo pMaterial textureClass = Some ti → tex_pTexture ti ≠ nullptr.

(** Every slot is free exactly when its count is zero, and every count is
    below [n]. *)
Definition slotsBelow (n : Z) (textures : list BoundTexture) : Prop :=
  ∀ (i : nat) (b : BoundTexture),
    textures !! i = Some b → slotInvariant b ∧ 0 ≤ count b < n.

(** What the content notifications keep of the table while so few
    surfaces are registered that no count can reach the maximum of
    [uint32_t]. *)
Definition tableAccounted (m : ForwardRenderModule) : Prop :=
  entriesValid m ∧ referencesCounted m
  ∧ slotsBelow (5 * Z.of_nat (length (allEntries m)) + 1) (m_Textures m).

End Model.


(** * Sample content

    A concrete framework, with sampler descriptors numbered by [nat], and
    small scenes on which the statements below are evaluated. *)

Module Sample.

Definition attributeDefine (attribute : Z) : string :=
  if decide (attribute = 0) then "HAS_POSITION"
  else if decide (attribute = 1) then "HAS_NORMAL"
  else if decide (attribute = 2) then "HAS_TANGENT"
  else if decide (attribute = 5) then "HAS_COLOR_0"
  else if decide (attribute = 6) then "HAS_COLOR_1"
  else "HAS_PREVIOUS_POSITION".

(** A hash that is a function of the define list and the mask only, and
    the capacities 1000 (textures, half of which is the 500-slot texture
    array of the root signature) and 20 (samplers, half of which is its
    10-slot sampler set). *)
#[global] Instance framework : Framework (SamplerDesc := nat) := {|
  Hash := λ defines usedAttributes _,
    Z.of_nat (size defines) + 4096 * usedAttributes;
  GetVertexAttributeDefines := λ usedAttributes defines,
    foldr (λ attribute acc, define_insert (attributeDefine attribute) EmptyString acc)
      defines (attributesOf usedAttributes);
  MAX_TEXTURES_COUNT := 1000;
  MAX_SAMPLERS_COUNT := 20;
  MAX_SHADOW_MAP_TEXTURES_COUNT := 15
|}.




Definition texture (address : N) (sampler : nat) : TextureInfo (SamplerDesc := nat) :=
  {| tex_pTexture := address; TexSamplerDesc := sampler; UVSet := 0 |}.

(** A metallic-roughness material with an albedo and a normal texture. *)
Definition albedoNormalMaterial (albedo normal : TextureInfo (SamplerDesc := nat))
    : Material :=
  {| HasPBRInfo := true; HasPBRMetalRough := true; HasPBRSpecGloss := false;
     HasDoubleSided := false; GetBlendMode := Opaque;
     GetTextureInfo := λ textureClass,
       match textureClass with
       | Albedo => Some albedo
       | Normal => Some normal
       | _ => None
       end |}.

(** A metallic-roughness material with five textures whose texture
    objects live at [base .. base+4] and whose samplers are numbered
    [first .. first+4]. *)
Definition fullMaterial (base : N) (first : nat) : Material :=
  {| HasPBRInfo := true; HasPBRMetalRough := true; HasPBRSpecGloss := false;
     HasDoubleSided := false; GetBlendMode := Opaque;
     GetTextureInfo := λ textureClass,
       match textureClass with
       | Albedo => Some (texture base first)
       | MetalRough => Some (texture (base + 1) (first + 1))
       | Normal => Some (texture (base + 2) (first + 2))
       | Emissive => Some (texture (base + 3) (first + 3))
       | Occlusion => Some (texture (base + 4) (first + 4))
       | SpecGloss => None
       end |}.

(** Position, normal, tangent and texcoord0. *)
Definition fullAttributes : Z := 15.

Definition surface (address : N) (material : Material (SamplerDesc := nat))
    : Surface :=
  {| surfaceAddress := address; GetVertexAttributes := fullAttributes;
     GetMaterial := material; HasTranslucency := false; GetSurfaceID := 0;
     GetVertexBufferFormat := λ _, 0; GetIndexCount := 36 |}.

Definition materialA : Material := albedoNormalMaterial (texture 100 0) (texture 101 0).

Definition surfaceA : Surface := surface 10 materialA.
Definition surfaceB : Surface := surface 11 materialA.

Definition blockA : ContentBlock := [[MeshComponent 1%N [surfaceA]]].
Definition blockB : ContentBlock := [[MeshComponent 2%N [surfaceB]]].

(** Three surfaces whose textures use eleven different samplers. *)
Definition elevenSamplers : ContentBlock :=
  [[MeshComponent 1%N
      [surface 10 (fullMaterial 100 0);
       surface 11 (fullMaterial 200 5);
       surface 12 (albedoNormalMaterial (texture 300 10) (texture 301 10))]]].

Definition empty : ForwardRenderModule (SamplerDesc := nat) := emptyModule false false.

(** A table with one released slot. *)
Definition releasedSlot : ForwardRenderModule (SamplerDesc := nat) :=
  set_Textures (λ _, [{| pTexture := nullptr; count := 0 |}]) empty.

(** Two references to texture 100 in slot 0, one to texture 101 in slot 1. *)
Definition tableCallsA : list (TableCall (SamplerDesc := nat)) :=
  [CallAddTexture materialA Albedo 0;
   CallAddTexture materialA Normal 0;
   CallAddTexture materialA Albedo 0;
   CallAddTexture materialA Normal 0;
   CallRemoveTexture 1].

Definition tableA : ForwardRenderModule (SamplerDesc := nat) :=
  set_Samplers (λ _, [0%nat])
    (set_Textures (λ _, [{| pTexture := 100%N; count := 2 |};
                         {| pTexture := 101%N; count := 1 |}]) empty).

Definition frame (upscaleState : UpscalerState) (active : ptr → bool) : Frame :=
  {| GetBRDFLutTexture := nullptr; GetIBLIrradiance := nullptr;
     GetIBLPrefiltered := nullptr; GetScreenSpaceShadowTexture := nullptr;
     shadowMapRenderTargets := [];
     GetUpscalingState := upscaleState;
     GetResolutionInfo :=
       {| RenderWidth := 1280; RenderHeight := 720;
          UpscaleWidth := 2560; UpscaleHeight := 1440 |};
     IsActive := active;
     skinOf := λ _, None |}.

(** Entity 1 is active, every other entity is not. *)
Definition onlyEntity1 (owner : ptr) : bool := bool_decide (owner = 1%N).

Definition entry (owner : ptr) (pSurface : Surface (SamplerDesc := nat))
    : PipelineSurfaceRenderInfo :=
  {| pOwner := owner; pSurface := pSurface;
     Indices :=
       {| AlbedoTextureIndex := 0; AlbedoSamplerIndex := 0;
          MetalRoughSpecGlossTextureIndex := -1; MetalRoughSpecGlossSamplerIndex := 0;
          NormalTextureIndex := 1; NormalSamplerIndex := 0;
          EmissiveTextureIndex := -1; EmissiveSamplerIndex := 0;
          OcclusionTextureIndex := -1; OcclusionSamplerIndex := 0 |} |}.

Definition groupA (surfaces : list (PipelineSurfaceRenderInfo (SamplerDesc := nat)))
    : PipelineRenderGroup :=
  {| m_Pipeline := buildPipelineDesc empty surfaceA;
     m_PipelineHash := surfaceHash empty surfaceA;
     m_UsedAttributes := 7;
     m_RenderSurfaces := surfaces |}.

(** The module after [blockA] and [blockB] were loaded: one group with
    both surfaces, both textures referenced twice. *)
Definition loaded (references : Z)
    (surfaces : list (PipelineSurfaceRenderInfo (SamplerDesc := nat)))
    : ForwardRenderModule (SamplerDesc := nat) :=
  {| m_VariableShading := false;
     m_GenerateMotionVectors := false;
     m_pParameterSet :=
       {| ps_TextureSRV := <[1 := 101%N]> (<[0 := 100%N]> ∅);
          ps_Sampler := <[0 := 0%nat]> ∅ |};
     m_Textures := [{| pTexture := 100%N; count := references |};
                    {| pTexture := 101%N; count := references |}];
     m_Samplers := [0%nat];
     m_PipelineRenderGroups := [groupA surfaces];
     createdPipelines := [buildPipelineDesc empty surfaceA] |}.

Definition loadedAB : ForwardRenderModule (SamplerDesc := nat) :=
  loaded 2 [entry 1%N surfaceA; entry 2%N surfaceB].

Definition loadedA : ForwardRenderModule (SamplerDesc := nat) :=
  loaded 1 [entry 1%N surfaceA].

(** What the group pass issues for [loadedAB] when only entity 1 is active. *)
Definition groupPassA : list (Command (SamplerDesc := nat)) :=
  [SetPipelineState (buildPipelineDesc empty surfaceA);
   BatchAllocateConstantBuffer InstanceInformationCB 1;
   BatchAllocateConstantBuffer TextureIndicesCB 1;
   DrawIndexedInstanced (entry 1%N surfaceA) 0
     (SurfaceVertexBuffer 10%N <$> [0; 1; 2]) 36].

(** A frame in which every entity carries an animation component with the
    given skin id. *)
Definition skinned (skinId : Z) : Frame :=
  {| GetBRDFLutTexture := nullptr; GetIBLIrradiance := nullptr;
     GetIBLPrefiltered := nullptr; GetScreenSpaceShadowTexture := nullptr;
     shadowMapRenderTargets := [];
     GetUpscalingState := None_;
     GetResolutionInfo :=
       {| RenderWidth := 1280; RenderHeight := 720;
          UpscaleWidth := 2560; UpscaleHeight := 1440 |};
     IsActive := λ _, true;
     skinOf := λ _, Some skinId |}.

End Sample.

(** * Properties *)

Section Properties.
Context {SamplerDesc : Type} `{EqDecision SamplerDesc}.

Implicit Types (m : ForwardRenderModule (SamplerDesc := SamplerDesc)).
Implicit Types (b : BoundTexture) (textures : list BoundTexture).
Implicit Types (pMaterial : Material (SamplerDesc := SamplerDesc)).
Implicit Types (pSurface : Surface (SamplerDesc := SamplerDesc)).
Implicit Types (g : PipelineRenderGroup (SamplerDesc := SamplerDesc)).
Implicit Types (groups : list (PipelineRenderGroup (SamplerDesc := SamplerDesc))).
Implicit Types (entry : PipelineSurfaceRenderInfo (SamplerDesc := SamplerDesc)).
Implicit Types (surfaces : list (PipelineSurfaceRenderInfo (SamplerDesc := SamplerDesc))).

(** ** Bindless table *)

Lemma wrap32_range z : 0 ≤ wrap32 z < 2 ^ 32.
Proof. unfold wrap32. apply Z.mod_pos_bound. lia. Qed.

Lemma wrap32_small z : 0 ≤ z < 2 ^ 32 → wrap32 z = z.
Proof. intros Hz. unfold wrap32. apply Z.mod_small. exact Hz. Qed.

Lemma wrap32_minus_one : wrap32 (0 - 1) = 4294967295.
Proof. reflexivity. Qed.

Lemma scanTextures_spec tex textures :
  ∀ i f, 0 ≤ i →
    match scanTextures tex textures i f with
    | AlreadyMapped r =>
        ∃ k b, r = i + Z.of_nat k ∧ textures !! k = Some b ∧ pTexture b = tex
               ∧ ∀ k' b', (k' < k)%nat → textures !! k' = Some b' → pTexture b' ≠ tex
    | NotMapped f' =>
        (∀ k b, textures !! k = Some b → pTexture b ≠ tex)
        ∧ f' = (if decide (f < 0)
                then match firstFreeSlot textures with
                     | Some j => i + Z.of_nat j
                     | None => f
                     end
                else f)
    end.
Proof.
  induction textures as [|b rest IH]; intros i f Hi; simpl.
  - split; [intros k b Hk; discriminate Hk |]. destruct (decide (f < 0)); reflexivity.
  - destruct (decide (tex = pTexture b)) as [Heq|Hne].
    + exists 0%nat, b. repeat split; [lia | done | intros k' b' Hk'; lia].
    + destruct (decide (f < 0 ∧ count b = 0)) as [[Hf Hc]|Hn].
      * specialize (IH (i + 1) i ltac:(lia)).
        destruct (scanTextures tex rest (i + 1) i) as [r|f'].
        -- destruct IH as (k & b0 & -> & Hk & Hb & Hfirst).
           exists (S k), b0. repeat split; [lia | done | done |].
           intros [|k'] b' Hlt Hk'; simpl in Hk'.
           ++ injection Hk' as <-. congruence.
           ++ eapply Hfirst; [|done]. lia.
        -- destruct IH as [Hall ->]. split.
           ++ intros [|k] b0 Hk; simpl in Hk; [injection Hk as <-; congruence | eauto].
           ++ rewrite decide_False by lia. rewrite decide_True by done.
              rewrite decide_True by done. lia.
      * specialize (IH (i + 1) f ltac:(lia)).
        destruct (scanTextures tex rest (i + 1) f) as [r|f'].
        -- destruct IH as (k & b0 & -> & Hk & Hb & Hfirst).
           exists (S k), b0. repeat split; [lia | done | done |].
           intros [|k'] b' Hlt Hk'; simpl in Hk'.
           ++ injection Hk' as <-. congruence.
           ++ eapply Hfirst; [|done]. lia.
        -- destruct IH as [Hall ->]. split.
           ++ intros [|k] b0 Hk; simpl in Hk; [injection Hk as <-; congruence | eauto].
           ++ destruct (decide (f < 0)) as [Hf|Hf]; [|reflexivity].
              rewrite decide_False by tauto.
              destruct (firstFreeSlot rest) as [j|]; simpl; [lia | reflexivity].
Qed.

Lemma firstFreeSlot_Some textures j :
  firstFreeSlot textures = Some j ↔
    (∃ b, textures !! j = Some b ∧ count b = 0)
    ∧ ∀ k b, (k < j)%nat → textures !! k = Some b → count b ≠ 0.
Proof.
  revert j. induction textures as [|b rest IH]; intros j; simpl.
  - split; [discriminate | intros [(b & Hb & _) _]; discriminate Hb].
  - destruct (decide (count b = 0)) as [Hc|Hc].
    + split.
      * intros [= <-]. split; [eauto | intros k b' Hk; lia].
      * intros [_ Hfirst]. destruct j as [|j]; [done|].
        exfalso. apply (Hfirst 0%nat b); [lia | done | done].
    + split.
      * destruct (firstFreeSlot rest) as [j'|]; [|discriminate].
        intros [= <-]. destruct (IH j') as [IH1 _].
        destruct (IH1 eq_refl) as [Hz Hfirst]. split; [exact Hz |].
        intros [|k] b' Hk Hb'; simpl in Hb'; [congruence |].
        eapply Hfirst; [|done]. lia.
      * intros [(b0 & Hb0 & Hz) Hfirst]. destruct j as [|j].
        { simpl in Hb0. congruence. }
        assert (firstFreeSlot rest = Some j) as ->; [|done].
        apply IH. split; [eauto |].
        intros k b' Hk Hb'. apply (Hfirst (S k) b'); [lia | done].
Qed.

Lemma firstFreeSlot_None textures :
  firstFreeSlot textures = None ↔ ∀ k b, textures !! k = Some b → count b ≠ 0.
Proof.
  induction textures as [|b rest IH]; simpl.
  - split; [intros _ k b Hk; discriminate Hk | done].
  - destruct (decide (count b = 0)) as [Hc|Hc].
    + split; [discriminate |]. intros Hall. exfalso. by apply (Hall 0%nat b).
    + destruct (firstFreeSlot rest) as [j|]; simpl.
      * split; [discriminate |]. intros Hall.
        assert (Some j = @None nat) as Habs; [|discriminate Habs].
        apply IH. intros k b' Hk. by apply (Hall (S k) b').
      * split; [|done]. intros _ [|k] b' Hk; simpl in Hk; [congruence |].
        destruct IH as [IH _]. by apply (IH eq_refl k).
Qed.

Lemma firstFreeSlot_lt textures j :
  firstFreeSlot textures = Some j → (j < length textures)%nat.
Proof.
  intros Hj. apply firstFreeSlot_Some in Hj as [(b & Hb & _) _].
  by eapply lookup_lt_Some.
Qed.

Lemma firstFreeSlot_Some' textures j b :
  textures !! j = Some b →
  firstFreeSlot textures = Some j ↔
    count b = 0 ∧ ∀ k b', (k < j)%nat → textures !! k = Some b' → count b' ≠ 0.
Proof.
  intros Hj. rewrite firstFreeSlot_Some. split.
  - intros [(b0 & Hb0 & Hz) Hfirst]. split; [congruence | done].
  - intros [Hz Hfirst]. split; [eauto | done].
Qed.

(** What one [AddTexture] call does to the two tables when the material
    has a texture of the class. *)
Lemma AddTexture_present m pMaterial textureClass s info :
  GetTextureInfo pMaterial textureClass = Some info →
  let r := AddTexture m pMaterial textureClass s in
  let tex := tex_pTexture info in
  let fresh := {| pTexture := tex; count := 1 |} in
  r.1.2 = scanSamplers (TexSamplerDesc info) (m_Samplers m) 0
  ∧ m_PipelineRenderGroups r.2 = m_PipelineRenderGroups m
  ∧ createdPipelines r.2 = createdPipelines m
  ∧ m_GenerateMotionVectors r.2 = m_GenerateMotionVectors m
  ∧ m_VariableShading r.2 = m_VariableShading m
  ∧ m_pParameterSet r.2 = m_pParameterSet m
  ∧ ((∃ k b, m_Textures m !! k = Some b ∧ pTexture b = tex
            ∧ (∀ k' b', (k' < k)%nat → m_Textures m !! k' = Some b' → pTexture b' ≠ tex)
            ∧ r.1.1 = Z.of_nat k
            ∧ m_Textures r.2 = <[k := bumpCount b]> (m_Textures m))
     ∨ ((∀ k b, m_Textures m !! k = Some b → pTexture b ≠ tex)
        ∧ match firstFreeSlot (m_Textures m) with
          | Some j => r.1.1 = Z.of_nat j ∧ m_Textures r.2 = <[j := fresh]> (m_Textures m)
          | None => r.1.1 = Z.of_nat (length (m_Textures m))
                    ∧ m_Textures r.2 = m_Textures m ++ [fresh]
          end)).
Proof.
  intros Hinfo r tex fresh. subst r. unfold AddTexture. rewrite Hinfo.
  set (m1 := if decide _ then _ else m).
  assert (m_Textures m1 = m_Textures m ∧ m_PipelineRenderGroups m1 = m_PipelineRenderGroups m
          ∧ createdPipelines m1 = createdPipelines m
          ∧ m_GenerateMotionVectors m1 = m_GenerateMotionVectors m
          ∧ m_VariableShading m1 = m_VariableShading m
          ∧ m_pParameterSet m1 = m_pParameterSet m) as (Ht & Hg & Hc & Hmv & Hvs & Hps).
  { subst m1. by destruct (decide _). }
  pose proof (scanTextures_spec (tex_pTexture info) (m_Textures m1) 0 (-1) ltac:(lia)) as Hscan.
  destruct (scanTextures _ _ _ _) as [i|f].
  - destruct Hscan as (k & b & -> & Hk & Hb & Hfirst). simpl.
    repeat split; try done. left. exists k, b. rewrite <- Ht.
    split; [done |]. split; [done |]. split; [done |]. split; [lia |].
    rewrite Z.add_0_l, Nat2Z.id.
    apply list_eq. intros j. destruct (decide (k = j)) as [<-|Hne].
    + rewrite list_lookup_alter_eq, Hk. simpl.
      rewrite list_lookup_insert_eq; [done | by eapply lookup_lt_Some].
    + by rewrite list_lookup_alter_ne, list_lookup_insert_ne.
  - destruct Hscan as [Hall Hf]. rewrite decide_True in Hf by lia.
    rewrite <- Ht.
    destruct (firstFreeSlot (m_Textures m1)) as [j|] eqn:Hj; subst f.
    + rewrite decide_False by lia. simpl.
      repeat split; try done. right. split; [done |].
      split; [lia |]. by rewrite Z.add_0_l, Nat2Z.id.
    + rewrite decide_True by lia. simpl.
      repeat split; try done. right. split; [done |].
      split; [|done]. rewrite length_app. simpl. lia.
Qed.

Lemma RemoveTexture_sentinel m index : index < 0 → RemoveTexture m index = Done m.
Proof. intros Hneg. unfold RemoveTexture. by rewrite decide_False by lia. Qed.

Lemma RemoveTexture_slot m index b :
  0 ≤ index → m_Textures m !! Z.to_nat index = Some b →
  RemoveTexture m index
  = Done (set_Textures (<[Z.to_nat index := releaseOne b]>) m).
Proof.
  intros Hpos Hb. unfold RemoveTexture.
  rewrite decide_True by lia. by rewrite Hb.
Qed.

Lemma count_releaseOne b : count (releaseOne b) = wrap32 (count b - 1).
Proof. unfold releaseOne. by destruct (decide _). Qed.

Lemma pTexture_releaseOne b :
  pTexture (releaseOne b)
  = if decide (wrap32 (count b - 1) = 0) then nullptr else pTexture b.
Proof. unfold releaseOne. by destruct (decide _). Qed.

Lemma uniqueHandles_insert textures k b' :
  uniqueHandles textures →
  (pTexture b' = nullptr
   ∨ ∀ i bi, i ≠ k → textures !! i = Some bi → pTexture bi ≠ pTexture b') →
  uniqueHandles (<[k := b']> textures).
Proof.
  intros Huniq Hnew i j bi bj Hi Hj Heq Hnn.
  apply list_lookup_insert_Some in Hi as [(-> & -> & Hlt)|[Hik Hi]];
    apply list_lookup_insert_Some in Hj as [(Hjk & -> & Hlt')|[Hjk Hj]];
    try done.
  - destruct Hnew as [Hnull|Hnew]; [congruence |].
    exfalso. eapply (Hnew j bj); [congruence | done | congruence].
  - destruct Hnew as [Hnull|Hnew]; [congruence |].
    exfalso. eapply (Hnew i bi); [congruence | done | congruence].
  - by eapply Huniq.
Qed.

Lemma uniqueHandles_snoc textures b' :
  uniqueHandles textures →
  (∀ i bi, textures !! i = Some bi → pTexture bi ≠ pTexture b') →
  uniqueHandles (textures ++ [b']).
Proof.
  intros Huniq Hnew i j bi bj Hi Hj Heq Hnn.
  apply lookup_snoc_Some in Hi as [[Hlt Hi]|[-> ->]];
    apply lookup_snoc_Some in Hj as [[Hlt' Hj]|[-> ->]]; try done.
  - by eapply Huniq.
  - exfalso. by eapply Hnew.
  - exfalso. eapply Hnew; [done | congruence].
Qed.

Lemma countsInRange_insert textures k b' :
  countsInRange textures → 0 ≤ count b' < 2 ^ 32 →
  countsInRange (<[k := b']> textures).
Proof.
  intros Hr Hb' i b Hi.
  apply list_lookup_insert_Some in Hi as [(-> & -> & Hlt)|[Hik Hi]]; [done | eauto].
Qed.

Lemma countsInRange_snoc textures b' :
  countsInRange textures → 0 ≤ count b' < 2 ^ 32 →
  countsInRange (textures ++ [b']).
Proof.
  intros Hr Hb' i b Hi.
  apply lookup_snoc_Some in Hi as [[Hlt Hi]|[-> ->]]; [eauto | done].
Qed.

Lemma AddTexture_invariant m pMaterial textureClass s :
  uniqueHandles (m_Textures m) → countsInRange (m_Textures m) →
  let m' := (AddTexture m pMaterial textureClass s).2 in
  uniqueHandles (m_Textures m') ∧ countsInRange (m_Textures m').
Proof.
  intros Huniq Hrange m'. subst m'.
  destruct (GetTextureInfo pMaterial textureClass) as [info|] eqn:Hinfo.
  - destruct (AddTexture_present m pMaterial textureClass s info Hinfo)
      as (_ & _ & _ & _ & _ & _ & Hcases).
    destruct Hcases as [(k & b & Hk & Hb & _ & _ & ->)|[Hall Hfree]].
    + split.
      * apply uniqueHandles_insert; [done |].
        destruct (decide (pTexture b = nullptr)) as [Hn|Hn]; [by left | right].
        intros i bi Hik Hi Heq. simpl in Heq. apply Hik.
        apply (Huniq i k bi b Hi Hk Heq). congruence.
      * apply countsInRange_insert; [done |]. apply wrap32_range.
    + destruct (firstFreeSlot (m_Textures m)) as [j|].
      * destruct Hfree as [_ ->]. split.
        -- apply uniqueHandles_insert; [done |]. right. intros i bi _ Hi. eauto.
        -- apply countsInRange_insert; [done |]. simpl. lia.
      * destruct Hfree as [_ ->]. split.
        -- apply uniqueHandles_snoc; [done |]. eauto.
        -- apply countsInRange_snoc; [done |]. simpl. lia.
  - unfold AddTexture. rewrite Hinfo. done.
Qed.

Lemma RemoveTexture_invariant m index m' :
  uniqueHandles (m_Textures m) → countsInRange (m_Textures m) →
  RemoveTexture m index = Done m' →
  uniqueHandles (m_Textures m') ∧ countsInRange (m_Textures m').
Proof.
  intros Huniq Hrange. unfold RemoveTexture.
  destruct (decide (index >= 0)); [|by intros [= <-]].
  destruct (m_Textures m !! Z.to_nat index) as [b|] eqn:Hb; [|discriminate].
  intros [= <-]. simpl. split.
  - apply uniqueHandles_insert; [done |].
    rewrite pTexture_releaseOne. destruct (decide _); [by left |].
    destruct (decide (pTexture b = nullptr)) as [Hn|Hn]; [by left | right].
    intros i bi Hik Hi Heq. apply Hik.
    apply (Huniq i (Z.to_nat index) bi b Hi Hb Heq). congruence.
  - apply countsInRange_insert; [done |].
    rewrite count_releaseOne. apply wrap32_range.
Qed.

Lemma tableCalls_invariant calls :
  ∀ m m', uniqueHandles (m_Textures m) → countsInRange (m_Textures m) →
    tableCalls m calls = Done m' →
    uniqueHandles (m_Textures m') ∧ countsInRange (m_Textures m').
Proof.
  induction calls as [|c calls IH]; intros m m' Huniq Hrange; simpl.
  - by intros [= <-].
  - destruct c as [pMaterial textureClass s|index]; simpl.
    + destruct (AddTexture_invariant m pMaterial textureClass s Huniq Hrange).
      by apply IH.
    + destruct (RemoveTexture m index) as [m1| |] eqn:Hrem; simpl; try discriminate.
      destruct (RemoveTexture_invariant m index m1 Huniq Hrange Hrem).
      by apply IH.
Qed.

Lemma emptyModule_invariant vs mv :
  uniqueHandles (m_Textures (emptyModule (SamplerDesc := SamplerDesc) vs mv))
  ∧ countsInRange (m_Textures (emptyModule (SamplerDesc := SamplerDesc) vs mv)).
Proof. split; intros i; intros; simpl in *; discriminate. Qed.

(** C6: for a material that has no texture of the requested class,
    [AddTexture] returns the sentinel index -1 and leaves the module (the
    texture table and the sampler list) and the by-reference sampler
    index exactly as they were; [RemoveTexture] applied to the sentinel
    -1, or to any negative index, returns the module unchanged. *)
Theorem AddTexture_absent_RemoveTexture_sentinel
    m (pMaterial : Material) (textureClass : TextureClass) (s index : Z) :
  GetTextureInfo pMaterial textureClass = None →
  index < 0 →
  AddTexture m pMaterial textureClass s = (-1, s, m)
  ∧ RemoveTexture m (-1) = Done m
  ∧ RemoveTexture m index = Done m.
Proof.
  intros Hnone Hneg. split; [|split].
  - unfold AddTexture. by rewrite Hnone.
  - apply RemoveTexture_sentinel. lia.
  - by apply RemoveTexture_sentinel.
Qed.

Lemma slotInvariant_releaseOne b :
  1 ≤ count b < 2 ^ 32 → slotInvariant b → slotInvariant (releaseOne b).
Proof.
  intros Hc [Hinv1 Hinv2]. unfold slotInvariant.
  rewrite pTexture_releaseOne, count_releaseOne.
  rewrite wrap32_small by lia.
  destruct (decide (count b - 1 = 0)) as [Hz|Hz]; [done |].
  split; [|done]. intros Hnull. apply Hinv1 in Hnull. lia.
Qed.

(** C10: [RemoveTexture] decrements the [uint32_t] reference count of
    every slot it is given a non-negative index of, whatever the count.
    On a slot whose count is already 0 the call does not fail: the count
    wraps to 4294967295, the handle is left as it is, the slot is not the
    one a later [AddTexture] reuses, and a slot that satisfied "free iff
    count is 0" no longer does.  When the count is at least 1 the
    decrement is exact and the invariant of every slot is preserved. *)
Theorem RemoveTexture_wraps_at_zero m (index : Z) b :
  0 ≤ index →
  m_Textures m !! Z.to_nat index = Some b →
  ∃ m', RemoveTexture m index = Done m'
    ∧ m_Textures m' = <[Z.to_nat index := releaseOne b]> (m_Textures m)
    ∧ count (releaseOne b) = wrap32 (count b - 1)
    ∧ (count b = 0 →
         releaseOne b = {| pTexture := pTexture b; count := 4294967295 |}
         ∧ firstFreeSlot (m_Textures m') ≠ Some (Z.to_nat index)
         ∧ (slotInvariant b → ¬ slotInvariant (releaseOne b)))
    ∧ (1 ≤ count b < 2 ^ 32 →
         count (releaseOne b) = count b - 1
         ∧ (Forall slotInvariant (m_Textures m) → Forall slotInvariant (m_Textures m'))).
Proof.
  intros Hpos Hb. eexists. split; [by apply RemoveTexture_slot |].
  simpl. split; [done |]. split; [apply count_releaseOne |]. split.
  - intros Hz.
    assert (releaseOne b = {| pTexture := pTexture b; count := 4294967295 |}) as Hrel.
    { unfold releaseOne. rewrite Hz. reflexivity. }
    split; [done |]. split.
    + intros Hfree. apply firstFreeSlot_Some in Hfree as [(b' & Hb' & Hc') _].
      rewrite list_lookup_insert_eq in Hb' by (by eapply lookup_lt_Some).
      injection Hb' as <-. rewrite Hrel in Hc'. simpl in Hc'. lia.
    + intros [Hinv1 Hinv2] [Hbad _]. rewrite Hrel in Hbad. simpl in Hbad.
      specialize (Hbad (Hinv2 Hz)). lia.
  - intros Hc. split.
    + rewrite count_releaseOne. apply wrap32_small. lia.
    + intros Hall. apply Forall_insert; [done |].
      apply slotInvariant_releaseOne; [done |].
      rewrite Forall_lookup in Hall. by eapply Hall.
Qed.

(** C1: in every table reached from the empty one by [AddTexture] and
    [RemoveTexture] calls: (1) [AddTexture] for a material whose texture
    object is bound in slot [i] returns [i], adds 1 to that slot's
    [uint32_t] count (exactly 1 below the type's maximum) and leaves the
    length and every other slot as they were; (2) [RemoveTexture] on a
    non-negative index of the table subtracts 1 from that slot's
    [uint32_t] count (exactly 1 from a count of at least 1); (3)
    [AddTexture] for a texture bound in no slot overwrites a slot iff its
    count is 0 and no earlier slot has count 0, returning that slot, and
    appends a new last entry only if no slot has count 0. *)
Theorem bindless_table_reference_counting
    (vs mv : bool) (calls : list TableCall) m :
  tableCalls (emptyModule vs mv) calls = Done m →
  (∀ (pMaterial : Material) (textureClass : TextureClass) (s : Z) info i b,
     GetTextureInfo pMaterial textureClass = Some info →
     tex_pTexture info ≠ nullptr →
     m_Textures m !! i = Some b →
     pTexture b = tex_pTexture info →
     let r := AddTexture m pMaterial textureClass s in
     r.1.1 = Z.of_nat i
     ∧ m_Textures r.2
       = <[i := {| pTexture := pTexture b; count := wrap32 (count b + 1) |}]> (m_Textures m)
     ∧ length (m_Textures r.2) = length (m_Textures m)
     ∧ (count b < 2 ^ 32 - 1 → wrap32 (count b + 1) = count b + 1))
  ∧ (∀ (index : Z) b,
       0 ≤ index →
       m_Textures m !! Z.to_nat index = Some b →
       ∃ m' b', RemoveTexture m index = Done m'
         ∧ m_Textures m' = <[Z.to_nat index := b']> (m_Textures m)
         ∧ count b' = wrap32 (count b - 1)
         ∧ (1 ≤ count b → count b' = count b - 1))
  ∧ (∀ (pMaterial : Material) (textureClass : TextureClass) (s : Z) info,
       GetTextureInfo pMaterial textureClass = Some info →
       ¬ boundIn (m_Textures m) (tex_pTexture info) →
       let r := AddTexture m pMaterial textureClass s in
       let fresh := {| pTexture := tex_pTexture info; count := 1 |} in
       (∀ j b, m_Textures m !! j = Some b →
          (m_Textures r.2 !! j ≠ Some b ↔
             count b = 0
             ∧ ∀ k b', (k < j)%nat → m_Textures m !! k = Some b' → count b' ≠ 0))
       ∧ (∀ j, firstFreeSlot (m_Textures m) = Some j →
            r.1.1 = Z.of_nat j
            ∧ m_Textures r.2 = <[j := fresh]> (m_Textures m))
       ∧ (firstFreeSlot (m_Textures m) = None →
            r.1.1 = Z.of_nat (length (m_Textures m))
            ∧ m_Textures r.2 = m_Textures m ++ [fresh])).
Proof.
  intros Hreach.
  destruct (emptyModule_invariant vs mv) as [Hu0 Hr0].
  destruct (tableCalls_invariant calls _ _ Hu0 Hr0 Hreach) as [Huniq Hrange].
  split; [|split].
  - intros pMaterial textureClass s info i b Hinfo Hnn Hi Hb r.
    destruct (AddTexture_present m pMaterial textureClass s info Hinfo)
      as (_ & _ & _ & _ & _ & _ & Hcases). fold r in Hcases.
    destruct Hcases as [(k & b0 & Hk & Hb0 & _ & Hret & Htex)|[Hall _]].
    + assert (k = i) as ->.
      { apply (Huniq k i b0 b Hk Hi); congruence. }
      assert (b0 = b) as -> by congruence.
      split; [done |]. split; [done |]. split.
      * rewrite Htex. apply length_insert.
      * intros Hlt. apply wrap32_small. specialize (Hrange i b Hi). lia.
    + exfalso. by apply (Hall i b).
  - intros index b Hpos Hb. exists (set_Textures (<[Z.to_nat index := releaseOne b]>) m), (releaseOne b).
    split; [by apply RemoveTexture_slot |]. split; [done |].
    split; [apply count_releaseOne |].
    intros Hc. rewrite count_releaseOne. apply wrap32_small.
    specialize (Hrange _ b Hb). lia.
  - intros pMaterial textureClass s info Hinfo Hunbound r fresh.
    destruct (AddTexture_present m pMaterial textureClass s info Hinfo)
      as (_ & _ & _ & _ & _ & _ & Hcases). fold r in Hcases.
    destruct Hcases as [(k & b0 & Hk & Hb0 & _)|[Hall Hfree]].
    { exfalso. apply Hunbound. by exists k, b0. }
    split; [|split].
    + intros j b Hj. rewrite <- (firstFreeSlot_Some' _ j b Hj).
      destruct (firstFreeSlot (m_Textures m)) as [j'|] eqn:Hj'.
      * destruct Hfree as [_ ->]. split.
        -- intros Hchanged. destruct (decide (j' = j)) as [->|Hne]; [done |].
           rewrite list_lookup_insert_ne in Hchanged by done. done.
        -- intros [= ->].
           rewrite list_lookup_insert_eq by (by eapply lookup_lt_Some).
           intros [= <-]. by apply (Hall j fresh).
      * destruct Hfree as [_ ->]. split; [|discriminate].
        intros Hchanged. exfalso. apply Hchanged. by apply lookup_app_l_Some.
    + intros j Hj. by rewrite Hj in Hfree.
    + intros Hnone. by rewrite Hnone in Hfree.
Qed.

(** ** Pipeline permutation cache *)

Context `{Framework (SamplerDesc := SamplerDesc)}.

Lemma surfaceDefineList_ext m m' pSurface :
  m_GenerateMotionVectors m = m_GenerateMotionVectors m' →
  surfaceDefineList m pSurface = surfaceDefineList m' pSurface.
Proof. intros Hmv. unfold surfaceDefineList. by rewrite Hmv. Qed.

Lemma surfaceHash_ext m m' pSurface :
  m_GenerateMotionVectors m = m_GenerateMotionVectors m' →
  surfaceHash m pSurface = surfaceHash m' pSurface.
Proof.
  intros Hmv. unfold surfaceHash. by rewrite (surfaceDefineList_ext m m').
Qed.

Lemma findPipelineHash_Some hash groups :
  ∀ i r, findPipelineHash hash groups i = Some r →
    ∃ k g, r = i + Z.of_nat k ∧ groups !! k = Some g ∧ m_PipelineHash g = hash
           ∧ ∀ k' g', (k' < k)%nat → groups !! k' = Some g' → m_PipelineHash g' ≠ hash.
Proof.
  induction groups as [|g rest IH]; intros i r; simpl; [discriminate |].
  destruct (decide (m_PipelineHash g = hash)) as [Heq|Hne].
  - intros [= <-]. exists 0%nat, g. repeat split; [lia | done | intros k' g' Hk'; lia].
  - intros Hr. apply IH in Hr as (k & g0 & -> & Hk & Hh & Hfirst).
    exists (S k), g0. repeat split; [lia | done | done |].
    intros [|k'] g' Hlt Hk'; simpl in Hk'; [congruence |].
    eapply Hfirst; [|done]. lia.
Qed.

Lemma findPipelineHash_None hash groups :
  ∀ i, findPipelineHash hash groups i = None ↔
    ∀ g, g ∈ groups → m_PipelineHash g ≠ hash.
Proof.
  induction groups as [|g rest IH]; intros i; simpl.
  - split; [intros _ g Hg; by apply not_elem_of_nil in Hg | done].
  - destruct (decide (m_PipelineHash g = hash)) as [Heq|Hne].
    + split; [discriminate |]. intros Hall. exfalso. apply (Hall g); [left | done].
    + rewrite IH. split.
      * intros Hall g' Hg'. apply elem_of_cons in Hg' as [->|Hg']; eauto.
      * intros Hall g' Hg'. apply Hall. by right.
Qed.

Lemma findPipelineHash_app_Some hash groups (more : list PipelineRenderGroup) :
  ∀ i r, findPipelineHash hash groups i = Some r →
    findPipelineHash hash (groups ++ more) i = Some r.
Proof.
  induction groups as [|g rest IH]; intros i r; simpl; [discriminate |].
  destruct (decide (m_PipelineHash g = hash)); [done | apply IH].
Qed.


(** What one [GetPipelinePermutationID] call does. *)
Lemma GetPipelinePermutationID_cases m pSurface :
  let r := GetPipelinePermutationID m pSurface in
  let hash := surfaceHash m pSurface in
  m_Textures r.2 = m_Textures m
  ∧ m_Samplers r.2 = m_Samplers m
  ∧ m_GenerateMotionVectors r.2 = m_GenerateMotionVectors m
  ∧ m_VariableShading r.2 = m_VariableShading m
  ∧ m_pParameterSet r.2 = m_pParameterSet m
  ∧ ((findPipelineHash hash (m_PipelineRenderGroups m) 0 = Some r.1 ∧ r.2 = m)
     ∨ (findPipelineHash hash (m_PipelineRenderGroups m) 0 = None
        ∧ r.1 = Z.of_nat (length (m_PipelineRenderGroups m))
        ∧ m_PipelineRenderGroups r.2
          = m_PipelineRenderGroups m
            ++ [{| m_Pipeline := buildPipelineDesc m pSurface;
                   m_PipelineHash := hash;
                   m_UsedAttributes := surfaceUsedAttributes pSurface;
                   m_RenderSurfaces := [] |}]
        ∧ createdPipelines r.2
          = createdPipelines m ++ [buildPipelineDesc m pSurface])).
Proof.
  intros r hash. subst r hash. unfold GetPipelinePermutationID.
  destruct (findPipelineHash _ _ 0) as [i|] eqn:Hfind; simpl.
  - repeat split; try done. by left.
  - repeat split; try done. right. repeat split; try done.
    rewrite length_app. simpl. lia.
Qed.


(** ** Content synchronisation: unload *)

Lemma findRenderSurface_Some owner pSurface surfaces k :
  findRenderSurface owner pSurface surfaces = Some k ↔
    ∃ entry, surfaces !! k = Some entry ∧ sameSurface owner pSurface entry
      ∧ ∀ k' entry', (k' < k)%nat → surfaces !! k' = Some entry' →
          ¬ sameSurface owner pSurface entry'.
Proof.
  revert k. induction surfaces as [|e rest IH]; intros k; simpl.
  - split; [discriminate | intros (entry & Hk & _); discriminate Hk].
  - destruct (decide (sameSurface owner pSurface e)) as [Hsame|Hdiff].
    + split.
      * intros [= <-]. exists e. split; [done |]. split; [done |]. intros k' e' Hk'; lia.
      * intros (entry & Hk & _ & Hfirst). destruct k as [|k]; [done |].
        exfalso. apply (Hfirst 0%nat e); [lia | done | done].
    + destruct (findRenderSurface owner pSurface rest) as [k0|] eqn:Hfind; simpl.
      * split.
        -- intros [= <-]. destruct (proj1 (IH k0) eq_refl) as (entry & Hk & Hs & Hfirst).
           exists entry. split; [done |]. split; [done |].
           intros [|k'] e' Hlt He'; simpl in He'; [congruence |].
           eapply Hfirst; [|done]. lia.
        -- intros (entry & Hk & Hs & Hfirst). destruct k as [|k].
           { simpl in Hk. congruence. }
           f_equal. assert (Some k0 = Some k) as Heq; [|congruence].
           apply IH. exists entry. split; [done |]. split; [done |].
           intros k' e' Hlt He'. apply (Hfirst (S k') e'); [lia | done].
      * split; [discriminate |].
        intros (entry & Hk & Hs & Hfirst). destruct k as [|k].
        { simpl in Hk. congruence. }
        assert (@None nat = Some k) as Heq; [|discriminate Heq].
        apply IH. exists entry. split; [done |]. split; [done |].
        intros k' e' Hlt He'. apply (Hfirst (S k') e'); [lia | done].
Qed.

Lemma findRenderSurface_None owner pSurface surfaces :
  findRenderSurface owner pSurface surfaces = None ↔
    ∀ entry, entry ∈ surfaces → ¬ sameSurface owner pSurface entry.
Proof.
  induction surfaces as [|e rest IH]; simpl.
  - split; [intros _ entry He; by apply not_elem_of_nil in He | done].
  - destruct (decide (sameSurface owner pSurface e)) as [Hsame|Hdiff].
    + split; [discriminate |]. intros Hall. exfalso. apply (Hall e); [left | done].
    + destruct (findRenderSurface owner pSurface rest) as [k0|]; simpl.
      * split; [discriminate |]. intros Hall.
        assert (Some k0 = @None nat) as Heq; [|discriminate Heq].
        apply IH. intros entry He. apply Hall. by right.
      * split; [|done]. intros _ entry He.
        apply elem_of_cons in He as [->|He]; [done |].
        by apply (proj1 IH eq_refl).
Qed.

Lemma RemoveTexture_valid m index :
  validIndex (m_Textures m) index →
  RemoveTexture m index = Done (set_Textures (releaseSlot index) m).
Proof.
  intros Hvalid. unfold RemoveTexture, releaseSlot, set_Textures.
  destruct (decide (index >= 0)) as [Hpos|Hneg]; [|by destruct m].
  destruct Hvalid as [Hlt|Hlt]; [lia |].
  destruct (lookup_lt_is_Some_2 (m_Textures m) (Z.to_nat index) ltac:(lia)) as [b Hb].
  rewrite Hb. do 2 f_equal.
  apply list_eq. intros j. destruct (decide (Z.to_nat index = j)) as [<-|Hne].
  - rewrite list_lookup_alter_eq, Hb. simpl.
    apply list_lookup_insert_eq. by eapply lookup_lt_Some.
  - by rewrite list_lookup_alter_ne, list_lookup_insert_ne.
Qed.

Lemma length_releaseSlot index textures :
  length (releaseSlot index textures) = length textures.
Proof. unfold releaseSlot. destruct (decide _); [apply length_alter | done]. Qed.

Lemma validIndex_releaseSlot index index' textures :
  validIndex textures index → validIndex (releaseSlot index' textures) index.
Proof. unfold validIndex. by rewrite length_releaseSlot. Qed.

Lemma releaseTextures_valid m (t : TextureIndices) :
  validIndices (m_Textures m) t →
  releaseTextures t m = Done (set_Textures (releaseSlots t) m).
Proof.
  intros (Ha & Hm & Hn & He & Ho). unfold releaseTextures.
  rewrite RemoveTexture_valid by done. simpl.
  rewrite RemoveTexture_valid by (by apply validIndex_releaseSlot). simpl.
  rewrite RemoveTexture_valid by (by do 2 apply validIndex_releaseSlot). simpl.
  rewrite RemoveTexture_valid by (by do 3 apply validIndex_releaseSlot). simpl.
  rewrite RemoveTexture_valid by (by do 4 apply validIndex_releaseSlot).
  reflexivity.
Qed.

Lemma unloadFromGroups_absent owner pSurface groups :
  ∀ start m,
    (∀ g, g ∈ groups → findRenderSurface owner pSurface (m_RenderSurfaces g) = None) →
    unloadFromGroups owner pSurface groups start m = Done m.
Proof.
  induction groups as [|g rest IH]; intros start m Hall; simpl; [done |].
  rewrite (Hall g) by left. apply IH. intros g' Hg'. apply Hall. by right.
Qed.

Lemma unloadFromGroups_found owner pSurface pre g post k entry :
  ∀ start m m',
    (∀ g', g' ∈ pre → findRenderSurface owner pSurface (m_RenderSurfaces g') = None) →
    findRenderSurface owner pSurface (m_RenderSurfaces g) = Some k →
    m_RenderSurfaces g !! k = Some entry →
    releaseTextures (Indices entry) m = Done m' →
    unloadFromGroups owner pSurface (pre ++ g :: post) start m
    = Done (set_PipelineRenderGroups (alter (eraseSurface k) (start + length pre)%nat) m').
Proof.
  induction pre as [|g1 pre IH]; intros start m m' Hpre Hfind Hentry Hrel; simpl.
  - rewrite Hfind, Hentry, Hrel. simpl. by rewrite Nat.add_0_r.
  - rewrite (Hpre g1) by left.
    rewrite (IH (S start) m m'); [|intros g' Hg'; apply Hpre; by right |done..].
    do 3 f_equal. lia.
Qed.

(** C3: an unload notification for one entity+surface pair.  When [g] is
    the first group whose list has an entry matching both the owning
    entity and the surface, and [k] the first such entry of that list
    (holding valid slot indices), the callback completes, releases the
    five texture indices of that entry with [RemoveTexture] (which leaves
    the table alone for a sentinel), erases exactly entry [k] of group
    [g] and leaves every group before and after [g], matching or not, as
    it was.  When no group has a matching entry the module is returned
    unchanged. *)
Theorem OnContentUnloaded_removes_first_match m (owner : ptr) pSurface :
  OnContentUnloaded m [[MeshComponent owner [pSurface]]] = unloadSurface owner m pSurface
  ∧ (∀ pre g post k,
       m_PipelineRenderGroups m = pre ++ g :: post →
       (∀ g', g' ∈ pre → ∀ entry, entry ∈ m_RenderSurfaces g' →
          ¬ sameSurface owner pSurface entry) →
       findRenderSurface owner pSurface (m_RenderSurfaces g) = Some k →
       (∀ entry, m_RenderSurfaces g !! k = Some entry →
          validIndices (m_Textures m) (Indices entry)) →
       ∃ entry m',
         m_RenderSurfaces g !! k = Some entry
         ∧ sameSurface owner pSurface entry
         ∧ (∀ k' entry', (k' < k)%nat → m_RenderSurfaces g !! k' = Some entry' →
              ¬ sameSurface owner pSurface entry')
         ∧ unloadSurface owner m pSurface = Done m'
         ∧ releaseTextures (Indices entry) m
           = Done (set_Textures (λ _, m_Textures m') m)
         ∧ m_Textures m' = releaseSlots (Indices entry) (m_Textures m)
         ∧ m_PipelineRenderGroups m'
           = pre ++ eraseSurface k g :: post
         ∧ m_RenderSurfaces (eraseSurface k g) = delete k (m_RenderSurfaces g)
         ∧ m_Pipeline (eraseSurface k g) = m_Pipeline g
         ∧ m_PipelineHash (eraseSurface k g) = m_PipelineHash g
         ∧ m_UsedAttributes (eraseSurface k g) = m_UsedAttributes g
         ∧ m_Samplers m' = m_Samplers m
         ∧ m_pParameterSet m' = m_pParameterSet m
         ∧ createdPipelines m' = createdPipelines m)
  ∧ ((∀ g, g ∈ m_PipelineRenderGroups m → ∀ entry, entry ∈ m_RenderSurfaces g →
        ¬ sameSurface owner pSurface entry) →
     unloadSurface owner m pSurface = Done m).
Proof.
  split; [|split].
  - simpl. by destruct (unloadSurface owner m pSurface).
  - intros pre g post k Hgroups Hpre Hfind Hvalid.
    pose proof Hfind as Hfind'.
    apply findRenderSurface_Some in Hfind' as (entry & Hk & Hsame & Hfirst).
    specialize (Hvalid entry Hk).
    pose proof (releaseTextures_valid m (Indices entry) Hvalid) as Hrel.
    exists entry,
      (set_PipelineRenderGroups (alter (eraseSurface k) (0 + length pre)%nat)
         (set_Textures (releaseSlots (Indices entry)) m)).
    split; [done |]. split; [done |]. split; [done |].
    split.
    { unfold unloadSurface. rewrite Hgroups.
      apply (unloadFromGroups_found owner pSurface pre g post k entry 0%nat m _);
        [|done..].
      intros g' Hg'. apply findRenderSurface_None. by apply Hpre. }
    simpl. split; [by rewrite Hrel |]. split; [done |]. split; [|done].
    rewrite Hgroups.
    rewrite alter_app_r_alt by (simpl; lia). by rewrite Nat.sub_diag.
  - intros Hnone. unfold unloadSurface. apply unloadFromGroups_absent.
    intros g Hg. apply findRenderSurface_None. by apply Hnone.
Qed.

(** ** Frame submission *)

Implicit Types (frame : Frame) (cmds : list (Command (SamplerDesc := SamplerDesc))).
Implicit Types (perGroup : list (list (Command (SamplerDesc := SamplerDesc)))).

Lemma countActive_filter frame surfaces :
  ∀ a, countActive frame surfaces a
       = a + Z.of_nat (length (filter (ownerActive frame) surfaces)).
Proof.
  induction surfaces as [|e rest IH]; intros a; simpl; [lia |].
  rewrite IH. rewrite filter_cons.
  destruct (decide (ownerActive frame e)) as [Hact|Hact]; unfold ownerActive in Hact.
  - rewrite Hact. simpl. lia.
  - apply not_true_is_false in Hact. rewrite Hact. lia.
Qed.

Lemma drawnEntries_cons_draw entry (slot : Z) (v : list VertexBufferSource)
    (n : Z) cmds :
  drawnEntries (DrawIndexedInstanced entry slot v n :: cmds)
  = (entry, slot) :: drawnEntries cmds.
Proof. reflexivity. Qed.

Lemma drawSurfaces_Done frame (usedAttributes activeCount : Z) surfaces :
  ∀ (cur : Z) cmds,
    drawSurfaces frame usedAttributes activeCount surfaces cur = Done cmds →
    drawnEntries cmds
    = imap (λ i entry, (entry, cur + Z.of_nat i)) (filter (ownerActive frame) surfaces)
    ∧ filter isDraw cmds = cmds
    ∧ length cmds = length (filter (ownerActive frame) surfaces)
    ∧ Forall (λ c, isGroupCommand c = true) cmds
    ∧ allocatedSlots InstanceInformationCB cmds = 0
    ∧ allocatedSlots TextureIndicesCB cmds = 0.
Proof.
  induction surfaces as [|e rest IH]; intros cur cmds; simpl.
  - intros [= <-]. done.
  - rewrite filter_cons.
    destruct (decide (ownerActive frame e)) as [Hact|Hact]; unfold ownerActive in Hact.
    + rewrite Hact.
      destruct (decide (cur < activeCount)); [|discriminate].
      destruct (selectVertexBuffers frame usedAttributes e) as [v| |]; simpl;
        try discriminate.
      destruct (drawSurfaces frame usedAttributes activeCount rest (cur + 1))
        as [more| |] eqn:Hrest; simpl; try discriminate.
      intros [= <-].
      destruct (IH _ _ Hrest) as (Hd & Hf & Hl & Hg & Ha & Ht).
      split; [|split; [|split; [|split; [|split]]]].
      * rewrite drawnEntries_cons_draw, Hd. lazy beta iota.
        f_equal; [f_equal; lia |].
        apply imap_ext. intros i x _. simpl. f_equal. lia.
      * rewrite filter_cons_True by done. by rewrite Hf.
      * simpl. by rewrite Hl.
      * by constructor.
      * done.
      * done.
    + apply not_true_is_false in Hact. rewrite Hact. apply IH.
Qed.

Lemma drawSurfaces_completes frame (usedAttributes activeCount : Z) surfaces :
  ∀ (cur : Z),
    cur + Z.of_nat (length (filter (ownerActive frame) surfaces)) ≤ activeCount →
    (∀ entry, entry ∈ surfaces → ownerActive frame entry →
       ∃ v, selectVertexBuffers frame usedAttributes entry = Done v) →
    ∃ cmds, drawSurfaces frame usedAttributes activeCount surfaces cur = Done cmds.
Proof.
  induction surfaces as [|e rest IH]; intros cur Hroom Hsel; simpl; [eauto |].
  rewrite filter_cons in Hroom.
  destruct (decide (ownerActive frame e)) as [Hact|Hact].
  - simpl in Hroom. rewrite Hact.
    rewrite decide_True by lia.
    destruct (Hsel e) as [v ->]; [left | done |]. simpl.
    destruct (IH (cur + 1)) as [more ->]; [lia | |simpl; eauto].
    intros entry He. apply Hsel. by right.
  - unfold ownerActive in Hact. apply not_true_is_false in Hact. rewrite Hact.
    apply IH; [done |].
    intros entry He. apply Hsel. by right.
Qed.

Lemma allocatedSlots_app (kind : ConstantBufferKind) cmds (more : list Command) :
  allocatedSlots kind (cmds ++ more)
  = allocatedSlots kind cmds + allocatedSlots kind more.
Proof.
  induction cmds as [|c cmds IH]; simpl; [done |].
  unfold allocatedSlots in *. simpl. rewrite IH.
  destruct c; try done. destruct kind, kind0; lia.
Qed.

Lemma viewportCommands_group cmds :
  Forall (λ c, isGroupCommand c = true) cmds → viewportCommands cmds = [].
Proof.
  induction 1 as [|c cmds Hc _ IH]; [done |].
  unfold viewportCommands in *. destruct c; try discriminate; simpl; done.
Qed.

(** What the body of the group loop issues for one group. *)
Lemma renderGroup_Done frame g cmds :
  renderGroup frame g = Done cmds →
  let n := Z.of_nat (length (activeSurfaces frame g)) in
  Z.of_nat (length (drawCalls cmds)) = n
  ∧ allocatedSlots InstanceInformationCB cmds = n
  ∧ allocatedSlots TextureIndicesCB cmds = n
  ∧ drawnEntries cmds = imap (λ i entry, (entry, Z.of_nat i)) (activeSurfaces frame g)
  ∧ Forall (λ c, isGroupCommand c = true) cmds.
Proof.
  unfold renderGroup. rewrite countActive_filter.
  destruct (drawSurfaces _ _ _ _ 0) as [draws| |] eqn:Hdraws; simpl; try discriminate.
  intros [= <-].
  destruct (drawSurfaces_Done _ _ _ _ _ _ Hdraws) as (Hd & Hf & Hl & Hg & Ha & Ht).
  unfold activeSurfaces, drawCalls.
  split; [|split; [|split; [|split]]].
  - rewrite !filter_cons_False by (simpl; tauto). rewrite Hf. by rewrite Hl.
  - unfold allocatedSlots in *. simpl. rewrite Ha. lia.
  - unfold allocatedSlots in *. simpl. rewrite Ht. lia.
  - simpl. rewrite Hd. apply imap_ext. intros i x _. simpl. f_equal.
  - by repeat constructor.
Qed.

Lemma renderGroup_completes frame g :
  (∀ entry, entry ∈ activeSurfaces frame g →
     ∃ v, selectVertexBuffers frame (m_UsedAttributes g) entry = Done v) →
  ∃ cmds, renderGroup frame g = Done cmds.
Proof.
  intros Hsel. unfold renderGroup. rewrite countActive_filter.
  destruct (drawSurfaces_completes frame (m_UsedAttributes g)
              (0 + Z.of_nat (length (filter (ownerActive frame) (m_RenderSurfaces g))))
              (m_RenderSurfaces g) 0) as [draws ->]; [lia | |simpl; eauto].
  intros entry He Hact. apply Hsel. unfold activeSurfaces.
  by apply list_elem_of_filter.
Qed.

Lemma renderGroups_Done frame groups :
  ∀ cmds, renderGroups frame groups = Done cmds →
    ∃ perGroup,
      Forall2 (λ g cs, renderGroup frame g = Done cs) groups perGroup
      ∧ cmds = concat perGroup.
Proof.
  induction groups as [|g rest IH]; intros cmds; simpl.
  - intros [= <-]. exists []. split; [constructor | done].
  - destruct (renderGroup frame g) as [cs| |] eqn:Hg; simpl; try discriminate.
    destruct (renderGroups frame rest) as [more| |] eqn:Hrest; simpl; try discriminate.
    intros [= <-]. destruct (IH _ eq_refl) as (perGroup & Hall & ->).
    exists (cs :: perGroup). split; [by constructor | done].
Qed.

Lemma renderGroups_completes frame groups :
  (∀ g, g ∈ groups → ∃ cs, renderGroup frame g = Done cs) →
  ∃ cmds, renderGroups frame groups = Done cmds.
Proof.
  induction groups as [|g rest IH]; intros Hall; simpl; [eauto |].
  destruct (Hall g) as [cs ->]; [left |]. simpl.
  destruct IH as [more ->]; [|simpl; eauto].
  intros g' Hg'. apply Hall. by right.
Qed.

Lemma drawCalls_concat perGroup :
  drawCalls (concat perGroup) = concat (drawCalls <$> perGroup).
Proof.
  unfold drawCalls. induction perGroup as [|cs rest IH]; simpl; [done |].
  by rewrite filter_app, IH.
Qed.

Lemma Execute_Done frame m m' cmds :
  Execute frame m = Done (m', cmds) →
  ∃ ps perGroup,
    bindSceneTextures frame (m_pParameterSet m) = Done ps
    ∧ m' = set_ParameterSet (λ _, ps) m
    ∧ Forall2 (λ g cs, renderGroup frame g = Done cs) (m_PipelineRenderGroups m) perGroup
    ∧ cmds = beginFrame m
               (viewportSize (GetUpscalingState frame) (GetResolutionInfo frame)).1
               (viewportSize (GetUpscalingState frame) (GetResolutionInfo frame)).2
             ++ concat perGroup ++ endFrame m.
Proof.
  unfold Execute.
  destruct (bindSceneTextures frame (m_pParameterSet m)) as [ps| |]; simpl;
    try discriminate.
  destruct (renderGroups frame (m_PipelineRenderGroups m)) as [draws| |] eqn:Hdraws;
    simpl; try discriminate.
  intros [= <- <-]. apply renderGroups_Done in Hdraws as (perGroup & Hall & ->).
  by exists ps, perGroup.
Qed.

Lemma beginFrame_observed m (width height : Z) :
  drawCalls (beginFrame m width height) = []
  ∧ (∀ kind, allocatedSlots kind (beginFrame m width height) = 0)
  ∧ viewportCommands (beginFrame m width height) = [(0, 0, width, height)].
Proof.
  unfold beginFrame. destruct (m_GenerateMotionVectors m);
    (split; [done |]; split; [by intros [] | done]).
Qed.

(** C4: in a frame, for every pipeline group, the indexed draw calls
    issued are exactly the entries of the group whose owner reports
    active, one each and in list order; the instance-constant and the
    texture-index batch allocations of the group both have that many
    slots, slot [i] being given to the [i]-th active entry; an entry whose
    owner is inactive is not drawn and is given no slot.  The group pass
    completes whenever the vertex-buffer selection of its active entries
    does. *)
Theorem Execute_draws_active_surfaces frame m :
  (∀ g cs, renderGroup frame g = Done cs →
     let n := Z.of_nat (length (activeSurfaces frame g)) in
     Z.of_nat (length (drawCalls cs)) = n
     ∧ allocatedSlots InstanceInformationCB cs = n
     ∧ allocatedSlots TextureIndicesCB cs = n
     ∧ drawnEntries cs = imap (λ i entry, (entry, Z.of_nat i)) (activeSurfaces frame g)
     ∧ (∀ entry (slot : Z), (entry, slot) ∈ drawnEntries cs →
          ownerActive frame entry ∧ entry ∈ m_RenderSurfaces g))
  ∧ (∀ m' cmds, Execute frame m = Done (m', cmds) →
       ∃ perGroup,
         Forall2 (λ g cs, renderGroup frame g = Done cs)
           (m_PipelineRenderGroups m) perGroup
         ∧ drawCalls cmds = concat (drawCalls <$> perGroup)
         ∧ ∀ kind, allocatedSlots kind cmds = allocatedSlots kind (concat perGroup))
  ∧ ((∃ ps, bindSceneTextures frame (m_pParameterSet m) = Done ps) →
     (∀ g entry, g ∈ m_PipelineRenderGroups m → entry ∈ activeSurfaces frame g →
        ∃ v, selectVertexBuffers frame (m_UsedAttributes g) entry = Done v) →
     ∃ m' cmds, Execute frame m = Done (m', cmds)).
Proof.
  split; [|split].
  - intros g cs Hcs n.
    destruct (renderGroup_Done frame g cs Hcs) as (Hn & Hi & Ht & Hd & _).
    split; [done |]. split; [done |]. split; [done |]. split; [done |].
    intros entry slot Hin. rewrite Hd in Hin.
    apply elem_of_lookup_imap in Hin as (i & x & [= <- _] & Hx).
    apply list_elem_of_lookup_2 in Hx. unfold activeSurfaces in Hx.
    by apply list_elem_of_filter in Hx.
  - intros m' cmds Hexec.
    apply Execute_Done in Hexec as (ps & perGroup & _ & _ & Hall & ->).
    exists perGroup. split; [done |].
    destruct (beginFrame_observed m
                (viewportSize (GetUpscalingState frame) (GetResolutionInfo frame)).1
                (viewportSize (GetUpscalingState frame) (GetResolutionInfo frame)).2)
      as (Hd & Ha & _).
    split.
    + unfold drawCalls in *. rewrite !filter_app, Hd. simpl.
      rewrite app_nil_r. apply drawCalls_concat.
    + intros kind. rewrite !allocatedSlots_app, Ha.
      destruct kind; simpl; lia.
  - intros [ps Hps] Hsel. unfold Execute. rewrite Hps. simpl.
    destruct (renderGroups_completes frame (m_PipelineRenderGroups m)) as [draws ->];
      [|simpl; eauto].
    intros g Hg. apply renderGroup_completes. intros entry He. by apply (Hsel g).
Qed.

(** C9: the viewport and scissor rectangle of a frame is set once, at the
    origin, with the pre-upscale render resolution when the upscaler state
    is the one in which upscaling is active and not yet applied, and with
    the final presentation (upscaled) resolution when the state is None
    or PostUpscale. *)
Theorem viewport_follows_upscaler_state frame m :
  let resInfo := GetResolutionInfo frame in
  let size :=
    match GetUpscalingState frame with
    | PreUpscale => (RenderWidth resInfo, RenderHeight resInfo)
    | None_ | PostUpscale => (UpscaleWidth resInfo, UpscaleHeight resInfo)
    end in
  viewportSize (GetUpscalingState frame) resInfo = size
  ∧ ∀ m' cmds, Execute frame m = Done (m', cmds) →
      viewportCommands cmds = [(0, 0, size.1, size.2)].
Proof.
  intros resInfo size.
  assert (viewportSize (GetUpscalingState frame) resInfo = size) as Hsize.
  { subst size. unfold viewportSize.
    destruct (GetUpscalingState frame); [by rewrite decide_True by tauto | | by rewrite decide_True by tauto].
    rewrite decide_False; [done |]. intros [?|?]; discriminate. }
  split; [done |]. intros m' cmds Hexec.
  apply Execute_Done in Hexec as (ps & perGroup & _ & _ & Hall & ->).
  fold resInfo. rewrite Hsize.
  destruct (beginFrame_observed m size.1 size.2) as (_ & _ & Hv).
  unfold viewportCommands in *. rewrite !omap_app, Hv.
  assert (omap (λ c : Command, match c with
                               | SetViewportScissorRect x y w h => Some (x, y, w, h)
                               | _ => None
                               end) (concat perGroup) = []) as ->; [|done].
  apply (viewportCommands_group (concat perGroup)).
  apply Forall_concat. clear -Hall.
  induction Hall as [|g cs groups perGroup Hg _ IH]; constructor; [|done].
  by destruct (renderGroup_Done frame g cs Hg) as (_ & _ & _ & _ & Hgroup).
Qed.

(** ** Content synchronisation: load *)

Lemma sameCache_refl m : sameCache m m.
Proof. by repeat split. Qed.

Lemma sameCache_trans m m' m'' : sameCache m m' → sameCache m' m'' → sameCache m m''.
Proof.
  intros (H1 & H2 & H3 & H4) (H1' & H2' & H3' & H4').
  repeat split; congruence.
Qed.

Lemma AddTexture_sameCache m pMaterial (textureClass : TextureClass) (s : Z) :
  sameCache m (AddTexture m pMaterial textureClass s).2.
Proof.
  destruct (GetTextureInfo pMaterial textureClass) as [info|] eqn:Hinfo.
  - destruct (AddTexture_present m pMaterial textureClass s info Hinfo)
      as (_ & Hg & Hc & Hmv & Hvs & _). by repeat split.
  - unfold AddTexture. rewrite Hinfo. apply sameCache_refl.
Qed.

Lemma resolveTexture_sameCache pMaterial (textureClass : TextureClass)
    (store : Z * Z → TextureIndices → TextureIndices)
    (st : TextureIndices * Z * ForwardRenderModule) m :
  sameCache m st.2 →
  sameCache m (resolveTexture pMaterial textureClass store st).2.
Proof.
  destruct st as [[indices s] m0]. simpl. intros Hsame. unfold resolveTexture.
  pose proof (AddTexture_sameCache m0 pMaterial textureClass s) as Hadd.
  destruct (AddTexture m0 pMaterial textureClass s) as [[t s'] m1]. simpl in *.
  by eapply sameCache_trans.
Qed.

Lemma resolveTextures_sameCache (uninitialised : Z) pMaterial m :
  sameCache m (resolveTextures uninitialised pMaterial m).2.
Proof.
  unfold resolveTextures.
  do 3 apply resolveTexture_sameCache.
  destruct (HasPBRInfo pMaterial); [|apply sameCache_refl].
  destruct (HasPBRMetalRough pMaterial); [|destruct (HasPBRSpecGloss pMaterial)];
    repeat apply resolveTexture_sameCache; apply sameCache_refl.
Qed.

Lemma elem_of_alter {A : Type} (f : A → A) (k : nat) (l : list A) (x : A) :
  x ∈ alter f k l → x ∈ l ∨ ∃ y, l !! k = Some y ∧ x = f y.
Proof.
  intros Hx. apply list_elem_of_lookup in Hx as [i Hi].
  destruct (decide (k = i)) as [<-|Hne].
  - rewrite list_lookup_alter_eq in Hi.
    destruct (l !! k) as [y|] eqn:Hy; [|discriminate].
    injection Hi as <-. right. eauto.
  - rewrite list_lookup_alter_ne in Hi by done.
    left. by eapply list_elem_of_lookup_2.
Qed.

Lemma groupsConsistent_ext m m' :
  m_PipelineRenderGroups m' = m_PipelineRenderGroups m →
  m_GenerateMotionVectors m' = m_GenerateMotionVectors m →
  groupsConsistent m → groupsConsistent m'.
Proof.
  intros Hg Hmv [Hnodup Hhash]. unfold groupsConsistent. rewrite Hg.
  split; [done |]. intros g entry Hin He.
  rewrite (surfaceHash_ext m' m) by done. by apply Hhash.
Qed.

Lemma entriesFrom_ext (known : list Surface) m m' :
  m_PipelineRenderGroups m' = m_PipelineRenderGroups m →
  entriesFrom known m → entriesFrom known m'.
Proof. intros Hg Hk. unfold entriesFrom. by rewrite Hg. Qed.

(** Appending an entry to the group its surface hashes to. *)
Lemma loadSurface_consistent (uninitialised : Z) (owner : ptr) m pSurface
    (known : list Surface) :
  pSurface ∈ known →
  groupsConsistent m → entriesFrom known m →
  let m' := loadSurface uninitialised owner m pSurface in
  groupsConsistent m' ∧ entriesFrom known m'
  ∧ m_GenerateMotionVectors m' = m_GenerateMotionVectors m
  ∧ m_VariableShading m' = m_VariableShading m.
Proof.
  intros Hknown Hcons Hfrom m'. subst m'. unfold loadSurface.
  destruct (HasTranslucency pSurface); [done |].
  pose proof (resolveTextures_sameCache uninitialised (GetMaterial pSurface) m)
    as (Hg1 & _ & Hmv1 & Hvs1).
  destruct (resolveTextures uninitialised (GetMaterial pSurface) m)
    as [[indices s] m1]. simpl in Hg1, Hmv1, Hvs1.
  assert (groupsConsistent m1) as [Hnodup Hhash] by by eapply groupsConsistent_ext.
  assert (entriesFrom known m1) as Hfrom1 by by eapply entriesFrom_ext.
  clear Hcons Hfrom.
  pose proof (GetPipelinePermutationID_cases m1 pSurface)
    as (_ & _ & Hmv2 & Hvs2 & _ & Hcases).
  destruct (GetPipelinePermutationID m1 pSurface) as [group m2].
  simpl in Hmv2, Hvs2, Hcases.
  set (entry0 := {| pOwner := owner; pSurface := pSurface; Indices := indices |}).
  set (m3 := set_PipelineRenderGroups _ m2).
  assert (m_GenerateMotionVectors m3 = m_GenerateMotionVectors m1) as Hmv3 by done.
  assert (m_PipelineRenderGroups m3
          = alter (push_back_surface entry0) (Z.to_nat group) (m_PipelineRenderGroups m2))
    as Hg3 by done.
  assert (∀ g' entry,
            g' ∈ m_PipelineRenderGroups m3 → entry ∈ m_RenderSurfaces g' →
            (∃ g, g ∈ m_PipelineRenderGroups m1 ∧ m_PipelineHash g' = m_PipelineHash g
                  ∧ entry ∈ m_RenderSurfaces g)
            ∨ (entry = entry0 ∧ m_PipelineHash g' = surfaceHash m1 pSurface)) as Hentries.
  { intros g' entry. rewrite Hg3.
    destruct Hcases as [[Hfind ->]|(Hnone & -> & -> & _)].
    - apply findPipelineHash_Some in Hfind as (k & g & -> & Hk & Hh & _).
      rewrite Z.add_0_l, Nat2Z.id.
      intros Hg' He. apply elem_of_alter in Hg' as [Hg'|(g0 & Hg0 & ->)].
      { left. by exists g'. }
      assert (g0 = g) as -> by congruence.
      simpl in He. apply elem_of_app in He as [He|He].
      + left. exists g. split; [apply (list_elem_of_lookup_2 _ _ _ Hk) | done].
      + apply list_elem_of_singleton in He as ->. by right.
    - rewrite Nat2Z.id.
      replace (length (m_PipelineRenderGroups m1))
        with (length (m_PipelineRenderGroups m1) + 0)%nat by lia.
      rewrite alter_app_r. simpl.
      intros Hg' He. apply elem_of_app in Hg' as [Hg'|Hg'].
      { left. by exists g'. }
      apply list_elem_of_singleton in Hg' as ->. simpl in He.
      apply list_elem_of_singleton in He as ->. by right. }
  split; [|split; [|split; [congruence | simpl; congruence]]].
  - split.
    + rewrite Hg3.
      rewrite (list_fmap_alter _ _ id) by (apply Forall_forall; intros; reflexivity).
      rewrite list_alter_id by done.
      destruct Hcases as [[_ ->]|(Hnone & _ & -> & _)]; [done |].
      rewrite fmap_app. simpl. apply NoDup_app. split; [done |]. split.
      * intros h Hh Hin. apply list_elem_of_singleton in Hin as ->.
        apply list_elem_of_fmap in Hh as (g & Hgh & Hg).
        by apply (proj1 (findPipelineHash_None _ _ 0) Hnone g Hg).
      * apply NoDup_singleton.
    + intros g' entry Hg' He. rewrite (surfaceHash_ext m3 m1) by done.
      destruct (Hentries g' entry Hg' He) as [(g & Hg & -> & Hin)|[-> ->]].
      * by apply Hhash.
      * done.
  - intros g' entry Hg' He.
    destruct (Hentries g' entry Hg' He) as [(g & Hg & _ & Hin)|[-> _]].
    + by eapply Hfrom1.
    + done.
Qed.

Lemma loadComponent_consistent (uninitialised : Z) (known : list Surface)
    (c : Component) :
  ∀ m, (∀ pSurface, pSurface ∈ componentSurfaces c → pSurface ∈ known) →
    cacheInvariant known m →
    cacheInvariant known (loadComponent uninitialised m c).
Proof.
  destruct c as [owner pMesh|owner]; simpl; [|done].
  induction pMesh as [|pSurface rest IH]; intros m Hknown Hinv; simpl; [done |].
  apply IH; [intros s Hs; apply Hknown; by right |].
  destruct Hinv as [Hc Hf].
  destruct (loadSurface_consistent uninitialised owner m pSurface known)
    as (Hc' & Hf' & _); [apply Hknown; left | done | done |].
  by split.
Qed.

Lemma loadEntities_consistent (uninitialised : Z) (known : list Surface)
    (pContentBlock : ContentBlock) :
  ∀ m, (∀ pSurface, pSurface ∈ blockSurfaces pContentBlock → pSurface ∈ known) →
    cacheInvariant known m →
    cacheInvariant known (loadEntities uninitialised m pContentBlock).
Proof.
  unfold loadEntities, blockSurfaces.
  induction pContentBlock as [|components rest IH]; intros m Hknown Hinv; simpl; [done |].
  simpl in Hknown. rewrite fmap_app, concat_app in Hknown.
  apply IH; [intros s Hs; apply Hknown, elem_of_app; by right |].
  assert (∀ pSurface, pSurface ∈ concat (componentSurfaces <$> components) →
                      pSurface ∈ known) as Hhere.
  { intros s Hs. apply Hknown, elem_of_app. by left. }
  clear Hknown IH. revert m Hinv.
  induction components as [|c cs IHc]; intros m Hinv; simpl; [done |].
  simpl in Hhere. apply IHc; [intros s Hs; apply Hhere, elem_of_app; by right |].
  apply loadComponent_consistent; [|done].
  intros s Hs. apply Hhere, elem_of_app. by left.
Qed.

Lemma publishTable_Done m m' :
  publishTable m = Done m' →
  m_PipelineRenderGroups m' = m_PipelineRenderGroups m
  ∧ m_GenerateMotionVectors m' = m_GenerateMotionVectors m
  ∧ m_Textures m' = m_Textures m
  ∧ m_Samplers m' = m_Samplers m
  ∧ createdPipelines m' = createdPipelines m.
Proof.
  unfold publishTable, CauldronAssert.
  destruct (bool_decide _); simpl; [|discriminate].
  destruct (bool_decide _); simpl; [|discriminate].
  by intros [= <-].
Qed.

Lemma RemoveTexture_sameCache m (index : Z) m' :
  RemoveTexture m index = Done m' → sameCache m m'.
Proof.
  unfold RemoveTexture. destruct (decide (index >= 0)).
  - destruct (m_Textures m !! Z.to_nat index); [|discriminate].
    intros [= <-]. by repeat split.
  - intros [= <-]. apply sameCache_refl.
Qed.

Lemma releaseTextures_sameCache m (t : TextureIndices) m' :
  releaseTextures t m = Done m' → sameCache m m'.
Proof.
  unfold releaseTextures.
  destruct (RemoveTexture m _) as [m1| |] eqn:H1; simpl; try discriminate.
  destruct (RemoveTexture m1 _) as [m2| |] eqn:H2; simpl; try discriminate.
  destruct (RemoveTexture m2 _) as [m3| |] eqn:H3; simpl; try discriminate.
  destruct (RemoveTexture m3 _) as [m4| |] eqn:H4; simpl; try discriminate.
  intros H5.
  apply RemoveTexture_sameCache in H1, H2, H3, H4, H5.
  eauto using sameCache_trans.
Qed.

Lemma unloadFromGroups_Done (owner : ptr) pSurface groups :
  ∀ (start : nat) m m',
    unloadFromGroups owner pSurface groups start m = Done m' →
    m_GenerateMotionVectors m' = m_GenerateMotionVectors m
    ∧ (m_PipelineRenderGroups m' = m_PipelineRenderGroups m
       ∨ ∃ (idx k : nat),
           m_PipelineRenderGroups m'
           = alter (eraseSurface k) idx (m_PipelineRenderGroups m)).
Proof.
  induction groups as [|g rest IH]; intros start m m'; simpl.
  - intros [= <-]. split; [done | by left].
  - destruct (findRenderSurface owner pSurface (m_RenderSurfaces g)) as [k|];
      [|apply IH].
    destruct (m_RenderSurfaces g !! k) as [entry|]; [|discriminate].
    destruct (releaseTextures (Indices entry) m) as [m1| |] eqn:Hrel; simpl;
      try discriminate.
    intros [= <-]. apply releaseTextures_sameCache in Hrel as (Hg & _ & Hmv & _).
    simpl. split; [done |]. right. exists start, k. by rewrite Hg.
Qed.

Lemma unloadSurface_consistent (known : list Surface) (owner : ptr) m pSurface m' :
  unloadSurface owner m pSurface = Done m' →
  cacheInvariant known m → cacheInvariant known m'.
Proof.
  intros Hun [[Hnodup Hhash] Hfrom].
  apply unloadFromGroups_Done in Hun as [Hmv Hgroups].
  assert (m_PipelineHash <$> m_PipelineRenderGroups m'
          = m_PipelineHash <$> m_PipelineRenderGroups m) as Hhashes.
  { destruct Hgroups as [->|(idx & k & ->)]; [done |].
    rewrite (list_fmap_alter _ _ id) by (apply Forall_forall; intros; reflexivity).
    by rewrite list_alter_id. }
  assert (∀ g' entry, g' ∈ m_PipelineRenderGroups m' → entry ∈ m_RenderSurfaces g' →
            ∃ g, g ∈ m_PipelineRenderGroups m ∧ m_PipelineHash g' = m_PipelineHash g
                 ∧ entry ∈ m_RenderSurfaces g) as Hentries.
  { intros g' entry. destruct Hgroups as [->|(idx & k & ->)].
    - intros Hg' He. by exists g'.
    - intros Hg' He. apply elem_of_alter in Hg' as [Hg'|(g0 & Hg0 & ->)].
      + by exists g'.
      + exists g0. split; [apply (list_elem_of_lookup_2 _ _ _ Hg0) |].
        split; [done |]. simpl in He. by eapply list_elem_of_delete_inv. }
  split; [split |].
  - by rewrite Hhashes.
  - intros g' entry Hg' He. rewrite (surfaceHash_ext m' m) by done.
    destruct (Hentries g' entry Hg' He) as (g & Hg & -> & Hin). by apply Hhash.
  - intros g' entry Hg' He.
    destruct (Hentries g' entry Hg' He) as (g & Hg & _ & Hin). by eapply Hfrom.
Qed.

Lemma foldO_preserves {A B : Type} (P : A → Prop) (f : A → B → Outcome A) (l : list B) :
  (∀ x y x', P x → f x y = Done x' → P x') →
  ∀ x x', P x → foldO f x l = Done x' → P x'.
Proof.
  intros Hstep. induction l as [|y rest IH]; intros x x' Hx; simpl.
  - by intros [= <-].
  - destruct (f x y) as [x1| |] eqn:Hf; simpl; try discriminate.
    apply IH. by eapply Hstep.
Qed.

Lemma OnContentUnloaded_consistent (known : list Surface) m
    (pContentBlock : ContentBlock) m' :
  OnContentUnloaded m pContentBlock = Done m' →
  cacheInvariant known m → cacheInvariant known m'.
Proof.
  intros Hun Hinv. revert m m' Hinv Hun. unfold OnContentUnloaded.
  apply foldO_preserves. intros m components m' Hinv. revert m m' Hinv.
  apply foldO_preserves. intros m c m' Hinv.
  destruct c as [owner pMesh|owner]; simpl; [|by intros [= <-]].
  revert m m' Hinv. apply foldO_preserves.
  intros m pSurface m' Hinv Hun. by eapply unloadSurface_consistent.
Qed.

Lemma notifications_consistent (known : list Surface) (ns : list Notification) :
  ∀ m m', (∀ pSurface, pSurface ∈ notifiedSurfaces ns → pSurface ∈ known) →
    cacheInvariant known m →
    notifications m ns = Done m' →
    cacheInvariant known m'.
Proof.
  unfold notifications, notifiedSurfaces.
  induction ns as [|n rest IH]; intros m m' Hknown Hinv; simpl.
  - by intros [= <-].
  - simpl in Hknown.
    destruct (notify m n) as [m1| |] eqn:Hn; simpl; try discriminate.
    apply IH; [intros s Hs; apply Hknown, elem_of_app; by right |].
    destruct n as [uninitialised block|block]; simpl in Hn.
    + unfold OnNewContentLoaded in Hn.
      apply publishTable_Done in Hn as (Hg & Hmv & _).
      assert (cacheInvariant known (loadEntities uninitialised m block))
        as [Hc Hf].
      { apply loadEntities_consistent; [|done].
        intros s Hs. apply Hknown, elem_of_app. by left. }
      split; [by eapply groupsConsistent_ext | by eapply entriesFrom_ext].
    + by eapply OnContentUnloaded_consistent.
Qed.

Lemma emptyModule_consistent (known : list Surface) (vs mv : bool) :
  cacheInvariant known (emptyModule vs mv).
Proof.
  split; [split |].
  - simpl. constructor.
  - intros g entry Hg. by apply not_elem_of_nil in Hg.
  - intros g entry Hg. by apply not_elem_of_nil in Hg.
Qed.

(** C8: in every state reached from the initialised module by a sequence
    of load and unload notifications (about surfaces each of which lives
    at its own address), an entity+surface pair appears in the surface
    list of at most one pipeline render group: two entries with the same
    owner and the same surface are entries of the same group. *)
Theorem pair_in_at_most_one_group (vs mv : bool) (ns : list Notification) m :
  addressConsistent (notifiedSurfaces ns) →
  notifications (emptyModule vs mv) ns = Done m →
  ∀ (i j : nat) g g' entry entry',
    m_PipelineRenderGroups m !! i = Some g →
    m_PipelineRenderGroups m !! j = Some g' →
    entry ∈ m_RenderSurfaces g →
    entry' ∈ m_RenderSurfaces g' →
    pairOf entry = pairOf entry' →
    i = j.
Proof.
  intros Haddr Hreach i j g g' entry entry' Hi Hj He He' Hpair.
  destruct (notifications_consistent (notifiedSurfaces ns) ns _ m
              ltac:(done) (emptyModule_consistent _ vs mv) Hreach)
    as [[Hnodup Hhash] Hfrom].
  pose proof (list_elem_of_lookup_2 _ _ _ Hi) as Hg.
  pose proof (list_elem_of_lookup_2 _ _ _ Hj) as Hg'.
  assert (pSurface entry = pSurface entry') as Hsame.
  { apply Haddr; [apply (Hfrom g entry Hg He) | apply (Hfrom g' entry' Hg' He') |].
    unfold pairOf in Hpair. congruence. }
  apply (NoDup_lookup _ i j (m_PipelineHash g) Hnodup).
  - by rewrite list_lookup_fmap, Hi.
  - rewrite list_lookup_fmap, Hj. simpl. f_equal.
    rewrite <- (Hhash g entry Hg He), <- (Hhash g' entry' Hg' He'). by rewrite Hsame.
Qed.

(** ** Capacity assertions of the re-publish *)

Lemma publishTable_cases m :
  publishTable m
  = if bool_decide (Z.of_nat (length (m_Textures m)) ≤ MAX_TEXTURES_COUNT / 2)
    then if bool_decide (Z.of_nat (length (m_Samplers m)) ≤ MAX_SAMPLERS_COUNT)
         then Done (set_ParameterSet (publishSamplers (m_Samplers m) 0)
                      (set_ParameterSet (publishTextures (m_Textures m) 0) m))
         else Fatal "Too many samplers."
    else Fatal "Too many textures.".
Proof.
  unfold publishTable, CauldronAssert.
  destruct (bool_decide _); simpl; [|done].
  by destruct (bool_decide _).
Qed.

(** The re-publish of the table after a load batch fails the texture
    assertion iff the live texture count exceeds half of
    [MAX_TEXTURES_COUNT]; it fails the sampler assertion iff the texture
    count is within that capacity and the live sampler count exceeds
    [MAX_SAMPLERS_COUNT] itself, not half of it; it succeeds iff neither
    fails.  So a sampler count above half of the ceiling and up to the
    ceiling passes. *)
Lemma publishTable_capacity m :
  let textures := Z.of_nat (length (m_Textures m)) in
  let samplers := Z.of_nat (length (m_Samplers m)) in
  (publishTable m = Fatal "Too many textures." ↔ textures > MAX_TEXTURES_COUNT / 2)
  ∧ (publishTable m = Fatal "Too many samplers." ↔
       textures ≤ MAX_TEXTURES_COUNT / 2 ∧ samplers > MAX_SAMPLERS_COUNT)
  ∧ ((∃ m', publishTable m = Done m') ↔
       textures ≤ MAX_TEXTURES_COUNT / 2 ∧ samplers ≤ MAX_SAMPLERS_COUNT)
  ∧ (textures ≤ MAX_TEXTURES_COUNT / 2 →
     MAX_SAMPLERS_COUNT / 2 < samplers ≤ MAX_SAMPLERS_COUNT →
     ∃ m', publishTable m = Done m').
Proof.
  intros textures samplers. rewrite publishTable_cases.
  fold textures samplers.
  destruct (bool_decide_reflect (textures ≤ MAX_TEXTURES_COUNT / 2)) as [Ht|Ht];
    [destruct (bool_decide_reflect (samplers ≤ MAX_SAMPLERS_COUNT)) as [Hs|Hs] |].
  - split; [split; [discriminate | lia] |].
    split; [split; [discriminate | lia] |].
    split; [split; [done | eauto] | eauto].
  - split; [split; [discriminate | lia] |].
    split; [split; [lia | done] |].
    split; [split; [intros [m' Hm']; discriminate | lia] | lia].
  - split; [split; [lia | done] |].
    split; [split; [discriminate | lia] |].
    split; [split; [intros [m' Hm']; discriminate | lia] | lia].
Qed.

(** ** Scenario: one opaque metallic-roughness surface *)

Lemma attributesOf_7 : attributesOf 7 = [0; 1; 2].
Proof. reflexivity. Qed.

Lemma AddTexture_samplers m pMaterial (textureClass : TextureClass) (s : Z) :
  (length (m_Samplers (AddTexture m pMaterial textureClass s).2)
   ≤ S (length (m_Samplers m)))%nat.
Proof.
  unfold AddTexture. destruct (GetTextureInfo pMaterial textureClass); [|simpl; lia].
  destruct (decide (scanSamplers _ _ _ = _)); destruct (scanTextures _ _ _ _);
    try destruct (decide (_ < 0)); simpl; rewrite ?length_app; simpl; lia.
Qed.

Lemma AddTexture_absent m pMaterial (textureClass : TextureClass) (s : Z) :
  GetTextureInfo pMaterial textureClass = None →
  AddTexture m pMaterial textureClass s = (-1, s, m).
Proof. intros Hnone. unfold AddTexture. by rewrite Hnone. Qed.

(** Lines 421-447 in the scenario: the albedo texture gets slot 0, the
    normal texture slot 1, the three other classes the sentinel. *)
Lemma resolveTextures_albedo_normal (uninitialised : Z) pMaterial
    (albedo normal : TextureInfo) m :
  m_Textures m = [] → m_Samplers m = [] →
  HasPBRInfo pMaterial = true →
  HasPBRMetalRough pMaterial = true →
  GetTextureInfo pMaterial Albedo = Some albedo →
  GetTextureInfo pMaterial Normal = Some normal →
  GetTextureInfo pMaterial MetalRough = None →
  GetTextureInfo pMaterial Emissive = None →
  GetTextureInfo pMaterial Occlusion = None →
  tex_pTexture albedo ≠ tex_pTexture normal →
  ∃ indices (s : Z) m1,
    resolveTextures uninitialised pMaterial m = (indices, s, m1)
    ∧ AlbedoTextureIndex indices = 0
    ∧ NormalTextureIndex indices = 1
    ∧ MetalRoughSpecGlossTextureIndex indices = -1
    ∧ EmissiveTextureIndex indices = -1
    ∧ OcclusionTextureIndex indices = -1
    ∧ m_Textures m1
      = [{| pTexture := tex_pTexture albedo; count := 1 |};
         {| pTexture := tex_pTexture normal; count := 1 |}]
    ∧ (length (m_Samplers m1) ≤ 2)%nat
    ∧ sameCache m m1.
Proof.
  intros Htex Hsam Hpbr Hmr Halbedo Hnormal Hnomr Hnoem Hnooc Hdistinct.
  pose proof (resolveTextures_sameCache uninitialised pMaterial m) as Hsame.
  unfold resolveTextures in *. rewrite Hpbr, Hmr in *.
  unfold resolveTexture in *.
  pose proof (AddTexture_present m pMaterial Albedo uninitialised albedo Halbedo)
    as (_ & _ & _ & _ & _ & _ & Hcase1).
  pose proof (AddTexture_samplers m pMaterial Albedo uninitialised) as Hlen1.
  destruct (AddTexture m pMaterial Albedo uninitialised) as [[t1 s1] m1].
  simpl in Hcase1, Hlen1. rewrite Htex in Hcase1.
  destruct Hcase1 as [(k & b & Hk & _)|[_ [Ht1 Htex1]]]; [discriminate Hk |].
  simpl in Ht1, Htex1. subst t1.
  rewrite (AddTexture_absent m1 pMaterial MetalRough s1 Hnomr) in *.
  pose proof (AddTexture_present m1 pMaterial Normal s1 normal Hnormal)
    as (_ & _ & _ & _ & _ & _ & Hcase2).
  pose proof (AddTexture_samplers m1 pMaterial Normal s1) as Hlen2.
  destruct (AddTexture m1 pMaterial Normal s1) as [[t2 s2] m2].
  simpl in Hcase2, Hlen2. rewrite Htex1 in Hcase2.
  destruct Hcase2 as [(k & b & Hk & Hb & _)|[_ Hfree]].
  { destruct k as [|k]; [|discriminate Hk]. injection Hk as <-.
    simpl in Hb. congruence. }
  simpl in Hfree. destruct Hfree as [Ht2 Htex2]. subst t2.
  rewrite (AddTexture_absent m2 pMaterial Emissive s2 Hnoem) in *.
  rewrite (AddTexture_absent m2 pMaterial Occlusion s2 Hnooc) in *.
  eexists _, s2, m2. split; [reflexivity |]. simpl.
  repeat (split; [done |]). split; [|done].
  rewrite Hsam in Hlen1. simpl in Hlen1. lia.
Qed.

(** C7: loading, into the empty module, one mesh with a single opaque
    metallic-roughness surface that carries an albedo and a normal texture
    (two texture objects), with vertex attributes position, normal,
    tangent and texcoord0, produces exactly one pipeline group (and one
    pipeline object) whose used-attribute mask is {Position, Normal,
    Tangent}, the texture slots 0 (albedo) and 1 (normal), the other three
    indices being the sentinel, and one surface-render-info entry; a frame
    in which the owner is active and has no skin issues exactly one draw
    call, for that entry. *)
Theorem load_one_opaque_surface (vs mv : bool) (uninitialised : Z) (owner : ptr)
    pSurface0 (albedo normal : TextureInfo) :
  HasTranslucency pSurface0 = false →
  HasPBRInfo (GetMaterial pSurface0) = true →
  HasPBRMetalRough (GetMaterial pSurface0) = true →
  GetTextureInfo (GetMaterial pSurface0) Albedo = Some albedo →
  GetTextureInfo (GetMaterial pSurface0) Normal = Some normal →
  GetTextureInfo (GetMaterial pSurface0) MetalRough = None →
  GetTextureInfo (GetMaterial pSurface0) Emissive = None →
  GetTextureInfo (GetMaterial pSurface0) Occlusion = None →
  tex_pTexture albedo ≠ tex_pTexture normal →
  GetVertexAttributes pSurface0
  = Z.lor VertexAttributeFlag_Position
      (Z.lor VertexAttributeFlag_Normal
        (Z.lor VertexAttributeFlag_Tangent VertexAttributeFlag_Texcoord0)) →
  2 ≤ MAX_TEXTURES_COUNT / 2 →
  2 ≤ MAX_SAMPLERS_COUNT →
  ∃ m' g entry,
    OnNewContentLoaded uninitialised (emptyModule vs mv)
      [[MeshComponent owner [pSurface0]]] = Done m'
    ∧ m_PipelineRenderGroups m' = [g]
    ∧ length (createdPipelines m') = 1%nat
    ∧ m_UsedAttributes g
      = Z.lor VertexAttributeFlag_Position
          (Z.lor VertexAttributeFlag_Normal VertexAttributeFlag_Tangent)
    ∧ m_RenderSurfaces g = [entry]
    ∧ pOwner entry = owner
    ∧ pSurface entry = pSurface0
    ∧ AlbedoTextureIndex (Indices entry) = 0
    ∧ NormalTextureIndex (Indices entry) = 1
    ∧ MetalRoughSpecGlossTextureIndex (Indices entry) = -1
    ∧ EmissiveTextureIndex (Indices entry) = -1
    ∧ OcclusionTextureIndex (Indices entry) = -1
    ∧ m_Textures m'
      = [{| pTexture := tex_pTexture albedo; count := 1 |};
         {| pTexture := tex_pTexture normal; count := 1 |}]
    ∧ ∀ frame,
        IsActive frame owner = true →
        skinOf frame owner = None →
        (∃ ps, bindSceneTextures frame (m_pParameterSet m') = Done ps) →
        ∃ m'' cmds,
          Execute frame m' = Done (m'', cmds)
          ∧ drawCalls cmds
            = [DrawIndexedInstanced entry 0
                 (SurfaceVertexBuffer (surfaceAddress pSurface0) <$> [0; 1; 2])
                 (GetIndexCount pSurface0)].
Proof.
  intros Htrans Hpbr Hmr Halbedo Hnormal Hnomr Hnoem Hnooc Hdistinct Hattrs Htex Hsam.
  assert (surfaceUsedAttributes pSurface0 = 7) as Hused.
  { unfold surfaceUsedAttributes. rewrite Hattrs. reflexivity. }
  destruct (resolveTextures_albedo_normal uninitialised (GetMaterial pSurface0)
              albedo normal (emptyModule vs mv))
    as (indices & s & m1 & Hres & Ha & Hn & Hm & He & Ho & Htex1 & Hsam1 & Hsame);
    try done.
  destruct Hsame as (Hg1 & Hc1 & Hmv1 & Hvs1). simpl in Hg1, Hc1.
  pose proof (GetPipelinePermutationID_cases m1 pSurface0)
    as (Htex2 & Hsam2 & Hmv2 & Hvs2 & _ & Hcases).
  rewrite Hg1 in Hcases. simpl in Hcases.
  destruct Hcases as [[Hfind _]|(_ & Hidx & Hg2 & Hc2)]; [discriminate Hfind |].
  unfold OnNewContentLoaded, loadEntities. simpl.
  unfold loadSurface. rewrite Htrans, Hres.
  destruct (GetPipelinePermutationID m1 pSurface0) as [group m2].
  simpl in Htex2, Hsam2, Hmv2, Hvs2, Hidx, Hg2, Hc2. subst group.
  rewrite publishTable_cases. simpl. rewrite Htex2, Hsam2, Htex1. simpl.
  rewrite bool_decide_true by lia. rewrite bool_decide_true by lia.
  set (entry0 := {| pOwner := owner; pSurface := pSurface0; Indices := indices |}).
  set (g0 := {| m_Pipeline := buildPipelineDesc m1 pSurface0;
                m_PipelineHash := surfaceHash m1 pSurface0;
                m_UsedAttributes := surfaceUsedAttributes pSurface0;
                m_RenderSurfaces := [] |}) in *.
  eexists _, (push_back_surface entry0 g0), entry0.
  split; [reflexivity |]. simpl. rewrite Hg2, Hc2, Hc1, Htex2, Htex1. simpl.
  split; [reflexivity |]. split; [reflexivity |].
  split; [by rewrite Hused |].
  repeat (split; [done |]).
  intros frame Hactive Hskin [ps Hps].
  unfold Execute. simpl. rewrite Hps, Hg2. simpl.
  unfold renderGroup. simpl. rewrite Hactive. simpl.
  unfold selectVertexBuffers. simpl. rewrite Hskin, Hused. simpl.
  eexists _, _. split; [reflexivity |].
  unfold drawCalls, beginFrame. simpl.
  by destruct (m_GenerateMotionVectors m2).
Qed.

(** ** Further properties of the bindless table *)

Lemma scanSamplers_spec (desc : SamplerDesc) (samplers : list SamplerDesc) :
  ∀ i, ∃ k : nat,
    scanSamplers desc samplers i = i + Z.of_nat k
    ∧ ((k = length samplers ∧ desc ∉ samplers)
       ∨ (samplers !! k = Some desc
          ∧ ∀ (k' : nat) d, (k' < k)%nat → samplers !! k' = Some d → d ≠ desc)).
Proof.
  induction samplers as [|d rest IH]; intros i; simpl.
  - exists 0%nat. split; [lia |]. left. split; [done | apply not_elem_of_nil].
  - destruct (decide (d = desc)) as [->|Hne].
    + exists 0%nat. split; [lia |]. right. split; [done |]. intros k' d' Hlt. lia.
    + destruct (IH (i + 1)) as (k & -> & Hk). exists (S k). split; [lia |].
      destruct Hk as [[-> Hnot]|[Hk Hfirst]].
      * left. split; [done |]. intros Hin. apply elem_of_cons in Hin as [->|Hin]; done.
      * right. split; [done |]. intros [|k'] d' Hlt Hd'; simpl in Hd'.
        -- congruence.
        -- eapply Hfirst; [|done]. lia.
Qed.

(** The sampler list after one [AddTexture] call for a material that has a
    texture of the class (lines 666-678). *)
Lemma AddTexture_samplers_cases m pMaterial (textureClass : TextureClass) (s : Z)
    (ti : TextureInfo) :
  GetTextureInfo pMaterial textureClass = Some ti →
  m_Samplers (AddTexture m pMaterial textureClass s).2
  = if decide (scanSamplers (TexSamplerDesc ti) (m_Samplers m) 0
               = Z.of_nat (length (m_Samplers m)))
    then m_Samplers m ++ [TexSamplerDesc ti]
    else m_Samplers m.
Proof.
  intros Hti. unfold AddTexture. rewrite Hti.
  destruct (decide (scanSamplers _ _ _ = _)); destruct (scanTextures _ _ _ _);
    try destruct (decide (_ < 0)); reflexivity.
Qed.

Lemma AddTexture_samplers_prefix m pMaterial (textureClass : TextureClass) (s : Z) :
  m_Samplers m `prefix_of` m_Samplers (AddTexture m pMaterial textureClass s).2.
Proof.
  destruct (GetTextureInfo pMaterial textureClass) as [ti|] eqn:Hti.
  - rewrite (AddTexture_samplers_cases m pMaterial textureClass s ti Hti).
    destruct (decide _); [by apply prefix_app_r | done].
  - unfold AddTexture. by rewrite Hti.
Qed.

Lemma AddTexture_samplers_NoDup m pMaterial (textureClass : TextureClass) (s : Z) :
  NoDup (m_Samplers m) →
  NoDup (m_Samplers (AddTexture m pMaterial textureClass s).2).
Proof.
  intros Hnodup. destruct (GetTextureInfo pMaterial textureClass) as [ti|] eqn:Hti.
  - rewrite (AddTexture_samplers_cases m pMaterial textureClass s ti Hti).
    destruct (decide _) as [Hscan|Hscan]; [|done].
    destruct (scanSamplers_spec (TexSamplerDesc ti) (m_Samplers m) 0)
      as (k & Hk & [[-> Hnot]|[Hfound _]]).
    + apply NoDup_app. split; [done |]. split; [|apply NoDup_singleton].
      intros d Hd Hin. apply list_elem_of_singleton in Hin as ->. done.
    + apply lookup_lt_Some in Hfound. lia.
  - unfold AddTexture. by rewrite Hti.
Qed.

Lemma AddTexture_textures_length m pMaterial (textureClass : TextureClass) (s : Z) :
  (length (m_Textures m) ≤ length (m_Textures (AddTexture m pMaterial textureClass s).2)
   ≤ S (length (m_Textures m)))%nat.
Proof.
  destruct (GetTextureInfo pMaterial textureClass) as [ti|] eqn:Hti.
  - destruct (AddTexture_present m pMaterial textureClass s ti Hti)
      as (_ & _ & _ & _ & _ & _ & Hcases).
    destruct Hcases as [(k & b & _ & _ & _ & _ & ->)|[_ Hfree]].
    + rewrite length_insert. lia.
    + destruct (firstFreeSlot (m_Textures m)); destruct Hfree as [_ ->].
      * rewrite length_insert. lia.
      * rewrite length_app. simpl. lia.
  - unfold AddTexture. rewrite Hti. simpl. lia.
Qed.

(** The index [AddTexture] returns is the sentinel or a slot of the table
    it leaves. *)
Lemma AddTexture_validIndex m pMaterial (textureClass : TextureClass) (s : Z) :
  validIndex (m_Textures (AddTexture m pMaterial textureClass s).2)
    (AddTexture m pMaterial textureClass s).1.1.
Proof.
  destruct (GetTextureInfo pMaterial textureClass) as [ti|] eqn:Hti.
  - destruct (AddTexture_present m pMaterial textureClass s ti Hti)
      as (_ & _ & _ & _ & _ & _ & Hcases). right.
    destruct Hcases as [(k & b & Hk & _ & _ & -> & ->)|[_ Hfree]].
    + rewrite length_insert. apply lookup_lt_Some in Hk. lia.
    + destruct (firstFreeSlot (m_Textures m)) as [j|] eqn:Hj; destruct Hfree as [-> ->].
      * rewrite length_insert. apply firstFreeSlot_lt in Hj. lia.
      * rewrite length_app. simpl. lia.
  - unfold AddTexture. rewrite Hti. simpl. left. lia.
Qed.


(** ** Further properties of the content callbacks *)

Lemma loadEntities_preserves (P : ForwardRenderModule → Prop) (uninitialised : Z) :
  (∀ m (owner : ptr) pSurface, P m → P (loadSurface uninitialised owner m pSurface)) →
  ∀ (pContentBlock : ContentBlock) m, P m → P (loadEntities uninitialised m pContentBlock).
Proof.
  intros Hstep pContentBlock. unfold loadEntities.
  induction pContentBlock as [|components rest IH]; intros m Hm; simpl; [done |].
  apply IH. clear IH. revert m Hm.
  induction components as [|c cs IHc]; intros m Hm; simpl; [done |].
  apply IHc. destruct c as [owner pMesh|owner]; simpl; [|done].
  clear IHc. revert m Hm.
  induction pMesh as [|pSurface more IHs]; intros m Hm; simpl; [done |].
  apply IHs. by apply Hstep.
Qed.

Lemma resolveTextures_preserves (P : ForwardRenderModule → Prop) :
  (∀ m pMaterial (textureClass : TextureClass) (s : Z),
     P m → P (AddTexture m pMaterial textureClass s).2) →
  ∀ (uninitialised : Z) pMaterial m,
    P m → P (resolveTextures uninitialised pMaterial m).2.
Proof.
  intros Hadd uninitialised pMaterial m Hm.
  assert (∀ (textureClass : TextureClass) store
            (st : TextureIndices * Z * ForwardRenderModule),
            P st.2 → P (resolveTexture pMaterial textureClass store st).2) as Hstep.
  { intros textureClass store [[indices s] m0] Hst. unfold resolveTexture.
    pose proof (Hadd m0 pMaterial textureClass s Hst) as Hnext.
    by destruct (AddTexture m0 pMaterial textureClass s) as [[t s'] m1]. }
  unfold resolveTextures. do 3 apply Hstep.
  destruct (HasPBRInfo pMaterial); [|done].
  destruct (HasPBRMetalRough pMaterial); [|destruct (HasPBRSpecGloss pMaterial)];
    repeat apply Hstep; done.
Qed.

(** The two tables after the body of the load loop are the ones the five
    [AddTexture] calls leave. *)
Lemma loadSurface_tables (uninitialised : Z) (owner : ptr) m pSurface :
  HasTranslucency pSurface = false →
  m_Textures (loadSurface uninitialised owner m pSurface)
  = m_Textures (resolveTextures uninitialised (GetMaterial pSurface) m).2
  ∧ m_Samplers (loadSurface uninitialised owner m pSurface)
    = m_Samplers (resolveTextures uninitialised (GetMaterial pSurface) m).2.
Proof.
  intros Hopaque. unfold loadSurface. rewrite Hopaque.
  destruct (resolveTextures uninitialised (GetMaterial pSurface) m) as [[indices s] m1].
  pose proof (GetPipelinePermutationID_cases m1 pSurface) as (Ht & Hs & _).
  destruct (GetPipelinePermutationID m1 pSurface) as [group m2]. simpl in *.
  by split.
Qed.

Lemma loadSurface_tables_preserve (P : list BoundTexture → list SamplerDesc → Prop)
    (uninitialised : Z) (owner : ptr) m pSurface :
  (∀ m pMaterial (textureClass : TextureClass) (s : Z),
     P (m_Textures m) (m_Samplers m) →
     P (m_Textures (AddTexture m pMaterial textureClass s).2)
       (m_Samplers (AddTexture m pMaterial textureClass s).2)) →
  P (m_Textures m) (m_Samplers m) →
  P (m_Textures (loadSurface uninitialised owner m pSurface))
    (m_Samplers (loadSurface uninitialised owner m pSurface)).
Proof.
  intros Hadd Hm. destruct (HasTranslucency pSurface) eqn:Htrans.
  - unfold loadSurface. by rewrite Htrans.
  - destruct (loadSurface_tables uninitialised owner m pSurface Htrans) as [-> ->].
    by apply (resolveTextures_preserves (λ m, P (m_Textures m) (m_Samplers m))).
Qed.

Lemma RemoveTexture_tables m (index : Z) m' :
  RemoveTexture m index = Done m' →
  m_Samplers m' = m_Samplers m
  ∧ m_pParameterSet m' = m_pParameterSet m
  ∧ length (m_Textures m') = length (m_Textures m).
Proof.
  unfold RemoveTexture. destruct (decide (index >= 0)).
  - destruct (m_Textures m !! Z.to_nat index); [|discriminate].
    intros [= <-]. simpl. by rewrite length_insert.
  - by intros [= <-].
Qed.

Lemma releaseTextures_tables m (t : TextureIndices) m' :
  releaseTextures t m = Done m' →
  m_Samplers m' = m_Samplers m
  ∧ m_pParameterSet m' = m_pParameterSet m
  ∧ length (m_Textures m') = length (m_Textures m).
Proof.
  unfold releaseTextures.
  destruct (RemoveTexture m _) as [m1| |] eqn:H1; simpl; try discriminate.
  destruct (RemoveTexture m1 _) as [m2| |] eqn:H2; simpl; try discriminate.
  destruct (RemoveTexture m2 _) as [m3| |] eqn:H3; simpl; try discriminate.
  destruct (RemoveTexture m3 _) as [m4| |] eqn:H4; simpl; try discriminate.
  intros H5.
  apply RemoveTexture_tables in H1 as (? & ? & ?), H2 as (? & ? & ?),
    H3 as (? & ? & ?), H4 as (? & ? & ?), H5 as (? & ? & ?).
  repeat split; congruence.
Qed.

(** What one step of the unload scan leaves alone. *)
Lemma unloadSurface_keeps (owner : ptr) m pSurface m' :
  unloadSurface owner m pSurface = Done m' →
  m_Samplers m' = m_Samplers m
  ∧ m_pParameterSet m' = m_pParameterSet m
  ∧ createdPipelines m' = createdPipelines m
  ∧ length (m_Textures m') = length (m_Textures m)
  ∧ groupKey <$> m_PipelineRenderGroups m' = groupKey <$> m_PipelineRenderGroups m.
Proof.
  unfold unloadSurface. generalize 0%nat as start.
  generalize (m_PipelineRenderGroups m) at 1 as scanned.
  induction scanned as [|g rest IH]; intros start; simpl.
  - by intros [= <-].
  - destruct (findRenderSurface owner pSurface (m_RenderSurfaces g)) as [k|];
      [|apply IH].
    destruct (m_RenderSurfaces g !! k) as [found|]; [|discriminate].
    destruct (releaseTextures (Indices found) m) as [m1| |] eqn:Hrel; simpl;
      try discriminate.
    intros [= <-].
    pose proof (releaseTextures_sameCache _ _ _ Hrel) as (Hg & Hc & _).
    apply releaseTextures_tables in Hrel as (Hs & Hps & Hlen). simpl.
    repeat (split; [done |]). rewrite Hg.
    rewrite (list_fmap_alter _ _ id) by (apply Forall_forall; intros; reflexivity).
    by rewrite list_alter_id.
Qed.

(** X2: an unload notification that completes reclaims no sampler, removes
    no pipeline group (not even one it has emptied) and destroys no
    pipeline object; it leaves the published parameter set and the number
    of texture slots as they were.  Only reference counts, handles of
    released slots and surface lists change. *)
Theorem OnContentUnloaded_keeps_samplers_and_groups m (pContentBlock : ContentBlock) m' :
  OnContentUnloaded m pContentBlock = Done m' →
  m_Samplers m' = m_Samplers m
  ∧ m_pParameterSet m' = m_pParameterSet m
  ∧ createdPipelines m' = createdPipelines m
  ∧ length (m_Textures m') = length (m_Textures m)
  ∧ groupKey <$> m_PipelineRenderGroups m' = groupKey <$> m_PipelineRenderGroups m.
Proof.
  set (Q := λ m0 m1 : ForwardRenderModule (SamplerDesc := SamplerDesc),
         m_Samplers m1 = m_Samplers m0
         ∧ m_pParameterSet m1 = m_pParameterSet m0
         ∧ createdPipelines m1 = createdPipelines m0
         ∧ length (m_Textures m1) = length (m_Textures m0)
         ∧ groupKey <$> m_PipelineRenderGroups m1 = groupKey <$> m_PipelineRenderGroups m0).
  assert (∀ m0 m1 m2, Q m0 m1 → Q m1 m2 → Q m0 m2) as Htrans.
  { intros m0 m1 m2 (? & ? & ? & ? & ?) (? & ? & ? & ? & ?).
    unfold Q. repeat split; congruence. }
  intros Hun. change (Q m m'). revert Hun. unfold OnContentUnloaded.
  apply (foldO_preserves (Q m)); [|by unfold Q].
  intros m1 components m2 Hm1. apply (foldO_preserves (Q m)); [|done].
  intros m3 c m4 Hm3. destruct c as [owner pMesh|owner]; simpl; [|by intros [= <-]].
  apply (foldO_preserves (Q m)); [|done].
  intros m5 pSurface m6 Hm5 Hun. apply (Htrans _ m5); [done |].
  by apply (unloadSurface_keeps owner m5 pSurface m6).
Qed.

Section TableInvariant.
(** A property of the two tables that [AddTexture] and [RemoveTexture]
    keep is kept by the content callbacks. *)
Variable P : list BoundTexture → list SamplerDesc → Prop.
Hypothesis P_AddTexture :
  ∀ m pMaterial (textureClass : TextureClass) (s : Z),
    P (m_Textures m) (m_Samplers m) →
    P (m_Textures (AddTexture m pMaterial textureClass s).2)
      (m_Samplers (AddTexture m pMaterial textureClass s).2).
Hypothesis P_RemoveTexture :
  ∀ m (index : Z) m',
    RemoveTexture m index = Done m' →
    P (m_Textures m) (m_Samplers m) → P (m_Textures m') (m_Samplers m').

Lemma releaseTextures_tables_preserve m (t : TextureIndices) m' :
  releaseTextures t m = Done m' →
  P (m_Textures m) (m_Samplers m) → P (m_Textures m') (m_Samplers m').
Proof.
  unfold releaseTextures.
  destruct (RemoveTexture m _) as [m1| |] eqn:H1; simpl; try discriminate.
  destruct (RemoveTexture m1 _) as [m2| |] eqn:H2; simpl; try discriminate.
  destruct (RemoveTexture m2 _) as [m3| |] eqn:H3; simpl; try discriminate.
  destruct (RemoveTexture m3 _) as [m4| |] eqn:H4; simpl; try discriminate.
  intros H5 Hm.
  apply (P_RemoveTexture _ _ _ H5), (P_RemoveTexture _ _ _ H4),
    (P_RemoveTexture _ _ _ H3), (P_RemoveTexture _ _ _ H2),
    (P_RemoveTexture _ _ _ H1), Hm.
Qed.

Lemma unloadSurface_tables_preserve (owner : ptr) m pSurface m' :
  unloadSurface owner m pSurface = Done m' →
  P (m_Textures m) (m_Samplers m) → P (m_Textures m') (m_Samplers m').
Proof.
  unfold unloadSurface. generalize 0%nat as start.
  generalize (m_PipelineRenderGroups m) at 1 as scanned.
  induction scanned as [|g rest IH]; intros start; simpl.
  - by intros [= <-].
  - destruct (findRenderSurface owner pSurface (m_RenderSurfaces g)) as [k|];
      [|apply IH].
    destruct (m_RenderSurfaces g !! k) as [found|]; [|discriminate].
    destruct (releaseTextures (Indices found) m) as [m1| |] eqn:Hrel; simpl;
      try discriminate.
    intros [= <-] Hm. simpl. by eapply releaseTextures_tables_preserve.
Qed.

Lemma notifications_tables_preserve (ns : list Notification) :
  ∀ m m', P (m_Textures m) (m_Samplers m) →
    notifications m ns = Done m' →
    P (m_Textures m') (m_Samplers m').
Proof.
  unfold notifications.
  apply (foldO_preserves (λ m, P (m_Textures m) (m_Samplers m))).
  intros m n m' Hm. destruct n as [uninitialised block|block]; simpl.
  - unfold OnNewContentLoaded. intros Hpub.
    apply publishTable_Done in Hpub as (_ & _ & -> & -> & _).
    apply (loadEntities_preserves (λ m, P (m_Textures m) (m_Samplers m))); [|done].
    intros m0 owner pSurface Hm0. by apply loadSurface_tables_preserve.
  - unfold OnContentUnloaded. revert m m' Hm.
    apply (foldO_preserves (λ m, P (m_Textures m) (m_Samplers m))).
    intros m1 components m2 Hm1. revert m1 m2 Hm1.
    apply (foldO_preserves (λ m, P (m_Textures m) (m_Samplers m))).
    intros m3 c m4 Hm3. destruct c as [owner pMesh|owner]; simpl; [|by intros [= <-]].
    revert m3 m4 Hm3.
    apply (foldO_preserves (λ m, P (m_Textures m) (m_Samplers m))).
    intros m5 pSurface m6 Hm5 Hun. by eapply unloadSurface_tables_preserve.
Qed.

End TableInvariant.

(** X3: in every state the content notifications reach from the
    initialised module, the sampler list holds no descriptor twice, a
    texture object is bound in at most one slot of the texture table, and
    every reference count is a [uint32_t] value. *)
Theorem notifications_tables_deduplicated (vs mv : bool) (ns : list Notification) m :
  notifications (emptyModule vs mv) ns = Done m →
  NoDup (m_Samplers m)
  ∧ uniqueHandles (m_Textures m)
  ∧ countsInRange (m_Textures m).
Proof.
  intros Hreach.
  apply (notifications_tables_preserve
           (λ textures samplers,
              NoDup samplers ∧ uniqueHandles textures ∧ countsInRange textures)
           ) with (ns := ns) (m := emptyModule vs mv); [| | |done].
  - intros m0 pMaterial textureClass s (Hs & Hu & Hr).
    split; [by apply AddTexture_samplers_NoDup |].
    by apply AddTexture_invariant.
  - intros m0 index m1 Hrem (Hs & Hu & Hr).
    destruct (RemoveTexture_tables m0 index m1 Hrem) as (-> & _).
    split; [done |]. by eapply RemoveTexture_invariant.
  - split; [constructor |]. apply emptyModule_invariant.
Qed.

Lemma validIndex_mono textures (textures' : list BoundTexture) (index : Z) :
  (length textures ≤ length textures')%nat →
  validIndex textures index → validIndex textures' index.
Proof. unfold validIndex. lia. Qed.

Lemma validIndices_mono textures (textures' : list BoundTexture) (t : TextureIndices) :
  (length textures ≤ length textures')%nat →
  validIndices textures t → validIndices textures' t.
Proof.
  intros Hlen (Ha & Hm & Hn & He & Ho).
  repeat split; by eapply validIndex_mono.
Qed.

Lemma resolveTexture_valid pMaterial (textureClass : TextureClass)
    (store : Z * Z → TextureIndices → TextureIndices)
    (st : TextureIndices * Z * ForwardRenderModule) (n : nat) :
  (∀ (r : Z * Z) (t : TextureIndices) textures,
     validIndex textures r.1 → validIndices textures t →
     validIndices textures (store r t)) →
  validIndices (m_Textures st.2) st.1.1 →
  (n ≤ length (m_Textures st.2))%nat →
  let st' := resolveTexture pMaterial textureClass store st in
  validIndices (m_Textures st'.2) st'.1.1
  ∧ (n ≤ length (m_Textures st'.2))%nat.
Proof.
  destruct st as [[indices s] m0]. simpl. intros Hstore Hvalid Hn. unfold resolveTexture.
  pose proof (AddTexture_validIndex m0 pMaterial textureClass s) as Hidx.
  pose proof (AddTexture_textures_length m0 pMaterial textureClass s) as Hlen.
  destruct (AddTexture m0 pMaterial textureClass s) as [[t s'] m1]. simpl in *.
  split; [|lia]. apply Hstore; [done |].
  eapply validIndices_mono; [|done]. lia.
Qed.

Lemma resolveTextures_valid (uninitialised : Z) pMaterial m :
  validIndices (m_Textures (resolveTextures uninitialised pMaterial m).2)
    (resolveTextures uninitialised pMaterial m).1.1
  ∧ (length (m_Textures m)
     ≤ length (m_Textures (resolveTextures uninitialised pMaterial m).2))%nat.
Proof.
  assert (∀ (r : Z * Z) (t : TextureIndices) textures,
            validIndex textures r.1 → validIndices textures t →
            validIndices textures (setAlbedo r t)) as Hsa.
  { intros r t textures Hr (Ha & Hm & Hn & He & Ho). by repeat split. }
  assert (∀ (r : Z * Z) (t : TextureIndices) textures,
            validIndex textures r.1 → validIndices textures t →
            validIndices textures (setMetalRoughSpecGloss r t)) as Hsm.
  { intros r t textures Hr (Ha & Hm & Hn & He & Ho). by repeat split. }
  assert (∀ (r : Z * Z) (t : TextureIndices) textures,
            validIndex textures r.1 → validIndices textures t →
            validIndices textures (setNormal r t)) as Hsn.
  { intros r t textures Hr (Ha & Hm & Hn & He & Ho). by repeat split. }
  assert (∀ (r : Z * Z) (t : TextureIndices) textures,
            validIndex textures r.1 → validIndices textures t →
            validIndices textures (setEmissive r t)) as Hse.
  { intros r t textures Hr (Ha & Hm & Hn & He & Ho). by repeat split. }
  assert (∀ (r : Z * Z) (t : TextureIndices) textures,
            validIndex textures r.1 → validIndices textures t →
            validIndices textures (setOcclusion r t)) as Hso.
  { intros r t textures Hr (Ha & Hm & Hn & He & Ho). by repeat split. }
  assert (validIndices (m_Textures m) TextureIndices_default) as H0.
  { repeat split; left; simpl; lia. }
  unfold resolveTextures.
  set (st1 := if HasPBRInfo pMaterial then _ else _).
  assert (validIndices (m_Textures st1.2) st1.1.1
          ∧ (length (m_Textures m) ≤ length (m_Textures st1.2))%nat) as [Hv1 Hl1].
  { subst st1. destruct (HasPBRInfo pMaterial); [|by split].
    destruct (resolveTexture_valid pMaterial Albedo setAlbedo
                (TextureIndices_default, uninitialised, m) (length (m_Textures m)))
      as [Hva Hla]; [done | done | done |].
    destruct (HasPBRMetalRough pMaterial); [|destruct (HasPBRSpecGloss pMaterial)].
    - by apply resolveTexture_valid.
    - by apply resolveTexture_valid.
    - by split. }
  destruct (resolveTexture_valid pMaterial Normal setNormal st1 (length (m_Textures m)))
    as [Hv2 Hl2]; [done..|].
  destruct (resolveTexture_valid pMaterial Emissive setEmissive
              (resolveTexture pMaterial Normal setNormal st1) (length (m_Textures m)))
    as [Hv3 Hl3]; [done..|].
  by apply resolveTexture_valid.
Qed.

Lemma loadSurface_valid (uninitialised : Z) (owner : ptr) m pSurface :
  entriesValid m →
  entriesValid (loadSurface uninitialised owner m pSurface).
Proof.
  intros Hvalid. unfold loadSurface.
  destruct (HasTranslucency pSurface); [done |].
  pose proof (resolveTextures_valid uninitialised (GetMaterial pSurface) m)
    as [Hnew Hlen].
  pose proof (resolveTextures_sameCache uninitialised (GetMaterial pSurface) m)
    as (Hg1 & _).
  destruct (resolveTextures uninitialised (GetMaterial pSurface) m)
    as [[indices s] m1]. simpl in Hnew, Hlen, Hg1.
  pose proof (GetPipelinePermutationID_cases m1 pSurface)
    as (Htex2 & _ & _ & _ & _ & Hcases).
  destruct (GetPipelinePermutationID m1 pSurface) as [group m2].
  simpl in Htex2, Hcases.
  intros g' found. simpl. rewrite Htex2. intros Hg' Hfound.
  assert (∀ g info, g ∈ m_PipelineRenderGroups m2 → info ∈ m_RenderSurfaces g →
                    validIndices (m_Textures m1) (Indices info)) as Hold.
  { intros g info Hg Hinfo.
    assert (g ∈ m_PipelineRenderGroups m1 ∨ m_RenderSurfaces g = []) as [Hin|Hnil].
    { destruct Hcases as [[_ ->]|(_ & _ & Hg2 & _)]; [by left |].
      rewrite Hg2 in Hg. apply elem_of_app in Hg as [Hg|Hg]; [by left |].
      apply list_elem_of_singleton in Hg as ->. by right. }
    - eapply validIndices_mono; [exact Hlen |]. apply (Hvalid g info); [|done].
      by rewrite <- Hg1.
    - rewrite Hnil in Hinfo. by apply not_elem_of_nil in Hinfo. }
  apply elem_of_alter in Hg' as [Hg'|(g0 & Hg0 & ->)]; [by eapply Hold |].
  simpl in Hfound. apply elem_of_app in Hfound as [Hfound|Hfound].
  - apply (Hold g0); [apply (list_elem_of_lookup_2 _ _ _ Hg0) | done].
  - by apply list_elem_of_singleton in Hfound as ->.
Qed.

(** With valid entries the unload scan never subscripts out of range. *)
Lemma unloadSurface_valid (owner : ptr) m pSurface :
  entriesValid m →
  ∃ m', unloadSurface owner m pSurface = Done m' ∧ entriesValid m'.
Proof.
  intros Hvalid. unfold unloadSurface.
  assert (∀ g, g ∈ m_PipelineRenderGroups m → g ∈ m_PipelineRenderGroups m) as Hsub by done.
  revert Hsub. generalize 0%nat as start.
  generalize (m_PipelineRenderGroups m) at 1 3 as scanned.
  induction scanned as [|g rest IH]; intros start Hsub; simpl; [by exists m |].
  destruct (findRenderSurface owner pSurface (m_RenderSurfaces g)) as [k|] eqn:Hfind.
  - apply findRenderSurface_Some in Hfind as (found & Hk & _). rewrite Hk.
    assert (validIndices (m_Textures m) (Indices found)) as Hfound.
    { apply (Hvalid g); [apply Hsub; left | apply (list_elem_of_lookup_2 _ _ _ Hk)]. }
    rewrite (releaseTextures_valid m (Indices found) Hfound). simpl.
    eexists. split; [reflexivity |].
    intros g' info. simpl. intros Hg' Hinfo.
    assert (validIndices (m_Textures m) (Indices info)) as Hinfo'.
    { apply elem_of_alter in Hg' as [Hg'|(g0 & Hg0 & ->)]; [by eapply Hvalid |].
      apply (Hvalid g0); [apply (list_elem_of_lookup_2 _ _ _ Hg0) |].
      simpl in Hinfo. by eapply list_elem_of_delete_inv. }
    eapply validIndices_mono; [|exact Hinfo'].
    unfold releaseSlots. by rewrite !length_releaseSlot.
  - apply IH. intros g' Hg'. apply Hsub. by right.
Qed.

Lemma foldO_safe {A B : Type} (P : A → Prop) (f : A → B → Outcome A) (l : list B) :
  (∀ x y, P x → ∃ x', f x y = Done x' ∧ P x') →
  ∀ x, P x → ∃ x', foldO f x l = Done x' ∧ P x'.
Proof.
  intros Hstep. induction l as [|y rest IH]; intros x Hx; simpl; [by exists x |].
  destruct (Hstep x y Hx) as (x1 & -> & Hx1). simpl. by apply IH.
Qed.

Lemma OnContentUnloaded_valid m (pContentBlock : ContentBlock) :
  entriesValid m →
  ∃ m', OnContentUnloaded m pContentBlock = Done m' ∧ entriesValid m'.
Proof.
  unfold OnContentUnloaded. revert m. apply foldO_safe.
  intros m components. revert m. apply foldO_safe.
  intros m c Hm. destruct c as [owner pMesh|owner]; simpl; [|by exists m].
  revert m Hm. apply foldO_safe.
  intros m pSurface Hm. by apply unloadSurface_valid.
Qed.

Lemma notifications_valid (ns : list Notification) :
  ∀ m, entriesValid m →
    notifications m ns ≠ OutOfRange
    ∧ ∀ m', notifications m ns = Done m' → entriesValid m'.
Proof.
  unfold notifications.
  induction ns as [|n rest IH]; intros m Hm; simpl.
  - split; [discriminate | by intros m' [= <-]].
  - assert ((∃ m1, notify m n = Done m1 ∧ entriesValid m1)
            ∨ ∃ msg, notify m n = Fatal msg) as [(m1 & -> & Hm1)|[msg ->]].
    { destruct n as [uninitialised block|block]; simpl.
      - unfold OnNewContentLoaded. rewrite publishTable_cases.
        destruct (bool_decide _); [|right; eauto].
        destruct (bool_decide _); [|right; eauto].
        left. eexists. split; [reflexivity |].
        assert (entriesValid (loadEntities uninitialised m block)) as Hloaded.
        { apply (loadEntities_preserves entriesValid); [|done].
          intros m0 owner pSurface Hm0. by apply loadSurface_valid. }
        exact Hloaded.
      - left. by apply OnContentUnloaded_valid. }
    + simpl. by apply IH.
    + simpl. split; [discriminate | discriminate].
Qed.

(** X4: no sequence of load and unload notifications, started from the
    initialised module, ever subscripts the texture table out of range:
    the sequence either completes or stops at a capacity assertion of a
    load.  In every state it reaches, each texture index held by a
    surface-render-info entry is the sentinel or a slot of the table, and
    an unload notification always completes. *)
Theorem notifications_never_out_of_range (vs mv : bool) (ns : list Notification) :
  notifications (emptyModule vs mv) ns ≠ OutOfRange
  ∧ ∀ m, notifications (emptyModule vs mv) ns = Done m →
      entriesValid m
      ∧ ∀ pContentBlock, ∃ m', OnContentUnloaded m pContentBlock = Done m'.
Proof.
  assert (entriesValid (emptyModule (SamplerDesc := SamplerDesc) vs mv)) as Hempty.
  { intros g info Hg. by apply not_elem_of_nil in Hg. }
  destruct (notifications_valid ns _ Hempty) as [Hsafe Hvalid].
  split; [done |]. intros m Hm. split; [by apply Hvalid |].
  intros block. destruct (OnContentUnloaded_valid m block) as (m' & Hm' & _); eauto.
Qed.

(** The groups after the body of the load loop: the entry is appended to
    the list of one group, which is the first group carrying the hash of
    the surface or a new last group. *)
Lemma loadSurface_groups (uninitialised : Z) (owner : ptr) m pSurface0 :
  HasTranslucency pSurface0 = false →
  ∃ entry pre g post,
    pOwner entry = owner
    ∧ pSurface entry = pSurface0
    ∧ m_PipelineRenderGroups (loadSurface uninitialised owner m pSurface0)
      = pre ++ push_back_surface entry g :: post
    ∧ m_PipelineHash g = surfaceHash m pSurface0
    ∧ (m_PipelineRenderGroups m = pre ++ g :: post
       ∨ (m_PipelineRenderGroups m = pre ∧ post = [] ∧ m_RenderSurfaces g = [])).
Proof.
  intros Hopaque. unfold loadSurface. rewrite Hopaque.
  pose proof (resolveTextures_sameCache uninitialised (GetMaterial pSurface0) m)
    as (Hg1 & _ & Hmv1 & _).
  destruct (resolveTextures uninitialised (GetMaterial pSurface0) m)
    as [[indices s] m1]. simpl in Hg1, Hmv1.
  pose proof (GetPipelinePermutationID_cases m1 pSurface0)
    as (_ & _ & _ & _ & _ & Hcases).
  destruct (GetPipelinePermutationID m1 pSurface0) as [group m2]. simpl in Hcases.
  rewrite (surfaceHash_ext m1 m) in Hcases by done. rewrite Hg1 in Hcases.
  eexists {| pOwner := owner; pSurface := pSurface0; Indices := indices |}.
  simpl.
  destruct Hcases as [[Hfind ->]|(Hnone & -> & -> & _)].
  - apply findPipelineHash_Some in Hfind as (k & g & -> & Hk & Hh & _).
    exists (take k (m_PipelineRenderGroups m)), g, (drop (S k) (m_PipelineRenderGroups m)).
    split; [done |]. split; [done |].
    pose proof (take_drop_middle _ _ _ Hk) as Hsplit.
    split; [|split; [done | by left]].
    rewrite Hg1, Z.add_0_l, Nat2Z.id. rewrite <- Hsplit at 1.
    rewrite alter_app_r_alt by (rewrite length_take; lia).
    rewrite length_take.
    apply lookup_lt_Some in Hk.
    replace (k - k `min` length (m_PipelineRenderGroups m))%nat with 0%nat by lia.
    done.
  - exists (m_PipelineRenderGroups m),
      {| m_Pipeline := buildPipelineDesc m1 pSurface0;
         m_PipelineHash := surfaceHash m pSurface0;
         m_UsedAttributes := surfaceUsedAttributes pSurface0;
         m_RenderSurfaces := [] |}, [].
    split; [done |]. split; [done |].
    split; [|split; [reflexivity | right; done]].
    rewrite Nat2Z.id.
    rewrite alter_app_r_alt by lia. by rewrite Nat.sub_diag.
Qed.

Lemma findRenderSurface_snoc (owner : ptr) pSurface surfaces entry :
  (∀ entry', entry' ∈ surfaces → ¬ sameSurface owner pSurface entry') →
  sameSurface owner pSurface entry →
  findRenderSurface owner pSurface (surfaces ++ [entry]) = Some (length surfaces).
Proof.
  intros Hnone Hsame. induction surfaces as [|e rest IH]; simpl.
  - by rewrite decide_True.
  - rewrite decide_False by (apply Hnone; left).
    rewrite IH; [done |]. intros e' He'. apply Hnone. by right.
Qed.

Lemma eraseSurface_push_back entry g :
  eraseSurface (length (m_RenderSurfaces g)) (push_back_surface entry g) = g.
Proof.
  destruct g as [pipeline hash mask surfaces]. unfold eraseSurface. simpl. f_equal.
  induction surfaces as [|e rest IH]; simpl; [done | by rewrite IH].
Qed.

(** X5: unloading an entity+surface pair right after the load loop
    registered it (the pair not being registered before) completes and
    gives every pipeline group the surface list it had before the load.
    The only trace the load leaves in the cache is a group it may have
    created, which stays, with an empty surface list.  A translucent
    surface is registered by neither callback. *)
Theorem load_then_unload_restores_surface_lists (uninitialised : Z) (owner : ptr)
    m pSurface :
  entriesValid m →
  (∀ g entry, g ∈ m_PipelineRenderGroups m → entry ∈ m_RenderSurfaces g →
     ¬ sameSurface owner pSurface entry) →
  ∃ m',
    unloadSurface owner (loadSurface uninitialised owner m pSurface) pSurface = Done m'
    ∧ (m_PipelineRenderGroups m' = m_PipelineRenderGroups m
       ∨ ∃ g, m_PipelineRenderGroups m' = m_PipelineRenderGroups m ++ [g]
              ∧ m_RenderSurfaces g = []
              ∧ m_PipelineHash g = surfaceHash m pSurface
              ∧ HasTranslucency pSurface = false)
    ∧ m_Samplers m' = m_Samplers (loadSurface uninitialised owner m pSurface)
    ∧ length (m_Textures m')
      = length (m_Textures (loadSurface uninitialised owner m pSurface)).
Proof.
  intros Hvalid Habsent.
  destruct (HasTranslucency pSurface) eqn:Htrans.
  { exists m. unfold loadSurface. rewrite Htrans.
    split; [|split; [by left | done]].
    apply unloadFromGroups_absent. intros g Hg.
    apply findRenderSurface_None. intros entry He. by apply (Habsent g). }
  pose proof (loadSurface_valid uninitialised owner m pSurface Hvalid) as Hvalid'.
  destruct (loadSurface_groups uninitialised owner m pSurface Htrans)
    as (entry & pre & g & post & Howner & Hsurface & Hgroups & Hhash & Hcases).
  set (m3 := loadSurface uninitialised owner m pSurface) in *.
  assert (sameSurface owner pSurface entry) as Hsame.
  { unfold sameSurface. by rewrite Howner, Hsurface. }
  assert (∀ entry', entry' ∈ m_RenderSurfaces g → ¬ sameSurface owner pSurface entry')
    as Hg.
  { destruct Hcases as [Hm|(_ & _ & Hnil)].
    - intros entry' He'. apply (Habsent g); [|done].
      rewrite Hm. apply elem_of_app. right. left.
    - rewrite Hnil. intros entry' He'. by apply not_elem_of_nil in He'. }
  assert (∀ g', g' ∈ pre →
            findRenderSurface owner pSurface (m_RenderSurfaces g') = None) as Hpre.
  { intros g' Hg'. apply findRenderSurface_None. intros entry' He'.
    apply (Habsent g'); [|done].
    destruct Hcases as [->|(-> & _)]; [apply elem_of_app; by left | done]. }
  assert (validIndices (m_Textures m3) (Indices entry)) as Hentry.
  { apply (Hvalid' (push_back_surface entry g)).
    - rewrite Hgroups. apply elem_of_app. right. left.
    - simpl. apply elem_of_app. right. left. }
  pose proof (releaseTextures_valid m3 (Indices entry) Hentry) as Hrel.
  exists (set_PipelineRenderGroups
            (alter (eraseSurface (length (m_RenderSurfaces g))) (0 + length pre)%nat)
            (set_Textures (releaseSlots (Indices entry)) m3)).
  split.
  { unfold unloadSurface. rewrite Hgroups.
    apply (unloadFromGroups_found owner pSurface pre (push_back_surface entry g) post
             (length (m_RenderSurfaces g)) entry 0%nat m3 _ Hpre); [| |exact Hrel].
    - simpl. by apply findRenderSurface_snoc.
    - simpl. by apply list_lookup_middle. }
  simpl. split.
  - rewrite Hgroups. rewrite alter_app_r_alt by (simpl; lia).
    rewrite Nat.sub_diag. simpl. rewrite eraseSurface_push_back.
    destruct Hcases as [->|(-> & -> & Hnil)]; [by left |].
    right. by exists g.
  - split; [done |]. unfold releaseSlots. by rewrite !length_releaseSlot.
Qed.

(** ** Further properties of the parameter set and of the frame *)

Lemma publishTextures_lookup textures :
  ∀ (i : Z) (ps : ParameterSet (SamplerDesc := SamplerDesc)),
    ps_Sampler (publishTextures textures i ps) = ps_Sampler ps
    ∧ (∀ (k : nat) b, textures !! k = Some b →
         ps_TextureSRV (publishTextures textures i ps) !! (i + Z.of_nat k)
         = Some (pTexture b))
    ∧ (∀ slot : Z, slot < i ∨ i + Z.of_nat (length textures) ≤ slot →
         ps_TextureSRV (publishTextures textures i ps) !! slot
         = ps_TextureSRV ps !! slot).
Proof.
  induction textures as [|b0 rest IH]; intros i ps; simpl.
  - split; [done |]. split; [intros k b Hk; discriminate Hk | done].
  - destruct (IH (i + 1) (SetTextureSRV (pTexture b0) i ps)) as (Hs & Hin & Hout).
    split; [done |]. split.
    + intros [|k] b Hk; simpl in Hk.
      * injection Hk as <-. rewrite Hout by lia. simpl.
        rewrite Z.add_0_r. apply lookup_insert_eq.
      * replace (i + Z.of_nat (S k)) with (i + 1 + Z.of_nat k) by lia. by apply Hin.
    + intros slot Hslot. rewrite Hout by lia. simpl.
      apply lookup_insert_ne. lia.
Qed.

Lemma publishSamplers_lookup (samplers : list SamplerDesc) :
  ∀ (i : Z) (ps : ParameterSet (SamplerDesc := SamplerDesc)),
    ps_TextureSRV (publishSamplers samplers i ps) = ps_TextureSRV ps
    ∧ (∀ (k : nat) d, samplers !! k = Some d →
         ps_Sampler (publishSamplers samplers i ps) !! (i + Z.of_nat k) = Some d)
    ∧ (∀ slot : Z, slot < i ∨ i + Z.of_nat (length samplers) ≤ slot →
         ps_Sampler (publishSamplers samplers i ps) !! slot = ps_Sampler ps !! slot).
Proof.
  induction samplers as [|d0 rest IH]; intros i ps; simpl.
  - split; [done |]. split; [intros k d Hk; discriminate Hk | done].
  - destruct (IH (i + 1) (SetSampler d0 i ps)) as (Hs & Hin & Hout).
    split; [done |]. split.
    + intros [|k] d Hk; simpl in Hk.
      * injection Hk as <-. rewrite Hout by lia. simpl.
        rewrite Z.add_0_r. apply lookup_insert_eq.
      * replace (i + Z.of_nat (S k)) with (i + 1 + Z.of_nat k) by lia. by apply Hin.
    + intros slot Hslot. rewrite Hout by lia. simpl.
      apply lookup_insert_ne. lia.
Qed.

(** X6: after a load notification that completes, the parameter set maps
    the index of every slot of the texture table to the handle that slot
    holds (the null handle of a released slot included) and the index of
    every sampler to that sampler; the two tables are the ones the load
    loop left, and slots beyond the tables keep the binding they had. *)
Theorem OnNewContentLoaded_publishes_every_slot (uninitialised : Z) m
    (pContentBlock : ContentBlock) m' :
  OnNewContentLoaded uninitialised m pContentBlock = Done m' →
  m_Textures m' = m_Textures (loadEntities uninitialised m pContentBlock)
  ∧ m_Samplers m' = m_Samplers (loadEntities uninitialised m pContentBlock)
  ∧ (∀ (i : nat) b, m_Textures m' !! i = Some b →
       ps_TextureSRV (m_pParameterSet m') !! Z.of_nat i = Some (pTexture b))
  ∧ (∀ (i : nat) d, m_Samplers m' !! i = Some d →
       ps_Sampler (m_pParameterSet m') !! Z.of_nat i = Some d)
  ∧ (∀ slot : Z, slot < 0 ∨ Z.of_nat (length (m_Textures m')) ≤ slot →
       ps_TextureSRV (m_pParameterSet m') !! slot
       = ps_TextureSRV (m_pParameterSet (loadEntities uninitialised m pContentBlock))
           !! slot)
  ∧ (∀ slot : Z, slot < 0 ∨ Z.of_nat (length (m_Samplers m')) ≤ slot →
       ps_Sampler (m_pParameterSet m') !! slot
       = ps_Sampler (m_pParameterSet (loadEntities uninitialised m pContentBlock))
           !! slot).
Proof.
  unfold OnNewContentLoaded. set (m1 := loadEntities uninitialised m pContentBlock).
  rewrite publishTable_cases.
  destruct (bool_decide _); [|discriminate].
  destruct (bool_decide _); [|discriminate].
  intros [= <-]. simpl.
  destruct (publishTextures_lookup (m_Textures m1) 0 (m_pParameterSet m1))
    as (Hts & Htin & Htout).
  destruct (publishSamplers_lookup (m_Samplers m1) 0
              (publishTextures (m_Textures m1) 0 (m_pParameterSet m1)))
    as (Hst & Hsin & Hsout).
  split; [done |]. split; [done |]. split; [|split; [|split]].
  - intros i b Hi. rewrite Hst. by apply (Htin i b).
  - intros i d Hi. by apply (Hsin i d).
  - intros slot Hslot. rewrite Hst. by apply Htout.
  - intros slot Hslot. rewrite Hsout by lia. by rewrite Hts.
Qed.




Lemma drawSurfaces_boundPipelines frame (usedAttributes activeCount : Z) surfaces :
  ∀ (cur : Z) cmds,
    drawSurfaces frame usedAttributes activeCount surfaces cur = Done cmds →
    boundPipelines cmds = [].
Proof.
  induction surfaces as [|e rest IH]; intros cur cmds; simpl.
  - by intros [= <-].
  - destruct (IsActive frame (pOwner e)); [|apply IH].
    destruct (decide (cur < activeCount)); [|discriminate].
    destruct (selectVertexBuffers frame usedAttributes e) as [v| |]; simpl;
      try discriminate.
    destruct (drawSurfaces frame usedAttributes activeCount rest (cur + 1))
      as [more| |] eqn:Hrest; simpl; try discriminate.
    intros [= <-]. unfold boundPipelines. simpl. by apply (IH (cur + 1)).
Qed.

Lemma renderGroups_boundPipelines frame groups :
  ∀ cmds, renderGroups frame groups = Done cmds →
    boundPipelines cmds = m_Pipeline <$> groups.
Proof.
  induction groups as [|g rest IH]; intros cmds; simpl.
  - by intros [= <-].
  - unfold renderGroup.
    destruct (drawSurfaces frame _ _ _ 0) as [draws| |] eqn:Hdraws; simpl;
      try discriminate.
    destruct (renderGroups frame rest) as [more| |] eqn:Hrest; simpl; try discriminate.
    intros [= <-]. pose proof (IH more eq_refl) as Hb.
    pose proof (drawSurfaces_boundPipelines _ _ _ _ _ _ Hdraws) as Hnone.
    unfold boundPipelines in *. simpl. rewrite omap_app, Hnone, Hb. done.
Qed.

(** X8: a frame that completes binds the pipeline of every pipeline group
    exactly once, in the order the groups were created, whether or not the
    group has an active surface.  It changes nothing of the module but the
    parameter set: the two tables, the groups and their surface lists are
    as before.  Its trace starts with the transition of the colour and
    depth targets (and of the motion-vector target when motion vectors are
    generated) to their write states and ends with the end of the raster
    pass followed by the transition of the colour and depth targets back;
    the motion-vector target is not transitioned back. *)
Theorem Execute_binds_every_group frame m m' cmds :
  Execute frame m = Done (m', cmds) →
  boundPipelines cmds = m_Pipeline <$> m_PipelineRenderGroups m
  ∧ m_Textures m' = m_Textures m
  ∧ m_Samplers m' = m_Samplers m
  ∧ m_PipelineRenderGroups m' = m_PipelineRenderGroups m
  ∧ createdPipelines m' = createdPipelines m
  ∧ (∃ rest,
       cmds = ResourceBarrier true
                ([ColorTarget; DepthTarget]
                 ++ (if m_GenerateMotionVectors m then [MotionVectorTarget] else []))
              :: rest)
  ∧ (∃ front,
       cmds = front ++ [EndRaster (m_VariableShading m);
                        ResourceBarrier false [ColorTarget; DepthTarget]]).
Proof.
  unfold Execute.
  destruct (bindSceneTextures frame (m_pParameterSet m)) as [ps| |]; simpl;
    try discriminate.
  destruct (renderGroups frame (m_PipelineRenderGroups m)) as [draws| |] eqn:Hdraws;
    simpl; try discriminate.
  intros [= <- <-].
  apply renderGroups_boundPipelines in Hdraws.
  split.
  { unfold boundPipelines in *. unfold endFrame.
    destruct (m_GenerateMotionVectors m); simpl;
      by rewrite omap_app, Hdraws, app_nil_r. }
  split; [done |]. split; [done |]. split; [done |]. split; [done |]. split.
  - unfold beginFrame. simpl. eauto.
  - unfold endFrame.
    destruct (m_GenerateMotionVectors m); simpl; rewrite !app_comm_cons;
      eexists; reflexivity.
Qed.

(** X9: the vertex buffers of one draw.  For an owner without an animation
    component, or with one whose skin id is -1, they are the surface's own
    buffers of the attributes of the group's mask, in ascending attribute
    order.  For a skinned owner the three overrides need at least two
    buffers: with fewer the subscripts 0 and 1 leave the vector; with two
    or more the number of buffers is unchanged, buffer 0 is the skinned
    positions, the last buffer is the skinned previous positions, buffer 1
    is the skinned normals unless it is the last one, and every buffer in
    between is the surface's own. *)
Theorem selectVertexBuffers_skinning frame (usedAttributes : Z) entry :
  let own := SurfaceVertexBuffer (surfaceAddress (pSurface entry))
               <$> attributesOf usedAttributes in
  (skinOf frame (pOwner entry) = None ∨ skinOf frame (pOwner entry) = Some (-1) →
     selectVertexBuffers frame usedAttributes entry = Done own)
  ∧ ∀ skinId : Z,
      skinOf frame (pOwner entry) = Some skinId → skinId ≠ -1 →
      ((length own < 2)%nat →
         selectVertexBuffers frame usedAttributes entry = OutOfRange)
      ∧ ((2 ≤ length own)%nat →
           ∃ v, selectVertexBuffers frame usedAttributes entry = Done v
                ∧ length v = length own
                ∧ v !! 0%nat
                  = Some (SkinnedPositions (pOwner entry) (GetSurfaceID (pSurface entry)))
                ∧ v !! (length own - 1)%nat
                  = Some (SkinnedPreviousPosition (pOwner entry)
                            (GetSurfaceID (pSurface entry)))
                ∧ ((3 ≤ length own)%nat →
                     v !! 1%nat
                     = Some (SkinnedNormals (pOwner entry)
                               (GetSurfaceID (pSurface entry))))
                ∧ ∀ k : nat, (2 ≤ k < length own - 1)%nat → v !! k = own !! k).
Proof.
  intros own. unfold selectVertexBuffers. fold own. split.
  - intros [->| ->]; [done |]. by rewrite decide_False by (intros Hne; by apply Hne).
  - intros skinId -> Hskin. rewrite decide_True by done. split.
    + intros Hshort. rewrite decide_False by lia. done.
    + intros Hlong. rewrite decide_True by done. eexists. split; [reflexivity |].
      rewrite !length_insert. split; [done |]. split.
      { rewrite list_lookup_insert_ne by lia.
        rewrite list_lookup_insert_ne by lia.
        apply list_lookup_insert_eq. lia. }
      split.
      { replace (Init.Nat.pred (length own)) with (length own - 1)%nat by lia.
        apply list_lookup_insert_eq. rewrite !length_insert. lia. }
      split.
      { intros H3. rewrite list_lookup_insert_ne by lia.
        apply list_lookup_insert_eq. rewrite length_insert. lia. }
      intros k Hk. rewrite !list_lookup_insert_ne by lia. done.
Qed.

(** ** What the cache keeps for good *)

Lemma buildPipelineDesc_ext m m' pSurface :
  m_GenerateMotionVectors m = m_GenerateMotionVectors m' →
  buildPipelineDesc m pSurface = buildPipelineDesc m' pSurface.
Proof.
  intros Hmv. unfold buildPipelineDesc.
  by rewrite (surfaceDefineList_ext m m'), Hmv.
Qed.

Lemma groupKeys_alter (f : PipelineRenderGroup → PipelineRenderGroup) (k : nat) groups :
  (∀ g, groupKey (f g) = groupKey g) →
  groupKey <$> alter f k groups = groupKey <$> groups.
Proof.
  intros Hf. rewrite (list_fmap_alter _ _ id) by (apply Forall_forall; intros; apply Hf).
  by rewrite list_alter_id.
Qed.

(** The keys after the body of the load loop: as before, or with the key
    of one new last group, whose pipeline object is the one just created. *)
Lemma loadSurface_keys (uninitialised : Z) (owner : ptr) m pSurface :
  m_GenerateMotionVectors (loadSurface uninitialised owner m pSurface)
  = m_GenerateMotionVectors m
  ∧ m_VariableShading (loadSurface uninitialised owner m pSurface) = m_VariableShading m
  ∧ ((groupKeys (loadSurface uninitialised owner m pSurface) = groupKeys m
      ∧ createdPipelines (loadSurface uninitialised owner m pSurface)
        = createdPipelines m)
     ∨ (groupKeys (loadSurface uninitialised owner m pSurface)
        = groupKeys m ++ [(buildPipelineDesc m pSurface, surfaceHash m pSurface,
                           surfaceUsedAttributes pSurface)]
        ∧ createdPipelines (loadSurface uninitialised owner m pSurface)
          = createdPipelines m ++ [buildPipelineDesc m pSurface])).
Proof.
  unfold loadSurface, groupKeys.
  destruct (HasTranslucency pSurface); [by repeat split; left |].
  pose proof (resolveTextures_sameCache uninitialised (GetMaterial pSurface) m)
    as (Hg1 & Hc1 & Hmv1 & Hvs1).
  destruct (resolveTextures uninitialised (GetMaterial pSurface) m)
    as [[indices s] m1]. simpl in Hg1, Hc1, Hmv1, Hvs1.
  pose proof (GetPipelinePermutationID_cases m1 pSurface)
    as (_ & _ & Hmv2 & Hvs2 & _ & Hcases).
  destruct (GetPipelinePermutationID m1 pSurface) as [group m2]. simpl in *.
  split; [congruence |]. split; [congruence |].
  rewrite groupKeys_alter by done.
  destruct Hcases as [[_ ->]|(_ & _ & -> & ->)].
  - left. by rewrite Hg1, Hc1.
  - right. rewrite fmap_app, Hg1, Hc1. simpl. unfold groupKey at 2. simpl.
    by rewrite (buildPipelineDesc_ext m1 m), (surfaceHash_ext m1 m).
Qed.

Lemma unloadSurface_flags (owner : ptr) m pSurface m' :
  unloadSurface owner m pSurface = Done m' →
  m_GenerateMotionVectors m' = m_GenerateMotionVectors m
  ∧ m_VariableShading m' = m_VariableShading m.
Proof.
  unfold unloadSurface. generalize 0%nat as start.
  generalize (m_PipelineRenderGroups m) at 1 as scanned.
  induction scanned as [|g rest IH]; intros start; simpl.
  - by intros [= <-].
  - destruct (findRenderSurface owner pSurface (m_RenderSurfaces g)) as [k|];
      [|apply IH].
    destruct (m_RenderSurfaces g !! k) as [found|]; [|discriminate].
    destruct (releaseTextures (Indices found) m) as [m1| |] eqn:Hrel; simpl;
      try discriminate.
    intros [= <-].
    by pose proof (releaseTextures_sameCache _ _ _ Hrel) as (_ & _ & Hmv & Hvs).
Qed.

(** A reflexive and transitive relation that every step of the two
    callbacks respects holds between the ends of every notification
    sequence. *)
Lemma notifications_related (R : ForwardRenderModule → ForwardRenderModule → Prop) :
  (∀ m, R m m) →
  (∀ m1 m2 m3, R m1 m2 → R m2 m3 → R m1 m3) →
  (∀ (uninitialised : Z) (owner : ptr) m pSurface,
     R m (loadSurface uninitialised owner m pSurface)) →
  (∀ m m', publishTable m = Done m' → R m m') →
  (∀ (owner : ptr) m pSurface m', unloadSurface owner m pSurface = Done m' → R m m') →
  ∀ (ns : list Notification) m m', notifications m ns = Done m' → R m m'.
Proof.
  intros Hrefl Htrans Hload Hpublish Hunload ns m m'. unfold notifications.
  apply (foldO_preserves (R m)); [|done].
  intros m1 n m2 Hm1 Hstep. apply (Htrans _ m1); [done |].
  destruct n as [uninitialised block|block]; simpl in Hstep.
  - unfold OnNewContentLoaded in Hstep.
    apply (Htrans _ (loadEntities uninitialised m1 block)); [|by apply Hpublish].
    apply (loadEntities_preserves (R m1)); [|done].
    intros m0 owner pSurface Hm0. by eapply Htrans.
  - revert Hstep. unfold OnContentUnloaded.
    apply (foldO_preserves (R m1)); [|done].
    intros m3 components m4 Hm3. apply (foldO_preserves (R m1)); [|done].
    intros m5 c m6 Hm5. destruct c as [owner pMesh|owner]; simpl;
      [|by intros [= <-]].
    apply (foldO_preserves (R m1)); [|done].
    intros m7 pSurface m8 Hm7 Hstep. apply (Htrans _ m7); [done |].
    by eapply Hunload.
Qed.

Lemma layoutFits_buildPipelineDesc m pSurface :
  layoutFits (m_GenerateMotionVectors m)
    (buildPipelineDesc m pSurface, surfaceHash m pSurface, surfaceUsedAttributes pSurface).
Proof.
  unfold layoutFits. simpl. split; [done |]. split.
  - generalize (attributesOf (surfaceUsedAttributes pSurface)) as attributes.
    intros attributes. apply list_eq. intros k.
    rewrite list_lookup_fmap, list_lookup_imap.
    by destruct (attributes !! k).
  - intros k e. rewrite list_lookup_imap.
    destruct (attributesOf (surfaceUsedAttributes pSurface) !! k); simpl; [|done].
    by intros [= <-].
Qed.

Lemma pipelinesFit_step m m' :
  m_GenerateMotionVectors m' = m_GenerateMotionVectors m →
  groupKeys m' = groupKeys m →
  createdPipelines m' = createdPipelines m →
  pipelinesFit m → pipelinesFit m'.
Proof. unfold pipelinesFit. by intros -> -> ->. Qed.

Lemma loadSurface_pipelinesFit (uninitialised : Z) (owner : ptr) m pSurface :
  pipelinesFit m → pipelinesFit (loadSurface uninitialised owner m pSurface).
Proof.
  intros Hfit.
  destruct (loadSurface_keys uninitialised owner m pSurface)
    as (Hmv & _ & [[Hkeys Hcreated]|[Hkeys Hcreated]]).
  - by apply (pipelinesFit_step m).
  - destruct Hfit as [Hc Hall]. unfold pipelinesFit.
    rewrite Hmv, Hkeys, Hcreated, fmap_app, Hc. split; [done |].
    apply Forall_app. split; [done |]. apply Forall_singleton.
    apply layoutFits_buildPipelineDesc.
Qed.

Lemma selectVertexBuffers_length frame (usedAttributes : Z) entry
    (v : list VertexBufferSource) :
  selectVertexBuffers frame usedAttributes entry = Done v →
  length v = length (attributesOf usedAttributes).
Proof.
  unfold selectVertexBuffers.
  destruct (skinOf frame (pOwner entry)) as [skinId|].
  - destruct (decide (skinId ≠ -1)).
    + destruct (decide _); [|discriminate].
      intros [= <-]. by rewrite !length_insert, length_fmap.
    + intros [= <-]. by rewrite length_fmap.
  - intros [= <-]. by rewrite length_fmap.
Qed.

(** X10: in every state the content notifications reach from the
    initialised module there is exactly one created pipeline object per
    pipeline group, in group order (none is created that no group holds,
    none is shared or destroyed).  The pipeline of every group has the
    render-target count of the module's motion-vector flag, which the
    notifications never change, and an input layout that lists the
    attributes of the group's mask in ascending order, the k-th at binding
    slot k; so every draw of the group binds exactly as many vertex buffers
    as the layout of the bound pipeline has elements. *)
Theorem notifications_one_pipeline_per_group (vs mv : bool) (ns : list Notification) m :
  notifications (emptyModule vs mv) ns = Done m →
  m_GenerateMotionVectors m = mv
  ∧ m_VariableShading m = vs
  ∧ createdPipelines m = m_Pipeline <$> m_PipelineRenderGroups m
  ∧ ∀ g, g ∈ m_PipelineRenderGroups m →
      pso_numRenderTargets (m_Pipeline g) = (if mv then 2 else 1)
      ∧ (λ e : Z * Z * Z, e.1.1) <$> pso_inputLayout (m_Pipeline g)
        = attributesOf (m_UsedAttributes g)
      ∧ (∀ (k : nat) (e : Z * Z * Z),
           pso_inputLayout (m_Pipeline g) !! k = Some e → e.2 = Z.of_nat k)
      ∧ ∀ frame entry (v : list VertexBufferSource),
          selectVertexBuffers frame (m_UsedAttributes g) entry = Done v →
          length v = length (pso_inputLayout (m_Pipeline g)).
Proof.
  intros Hreach.
  assert (m_GenerateMotionVectors m = mv ∧ m_VariableShading m = vs
          ∧ pipelinesFit m) as (Hmv & Hvs & Hc & Hall).
  { destruct (notifications_related
                (λ m1 m2, m_GenerateMotionVectors m2 = m_GenerateMotionVectors m1
                          ∧ m_VariableShading m2 = m_VariableShading m1
                          ∧ (pipelinesFit m1 → pipelinesFit m2)))
      with (ns := ns) (m := emptyModule (SamplerDesc := SamplerDesc) vs mv) (m' := m)
      as (Hmv & Hvs & Hfit);
      [| | | | |done |].
    6: { split; [done |]. split; [done |]. apply Hfit. split; [done | constructor]. }
    - by intros m0.
    - intros m1 m2 m3 (? & ? & ?) (? & ? & ?).
      split; [congruence |]. split; [congruence | auto].
    - intros uninitialised owner m0 pSurface.
      destruct (loadSurface_keys uninitialised owner m0 pSurface) as (? & ? & _).
      split; [done |]. split; [done |]. apply loadSurface_pipelinesFit.
    - intros m0 m1 Hpub.
      assert (m_VariableShading m1 = m_VariableShading m0) as Hvs.
      { revert Hpub. unfold publishTable, CauldronAssert.
        destruct (bool_decide _); simpl; [|discriminate].
        destruct (bool_decide _); simpl; [|discriminate].
        by intros [= <-]. }
      apply publishTable_Done in Hpub as (Hg & Hmv & _ & _ & Hc).
      split; [done |]. split; [done |].
      apply pipelinesFit_step; [done | unfold groupKeys; by rewrite Hg | done].
    - intros owner m0 pSurface m1 Hun.
      destruct (unloadSurface_flags _ _ _ _ Hun) as [? ?].
      destruct (unloadSurface_keeps _ _ _ _ Hun) as (_ & _ & ? & _ & ?).
      split; [done |]. split; [done |]. by apply pipelinesFit_step. }
  split; [done |]. split; [done |]. split.
  { rewrite Hc. unfold groupKeys. rewrite <- list_fmap_compose. done. }
  intros g Hg.
  assert (layoutFits mv (groupKey g)) as (Hrt & Hattrs & Hslots).
  { rewrite Hmv in Hall. rewrite Forall_forall in Hall. apply Hall.
    unfold groupKeys. apply list_elem_of_fmap. by exists g. }
  simpl in *. split; [done |]. split; [done |]. split; [done |].
  intros frame entry v Hv. apply selectVertexBuffers_length in Hv.
  by rewrite Hv, <- Hattrs, length_fmap.
Qed.

(** X11: content notifications only ever append to the pipeline groups,
    the created pipeline objects and the sampler list, and never shrink
    the texture table: no group, pipeline object or sampler is removed or
    moved, so a group index, a sampler index or a slot index handed out
    earlier still denotes a group with the same pipeline, hash and mask,
    the same sampler, or a slot of the table. *)
Theorem notifications_append_only (ns : list Notification) m m' :
  notifications m ns = Done m' →
  groupKeys m `prefix_of` groupKeys m'
  ∧ createdPipelines m `prefix_of` createdPipelines m'
  ∧ m_Samplers m `prefix_of` m_Samplers m'
  ∧ (length (m_Textures m) ≤ length (m_Textures m'))%nat
  ∧ (∀ (i : nat) g, m_PipelineRenderGroups m !! i = Some g →
       ∃ g', m_PipelineRenderGroups m' !! i = Some g' ∧ groupKey g' = groupKey g)
  ∧ (∀ (i : nat) (d : SamplerDesc), m_Samplers m !! i = Some d →
       m_Samplers m' !! i = Some d).
Proof.
  intros Hreach.
  destruct (notifications_related
              (λ m1 m2, groupKeys m1 `prefix_of` groupKeys m2
                        ∧ createdPipelines m1 `prefix_of` createdPipelines m2
                        ∧ m_Samplers m1 `prefix_of` m_Samplers m2
                        ∧ (length (m_Textures m1) ≤ length (m_Textures m2))%nat))
    with (ns := ns) (m := m) (m' := m') as (Hkeys & Hcreated & Hsamplers & Hlen);
    [| | | | |done |].
  - by intros m0.
  - intros m1 m2 m3 (? & ? & ? & ?) (? & ? & ? & ?).
    repeat split; try (by etrans); lia.
  - intros uninitialised owner m0 pSurface.
    destruct (loadSurface_keys uninitialised owner m0 pSurface)
      as (_ & _ & [[-> ->]|[-> ->]]).
    + split; [done |]. split; [done |].
      apply (loadSurface_tables_preserve
               (λ textures samplers,
                  m_Samplers m0 `prefix_of` samplers
                  ∧ (length (m_Textures m0) ≤ length textures)%nat)); [|done].
      intros m1 pMaterial textureClass s [Hs Hl]. split.
      * etrans; [done |]. apply AddTexture_samplers_prefix.
      * pose proof (AddTexture_textures_length m1 pMaterial textureClass s). lia.
    + split; [by apply prefix_app_r |]. split; [by apply prefix_app_r |].
      apply (loadSurface_tables_preserve
               (λ textures samplers,
                  m_Samplers m0 `prefix_of` samplers
                  ∧ (length (m_Textures m0) ≤ length textures)%nat)); [|done].
      intros m1 pMaterial textureClass s [Hs Hl]. split.
      * etrans; [done |]. apply AddTexture_samplers_prefix.
      * pose proof (AddTexture_textures_length m1 pMaterial textureClass s). lia.
  - intros m0 m1 Hpub.
    apply publishTable_Done in Hpub as (Hg & _ & -> & -> & ->).
    unfold groupKeys. by rewrite Hg.
  - intros owner m0 pSurface m1 Hun.
    destruct (unloadSurface_keeps _ _ _ _ Hun) as (-> & _ & -> & -> & Hk).
    unfold groupKeys. by rewrite Hk.
  - split; [done |]. split; [done |]. split; [done |]. split; [done |]. split.
    + intros i g Hg.
      assert (groupKeys m' !! i = Some (groupKey g)) as Hi.
      { apply (prefix_lookup_Some (groupKeys m)); [|done].
        unfold groupKeys. by rewrite list_lookup_fmap, Hg. }
      unfold groupKeys in Hi. rewrite list_lookup_fmap in Hi.
      destruct (m_PipelineRenderGroups m' !! i) as [g'|]; [|done].
      exists g'. split; [done |]. simpl in Hi. unfold groupKey in *. congruence.
    + intros i d Hd. by apply (prefix_lookup_Some (m_Samplers m)).
Qed.

(** ** Round trips of the bindless table *)

Lemma releaseOne_bumpCount b :
  0 ≤ count b < 2 ^ 32 - 1 → count b ≠ 0 → releaseOne (bumpCount b) = b.
Proof.
  intros Hrange Hne. unfold releaseOne, bumpCount. simpl.
  rewrite (wrap32_small (count b + 1)) by lia.
  replace (count b + 1 - 1) with (count b) by lia.
  rewrite (wrap32_small (count b)) by lia.
  rewrite decide_False by done. by destruct b.
Qed.

(** X12: [RemoveTexture] on the index [AddTexture] has just returned takes
    the reference back.  In a table whose slots are free exactly when
    their count is zero and whose counts are below the maximum of
    [uint32_t], and for a material whose texture object (if it has one of
    the class) is not null, the pair of calls completes and leaves the
    table as it was, except that a slot [AddTexture] had to append stays,
    released (null handle, count 0).  The sentinel -1 of a material
    without such a texture is accepted and changes nothing.  The sampler
    [AddTexture] may have appended is not taken back. *)
Theorem AddTexture_then_RemoveTexture_restores m pMaterial
    (textureClass : TextureClass) (s : Z) :
  Forall slotInvariant (m_Textures m) →
  (∀ (i : nat) b, m_Textures m !! i = Some b → 0 ≤ count b < 2 ^ 32 - 1) →
  (∀ ti : TextureInfo,
     GetTextureInfo pMaterial textureClass = Some ti → tex_pTexture ti ≠ nullptr) →
  let r := AddTexture m pMaterial textureClass s in
  ∃ m',
    RemoveTexture r.2 r.1.1 = Done m'
    ∧ (m_Textures m' = m_Textures m
       ∨ (m_Textures m' = m_Textures m ++ [{| pTexture := nullptr; count := 0 |}]
          ∧ firstFreeSlot (m_Textures m) = None
          ∧ ∃ ti : TextureInfo,
              GetTextureInfo pMaterial textureClass = Some ti
              ∧ ¬ boundIn (m_Textures m) (tex_pTexture ti)))
    ∧ m_Samplers m' = m_Samplers r.2
    ∧ m_PipelineRenderGroups m' = m_PipelineRenderGroups m
    ∧ (GetTextureInfo pMaterial textureClass = None → m' = m).
Proof.
  intros Hinv Hrange Hnonnull r.
  destruct (GetTextureInfo pMaterial textureClass) as [ti|] eqn:Hti.
  2: { exists m. subst r. unfold AddTexture. rewrite Hti. simpl.
       split; [done |]. split; [by left |]. done. }
  specialize (Hnonnull ti eq_refl).
  destruct (AddTexture_present m pMaterial textureClass s ti Hti)
    as (_ & Hgroups & _ & _ & _ & _ & Hcases). fold r in Hgroups, Hcases.
  rewrite Forall_lookup in Hinv.
  unfold RemoveTexture.
  destruct Hcases as [(k & b & Hk & Hb & _ & -> & Htextures)|[Hunbound Hfree]].
  - rewrite decide_True by lia. rewrite Nat2Z.id, Htextures.
    rewrite list_lookup_insert_eq by (by eapply lookup_lt_Some).
    eexists. split; [reflexivity |]. simpl.
    split; [|split; [done | split; [done | discriminate]]].
    left. rewrite Htextures, list_insert_insert_eq.
    rewrite releaseOne_bumpCount.
    + by apply list_insert_id.
    + by eapply Hrange.
    + intros Hzero. apply (Hinv k b Hk) in Hzero. congruence.
  - destruct (firstFreeSlot (m_Textures m)) as [j|] eqn:Hj;
      destruct Hfree as [-> Htextures].
    + rewrite decide_True by lia. rewrite Nat2Z.id, Htextures.
      pose proof (firstFreeSlot_lt _ _ Hj) as Hlt.
      rewrite list_lookup_insert_eq by done.
      eexists. split; [reflexivity |]. simpl.
      split; [|split; [done | split; [done | discriminate]]].
      left. rewrite Htextures, list_insert_insert_eq.
      apply firstFreeSlot_Some in Hj as [(b0 & Hb0 & Hzero) _].
      apply list_insert_id. rewrite Hb0. f_equal.
      pose proof (Hinv j b0 Hb0) as Hslot. apply Hslot in Hzero as Hnull.
      destruct b0 as [handle c]. simpl in *. subst. reflexivity.
    + rewrite decide_True by lia. rewrite Nat2Z.id, Htextures.
      rewrite list_lookup_middle by done.
      eexists. split; [reflexivity |]. simpl.
      split; [|split; [done | split; [done | discriminate]]].
      right. split.
      * rewrite Htextures.
        replace (length (m_Textures m)) with (length (m_Textures m) + 0)%nat at 1 by lia.
        by rewrite insert_app_r.
      * split; [done |]. exists ti. split; [done |].
        intros (i & b & Hi & Hb). by apply (Hunbound i b).
Qed.

(** ** A block loaded and unloaded again *)

Implicit Types (pairs : list (ptr * Surface (SamplerDesc := SamplerDesc))).

Lemma foldO_app {A B : Type} (f : A → B → Outcome A) (l1 l2 : list B) (a : A) :
  foldO f a (l1 ++ l2) = bindO (foldO f a l1) (λ a', foldO f a' l2).
Proof.
  revert a. induction l1 as [|y rest IH]; intros a; simpl; [done |].
  destruct (f a y) as [a1| |]; simpl; [apply IH | done | done].
Qed.

Lemma loadEntities_blockPairs (uninitialised : Z) (pContentBlock : ContentBlock) m :
  loadEntities uninitialised m pContentBlock
  = foldl (λ m0 p, loadSurface uninitialised p.1 m0 p.2) m
      (blockPairs pContentBlock).
Proof.
  unfold loadEntities, blockPairs. revert m.
  induction pContentBlock as [|components rest IH]; intros m; simpl; [done |].
  rewrite fmap_app, concat_app, foldl_app, IH. f_equal. clear IH. revert m.
  induction components as [|c cs IHc]; intros m; simpl; [done |].
  rewrite foldl_app, IHc. f_equal.
  destruct c as [owner pMesh|owner]; simpl; [|done].
  by rewrite foldl_fmap.
Qed.

Lemma OnContentUnloaded_blockPairs (pContentBlock : ContentBlock) m :
  OnContentUnloaded m pContentBlock
  = foldO (λ m0 p, unloadSurface p.1 m0 p.2) m
      (blockPairs pContentBlock).
Proof.
  unfold OnContentUnloaded, blockPairs. revert m.
  induction pContentBlock as [|components rest IH]; intros m; simpl; [done |].
  rewrite fmap_app, concat_app, foldO_app.
  assert (∀ m0, foldO unloadComponent m0 components
                = foldO (λ m1 p, unloadSurface p.1 m1 p.2) m0
                    (concat (componentPairs <$> components))) as ->.
  { clear IH. induction components as [|c cs IHc]; intros m0; simpl; [done |].
    rewrite foldO_app.
    assert (unloadComponent m0 c
            = foldO (λ m1 p, unloadSurface p.1 m1 p.2) m0
                (componentPairs c)) as ->.
    { destruct c as [owner pMesh|owner]; simpl; [|done].
      clear IHc. revert m0. induction pMesh as [|pSurface more IHs]; intros m0; simpl;
        [done |].
      destruct (unloadSurface owner m0 pSurface) as [m1| |]; simpl; [apply IHs | done..]. }
    destruct (foldO _ m0 (componentPairs c)) as [m1| |]; simpl; [apply IHc | done..]. }
  destruct (foldO _ m _) as [m1| |]; simpl; [apply IH | done..].
Qed.

Lemma blockPairs_surfaces (pContentBlock : ContentBlock (SamplerDesc := SamplerDesc)) :
  snd <$> blockPairs pContentBlock = blockSurfaces pContentBlock.
Proof.
  unfold blockPairs, blockSurfaces.
  induction (concat pContentBlock) as [|c cs IH]; [done |].
  rewrite !fmap_cons. simpl concat. rewrite fmap_app, IH. f_equal.
  destruct c as [owner pMesh|owner]; [|done].
  unfold componentPairs, componentSurfaces.
  rewrite <- list_fmap_compose. apply list_fmap_id.
Qed.

Lemma sameSurface_pairOf (owner : ptr) pSurface entry :
  sameSurface owner pSurface entry ↔ pairOf entry = (owner, surfaceAddress pSurface).
Proof.
  unfold sameSurface, pairOf. split; [by intros [-> ->] | by intros [= -> ->]].
Qed.

(** The body of the load loop registers one entry, of the pair it was
    handed, unless the surface has translucency. *)
Lemma loadSurface_entries (uninitialised : Z) (owner : ptr) m pSurface :
  pairOf <$> allEntries (loadSurface uninitialised owner m pSurface)
  ≡ₚ registeredPairs [(owner, pSurface)] ++ (pairOf <$> allEntries m).
Proof.
  unfold registeredPairs. simpl.
  destruct (HasTranslucency pSurface) eqn:Htrans; simpl.
  { unfold loadSurface. by rewrite Htrans. }
  destruct (loadSurface_groups uninitialised owner m pSurface Htrans)
    as (entry & pre & g & post & Howner & Hsurface & Hgroups & _ & Hbefore).
  assert (pairOf entry = (owner, surfaceAddress pSurface)) as <-.
  { unfold pairOf. by rewrite Howner, Hsurface. }
  unfold allEntries. rewrite Hgroups.
  assert (concat (m_RenderSurfaces <$> m_PipelineRenderGroups m)
          = concat (m_RenderSurfaces <$> pre) ++ m_RenderSurfaces g
            ++ concat (m_RenderSurfaces <$> post)) as ->.
  { destruct Hbefore as [->|(-> & -> & ->)].
    - by rewrite fmap_app, concat_app.
    - simpl. by rewrite app_nil_r. }
  rewrite fmap_app, concat_app. simpl. rewrite !fmap_app. simpl.
  rewrite <- !app_assoc. simpl.
  rewrite (Permutation_middle (pairOf <$> concat (m_RenderSurfaces <$> pre))).
  apply Permutation_app_head.
  rewrite (Permutation_middle (pairOf <$> m_RenderSurfaces g)). done.
Qed.

Lemma loadSurfaces_entries (uninitialised : Z) pairs m :
  pairOf <$> allEntries
               (foldl (λ m0 p, loadSurface uninitialised p.1 m0 p.2)
                  m pairs)
  ≡ₚ registeredPairs pairs ++ (pairOf <$> allEntries m).
Proof.
  revert m. induction pairs as [|[owner pSurface] rest IH]; intros m; [done |].
  simpl foldl. rewrite IH, loadSurface_entries.
  change ((owner, pSurface) :: rest) with ([(owner, pSurface)] ++ rest).
  unfold registeredPairs. rewrite (omap_app _ [(owner, pSurface)] rest).
  rewrite !app_assoc. apply Permutation_app_tail. apply Permutation_app_comm.
Qed.

Lemma elem_of_allEntries m entry :
  entry ∈ allEntries m ↔
    ∃ g, g ∈ m_PipelineRenderGroups m ∧ entry ∈ m_RenderSurfaces g.
Proof.
  unfold allEntries. rewrite list_elem_of_In, in_concat. split.
  - intros (l & Hl & He). apply list_elem_of_In in Hl, He.
    apply list_elem_of_fmap in Hl as (g & -> & Hg). eauto.
  - intros (g & Hg & He). exists (m_RenderSurfaces g).
    rewrite <- !list_elem_of_In. split; [|done].
    apply list_elem_of_fmap. eauto.
Qed.

(** The body of the unload loop takes one entry of the pair it was handed
    out of the groups, or leaves the groups alone when no entry is of that
    pair. *)
Lemma unloadSurface_entries (owner : ptr) m pSurface m' :
  unloadSurface owner m pSurface = Done m' →
  (((owner, surfaceAddress pSurface) ∉ (pairOf <$> allEntries m))
   ∧ allEntries m' = allEntries m)
  ∨ pairOf <$> allEntries m
    ≡ₚ (owner, surfaceAddress pSurface) :: (pairOf <$> allEntries m').
Proof.
  unfold unloadSurface.
  assert (∀ (scanned visited : list PipelineRenderGroup),
            m_PipelineRenderGroups m = visited ++ scanned →
            (∀ g, g ∈ visited →
               findRenderSurface owner pSurface (m_RenderSurfaces g) = None) →
            unloadFromGroups owner pSurface scanned (length visited) m = Done m' →
            (((owner, surfaceAddress pSurface) ∉ (pairOf <$> allEntries m))
             ∧ allEntries m' = allEntries m)
            ∨ pairOf <$> allEntries m
              ≡ₚ (owner, surfaceAddress pSurface) :: (pairOf <$> allEntries m'))
    as Hscan.
  { induction scanned as [|g rest IH]; intros visited Hsplit Hnone; simpl.
    - intros [= <-]. left. split; [|done].
      intros Hin. apply list_elem_of_fmap in Hin as (entry & Hpair & Hentry).
      apply elem_of_allEntries in Hentry as (g & Hg & Hentry).
      rewrite Hsplit, app_nil_r in Hg.
      pose proof (proj1 (findRenderSurface_None _ _ _) (Hnone g Hg) entry Hentry) as Hno.
      apply Hno. by apply sameSurface_pairOf.
    - destruct (findRenderSurface owner pSurface (m_RenderSurfaces g)) as [k|] eqn:Hfind.
      + apply findRenderSurface_Some in Hfind as (found & Hk & Hsame & _).
        rewrite Hk.
        destruct (releaseTextures (Indices found) m) as [m1| |] eqn:Hrel; simpl;
          try discriminate.
        intros [= <-]. right.
        apply releaseTextures_sameCache in Hrel as (Hg & _).
        unfold allEntries. simpl. rewrite Hg, Hsplit.
        replace (length visited) with (length visited + 0)%nat by lia.
        rewrite alter_app_r. simpl.
        rewrite !fmap_app, !concat_app. simpl. rewrite !fmap_app.
        apply sameSurface_pairOf in Hsame as <-.
        rewrite Permutation_middle. apply Permutation_app_head.
        rewrite (delete_Permutation _ _ _ Hk) at 1. done.
      + intros Hrest.
        apply (IH (visited ++ [g])).
        * by rewrite <- app_assoc.
        * intros g' Hg'. apply elem_of_app in Hg' as [Hg'|Hg']; [by apply Hnone |].
          by apply list_elem_of_singleton in Hg' as ->.
        * rewrite length_app. simpl.
          by replace (length visited + 1)%nat with (S (length visited)) by lia. }
  apply (Hscan (m_PipelineRenderGroups m) []); [done |].
  intros g Hg. by apply not_elem_of_nil in Hg.
Qed.

(** Unloading the pairs whose opaque ones are exactly what is registered
    completes and leaves no entry. *)
Lemma unloadSurfaces_all pairs :
  addressConsistent (snd <$> pairs) →
  ∀ m, entriesValid m →
    pairOf <$> allEntries m ≡ₚ registeredPairs pairs →
    ∃ m', foldO (λ m0 p, unloadSurface p.1 m0 p.2) m pairs = Done m'
          ∧ allEntries m' = [].
Proof.
  induction pairs as [|[owner pSurface] rest IH]; intros Haddress m Hvalid Hperm.
  - exists m. split; [done |]. simpl in Hperm.
    apply Permutation_nil_r in Hperm. by apply fmap_nil_inv in Hperm.
  - assert (addressConsistent (snd <$> rest)) as Haddress'.
    { intros x y Hx Hy. apply Haddress; by right. }
    destruct (unloadSurface_valid owner m pSurface Hvalid) as (m1 & Hun & Hvalid1).
    simpl. rewrite Hun. simpl.
    apply (IH Haddress' m1 Hvalid1).
    apply unloadSurface_entries in Hun.
    unfold registeredPairs in Hperm. simpl in Hperm.
    destruct (HasTranslucency pSurface) eqn:Htrans.
    + assert ((owner, surfaceAddress pSurface) ∉ (pairOf <$> allEntries m)) as Hnot.
      { rewrite Hperm. intros Hin.
        apply list_elem_of_omap in Hin as ([owner' pSurface'] & Hin & Hsome).
        simpl in Hsome.
        destruct (HasTranslucency pSurface') eqn:Htrans'; [discriminate |].
        injection Hsome as -> Hsame.
        assert (pSurface' = pSurface) as ->; [|congruence].
        apply Haddress; [| |done].
        - right. apply list_elem_of_fmap. by exists (owner, pSurface').
        - by left. }
      destruct Hun as [[_ ->]|Hun]; [done |].
      exfalso. apply Hnot. rewrite Hun. by left.
    + destruct Hun as [[Hnot _]|Hun].
      * exfalso. apply Hnot. rewrite Hperm. by left.
      * rewrite Hun in Hperm. by apply Permutation_cons_inv in Hperm.
Qed.

Lemma allEntries_nil m :
  allEntries m = [] ↔ ∀ g, g ∈ m_PipelineRenderGroups m → m_RenderSurfaces g = [].
Proof.
  split.
  - intros Hnil g Hg. destruct (m_RenderSurfaces g) as [|entry l] eqn:Hl; [done |].
    assert (entry ∈ allEntries m) as Hin.
    { apply elem_of_allEntries. exists g. split; [done |]. rewrite Hl. by left. }
    rewrite Hnil in Hin. by apply not_elem_of_nil in Hin.
  - intros Hall. destruct (allEntries m) as [|entry l] eqn:Hl; [done |].
    assert (entry ∈ allEntries m) as Hin by (rewrite Hl; by left).
    apply elem_of_allEntries in Hin as (g & Hg & Hin).
    rewrite (Hall g Hg) in Hin. by apply not_elem_of_nil in Hin.
Qed.

Lemma destructor_no_surfaces m :
  allEntries m = [] →
  destructor m
  = Done ((DeletePipeline <$> (m_Pipeline <$> m_PipelineRenderGroups m))
          ++ (DeleteSampler <$> m_Samplers m)).
Proof.
  rewrite allEntries_nil. intros Hall. unfold destructor.
  assert (∀ groups (deleted : list (TeardownEvent (SamplerDesc := SamplerDesc))),
            (∀ g, g ∈ groups → m_RenderSurfaces g = []) →
            foldO (λ (deleted0 : list (TeardownEvent (SamplerDesc := SamplerDesc))) g,
                     _ ←o CauldronAssert
                            (bool_decide (length (m_RenderSurfaces g) = 0%nat))
                            "Not all pipeline surfaces have been removed. This ship is leaking.";
                     Done (deleted0 ++ [DeletePipeline (m_Pipeline g)]))
              deleted groups
            = Done (deleted ++ (DeletePipeline <$> (m_Pipeline <$> groups)))) as Hfold.
  { induction groups as [|g rest IH]; intros deleted Hnone; simpl.
    - by rewrite app_nil_r.
    - rewrite (Hnone g) by left. simpl.
      rewrite IH by (intros g' Hg'; apply Hnone; by right).
      by rewrite <- app_assoc. }
  by rewrite (Hfold _ [] Hall).
Qed.

(** X13: a content block unloaded right after it was loaded leaves no
    surface behind.  Starting from a module in which no surface is
    registered, and for a block in which one address is one surface, the
    load callback (if it completes) registers as many entries as the
    block has surfaces without translucency; the unload callback for the
    same block then completes and empties the surface list of every
    group, so the destructor's leak assertion holds for every group and
    the destructor deletes the pipeline of each group once, in group
    order, and then every sampler. *)
Theorem load_then_unload_block_leaves_no_surface (uninitialised : Z) m
    (pContentBlock : ContentBlock) m1 :
  allEntries m = [] →
  addressConsistent (blockSurfaces pContentBlock) →
  OnNewContentLoaded uninitialised m pContentBlock = Done m1 →
  length (allEntries m1)
  = length (filter (λ pSurface, HasTranslucency pSurface = false)
              (blockSurfaces pContentBlock))
  ∧ ∃ m2,
      OnContentUnloaded m1 pContentBlock = Done m2
      ∧ allEntries m2 = []
      ∧ (∀ g, g ∈ m_PipelineRenderGroups m2 → m_RenderSurfaces g = [])
      ∧ destructor m2
        = Done ((DeletePipeline <$> (m_Pipeline <$> m_PipelineRenderGroups m2))
                ++ (DeleteSampler <$> m_Samplers m2)).
Proof.
  intros Hnone Haddress Hload.
  unfold OnNewContentLoaded in Hload.
  apply publishTable_Done in Hload as (Hg & _ & Ht & _).
  assert (allEntries m1 = allEntries (loadEntities uninitialised m pContentBlock))
    as Hentries by (unfold allEntries; by rewrite Hg).
  assert (pairOf <$> allEntries m1 ≡ₚ registeredPairs (blockPairs pContentBlock))
    as Hperm.
  { rewrite Hentries, loadEntities_blockPairs, loadSurfaces_entries, Hnone.
    simpl. by rewrite app_nil_r. }
  split.
  { rewrite <- (length_fmap pairOf), Hperm, <- blockPairs_surfaces.
    unfold registeredPairs. clear Hperm.
    induction (blockPairs pContentBlock) as [|[owner pSurface] rest IH]; [done |].
    rewrite fmap_cons, filter_cons. simpl.
    destruct (HasTranslucency pSurface); simpl; [apply IH | f_equal; apply IH]. }
  assert (entriesValid m1) as Hvalid.
  { assert (entriesValid (loadEntities uninitialised m pContentBlock)) as Hloaded.
    { apply (loadEntities_preserves entriesValid).
      - intros m0 owner pSurface Hm0. by apply loadSurface_valid.
      - intros g info Hg' Hinfo.
        assert (info ∈ allEntries m) as Hin by (apply elem_of_allEntries; eauto).
        rewrite Hnone in Hin. by apply not_elem_of_nil in Hin. }
    intros g info Hg' Hinfo. rewrite Ht. apply (Hloaded g info); [|done].
    by rewrite <- Hg. }
  destruct (unloadSurfaces_all (blockPairs pContentBlock)) with (m := m1)
    as (m2 & Hunload & Hempty); [|done |done |].
  { by rewrite blockPairs_surfaces. }
  exists m2. rewrite OnContentUnloaded_blockPairs.
  split; [done |]. split; [done |]. split; [by apply allEntries_nil |].
  by apply destructor_no_surfaces.
Qed.

(** ** Reference accounting *)

Lemma wrap32_eq (x y k : Z) : x = y + k * 2 ^ 32 → wrap32 x = wrap32 y.
Proof. intros ->. unfold wrap32. apply Z_mod_plus_full. Qed.

Lemma wrap32_eq_inv (x y : Z) : wrap32 x = wrap32 y → ∃ k, x = y + k * 2 ^ 32.
Proof.
  unfold wrap32. intros Heq. exists (x / 2 ^ 32 - y / 2 ^ 32).
  pose proof (Z.div_mod x (2 ^ 32) ltac:(lia)).
  pose proof (Z.div_mod y (2 ^ 32) ltac:(lia)). lia.
Qed.

Lemma wrap32_wrap32 (z : Z) : wrap32 (wrap32 z) = wrap32 z.
Proof. unfold wrap32. apply Z.mod_mod. lia. Qed.

Lemma wrap32_shift (x y d : Z) : wrap32 x = wrap32 y → wrap32 (x + d) = wrap32 (y + d).
Proof.
  intros Heq. apply wrap32_eq_inv in Heq as [k ->]. apply (wrap32_eq _ _ k). lia.
Qed.

Lemma hits_sentinel (index : Z) (i : nat) : index < 0 → hits index i = 0.
Proof. intros Hneg. unfold hits. rewrite decide_False by lia. done. Qed.

Lemma hits_range (index : Z) (i : nat) : 0 ≤ hits index i ≤ 1.
Proof. unfold hits. destruct (decide _); lia. Qed.

Lemma countAt_insert textures (k i : nat) b :
  (k < length textures)%nat →
  countAt (<[k := b]> textures) i
  = if decide (k = i) then count b else countAt textures i.
Proof.
  intros Hk. unfold countAt. destruct (decide (k = i)) as [<-|Hne].
  - by rewrite list_lookup_insert_eq.
  - by rewrite list_lookup_insert_ne.
Qed.

(** [AddTexture] adds one (modulo 2^32) to the count of the slot it
    returns and leaves the count of every other slot alone. *)
Lemma AddTexture_counts m pMaterial (textureClass : TextureClass) (s : Z) (i : nat) :
  wrap32 (countAt (m_Textures (AddTexture m pMaterial textureClass s).2) i)
  = wrap32 (countAt (m_Textures m) i
            + hits (AddTexture m pMaterial textureClass s).1.1 i).
Proof.
  destruct (GetTextureInfo pMaterial textureClass) as [ti|] eqn:Hti.
  2: { unfold AddTexture. rewrite Hti. simpl. rewrite hits_sentinel by lia.
       by rewrite Z.add_0_r. }
  destruct (AddTexture_present m pMaterial textureClass s ti Hti)
    as (_ & _ & _ & _ & _ & _ & Hcases).
  unfold hits.
  destruct Hcases as [(k & b & Hk & _ & _ & -> & ->)|[_ Hfree]].
  - rewrite countAt_insert by (by eapply lookup_lt_Some).
    destruct (decide (k = i)) as [<-|Hne].
    + rewrite decide_True by done. unfold countAt. rewrite Hk. simpl.
      apply wrap32_wrap32.
    + rewrite decide_False by lia. by rewrite Z.add_0_r.
  - destruct (firstFreeSlot (m_Textures m)) as [j|] eqn:Hj; destruct Hfree as [-> ->].
    + rewrite countAt_insert by (by eapply firstFreeSlot_lt).
      apply firstFreeSlot_Some in Hj as [(b0 & Hb0 & Hzero) _].
      destruct (decide (j = i)) as [<-|Hne].
      * rewrite decide_True by done. unfold countAt. rewrite Hb0. simpl.
        by rewrite Hzero.
      * rewrite decide_False by lia. by rewrite Z.add_0_r.
    + unfold countAt.
      destruct (decide (Z.of_nat (length (m_Textures m)) = Z.of_nat i)) as [Heq|Hne].
      * apply Nat2Z.inj in Heq as <-.
        rewrite list_lookup_middle by done.
        rewrite (lookup_ge_None_2 (m_Textures m)) by lia. done.
      * rewrite Z.add_0_r. f_equal.
        destruct (decide (i < length (m_Textures m))%nat) as [Hlt|Hge].
        -- by rewrite lookup_app_l.
        -- rewrite !lookup_ge_None_2; [done | lia |].
           rewrite length_app. simpl. lia.
Qed.

(** [RemoveTexture] on the sentinel or a slot of the table subtracts one
    (modulo 2^32) from the count of that slot and leaves the count of
    every other slot alone. *)
Lemma releaseSlot_counts (index : Z) textures (i : nat) :
  validIndex textures index →
  wrap32 (countAt (releaseSlot index textures) i)
  = wrap32 (countAt textures i - hits index i).
Proof.
  intros Hvalid. unfold releaseSlot, hits.
  destruct (decide (index >= 0)) as [Hpos|Hneg].
  2: { rewrite decide_False by lia. by rewrite Z.sub_0_r. }
  destruct Hvalid as [Hlt|Hlt]; [lia |].
  unfold countAt. destruct (decide (index = Z.of_nat i)) as [->|Hne].
  - rewrite Nat2Z.id, list_lookup_alter_eq.
    destruct (textures !! i) as [b0|] eqn:Hi; simpl.
    + rewrite count_releaseOne. apply wrap32_wrap32.
    + apply lookup_ge_None in Hi. lia.
  - rewrite list_lookup_alter_ne by lia. by rewrite Z.sub_0_r.
Qed.

Lemma releaseSlots_counts (t : TextureIndices) textures (i : nat) :
  validIndices textures t →
  wrap32 (countAt (releaseSlots t textures) i)
  = wrap32 (countAt textures i - referencesOf t i).
Proof.
  intros (Ha & Hm & Hn & He & Ho). unfold releaseSlots, referencesOf.
  pose proof (releaseSlot_counts (AlbedoTextureIndex t) textures i Ha) as H1.
  set (t1 := releaseSlot (AlbedoTextureIndex t) textures) in *.
  pose proof (releaseSlot_counts (MetalRoughSpecGlossTextureIndex t) t1 i
                ltac:(by apply validIndex_releaseSlot)) as H2.
  set (t2 := releaseSlot (MetalRoughSpecGlossTextureIndex t) t1) in *.
  pose proof (releaseSlot_counts (NormalTextureIndex t) t2 i
                ltac:(by do 2 apply validIndex_releaseSlot)) as H3.
  set (t3 := releaseSlot (NormalTextureIndex t) t2) in *.
  pose proof (releaseSlot_counts (EmissiveTextureIndex t) t3 i
                ltac:(by do 3 apply validIndex_releaseSlot)) as H4.
  set (t4 := releaseSlot (EmissiveTextureIndex t) t3) in *.
  pose proof (releaseSlot_counts (OcclusionTextureIndex t) t4 i
                ltac:(by do 4 apply validIndex_releaseSlot)) as H5.
  apply wrap32_eq_inv in H1 as [k1 H1], H2 as [k2 H2], H3 as [k3 H3],
    H4 as [k4 H4], H5 as [k5 H5].
  apply (wrap32_eq _ _ (k1 + k2 + k3 + k4 + k5)). lia.
Qed.

(** The texture indices the load loop stores in an entry account for
    what its [AddTexture] calls added to the counts. *)
Lemma resolveTextures_counts (uninitialised : Z) pMaterial m (i : nat) :
  wrap32 (countAt (m_Textures (resolveTextures uninitialised pMaterial m).2) i)
  = wrap32 (countAt (m_Textures m) i
            + referencesOf (resolveTextures uninitialised pMaterial m).1.1 i).
Proof.
  assert (wrap32 (countAt (m_Textures m) i) = wrap32 (countAt (m_Textures m) i + 0))
    as Hacc by (by rewrite Z.add_0_r).
  unfold resolveTextures, resolveTexture.
  destruct (HasPBRInfo pMaterial), (HasPBRMetalRough pMaterial),
    (HasPBRSpecGloss pMaterial);
    repeat match goal with
    | |- context [AddTexture ?m0 ?mat ?cls ?s0] =>
        let Hadd := fresh "Hadd" in
        pose proof (AddTexture_counts m0 mat cls s0 i) as Hadd;
        apply (wrap32_shift _ _ (hits (AddTexture m0 mat cls s0).1.1 i)) in Hacc;
        rewrite <- Hadd in Hacc; clear Hadd;
        destruct (AddTexture m0 mat cls s0) as [[? ?] ?];
        cbn [fst snd] in Hacc; cbv beta iota zeta
    end;
    cbn [fst snd]; rewrite Hacc; f_equal;
    unfold referencesOf, setAlbedo, setMetalRoughSpecGloss, setNormal, setEmissive,
      setOcclusion, TextureIndices_default;
    cbn [AlbedoTextureIndex MetalRoughSpecGlossTextureIndex NormalTextureIndex
         EmissiveTextureIndex OcclusionTextureIndex fst snd];
    rewrite ?(hits_sentinel (-1)) by lia; lia.
Qed.

Lemma allEntries_push_back entry groups :
  ∀ (k : nat) g, groups !! k = Some g →
    concat (m_RenderSurfaces <$> alter (push_back_surface entry) k groups)
    ≡ₚ entry :: concat (m_RenderSurfaces <$> groups).
Proof.
  induction groups as [|g0 rest IH]; intros k g Hk; [done |].
  destruct k as [|k]; simpl.
  - rewrite <- app_assoc. simpl. symmetry. apply Permutation_middle.
  - rewrite (IH k g Hk). symmetry. apply Permutation_middle.
Qed.

(** The body of the load loop registers one entry, which holds the
    indices the [AddTexture] calls returned. *)
Lemma loadSurface_allEntries (uninitialised : Z) (owner : ptr) m pSurface0 :
  HasTranslucency pSurface0 = false →
  allEntries (loadSurface uninitialised owner m pSurface0)
  ≡ₚ {| pOwner := owner; pSurface := pSurface0;
        Indices := (resolveTextures uninitialised (GetMaterial pSurface0) m).1.1 |}
     :: allEntries m.
Proof.
  intros Hopaque. unfold loadSurface, allEntries. rewrite Hopaque.
  pose proof (resolveTextures_sameCache uninitialised (GetMaterial pSurface0) m)
    as (Hg1 & _).
  destruct (resolveTextures uninitialised (GetMaterial pSurface0) m)
    as [[indices s] m1]. simpl in Hg1.
  pose proof (GetPipelinePermutationID_cases m1 pSurface0)
    as (_ & _ & _ & _ & _ & Hcases).
  destruct (GetPipelinePermutationID m1 pSurface0) as [group m2]. simpl in *.
  destruct Hcases as [[Hfind ->]|(_ & -> & -> & _)].
  - apply findPipelineHash_Some in Hfind as (k & g & -> & Hk & _).
    rewrite Z.add_0_l, Nat2Z.id. rewrite (allEntries_push_back _ _ k g Hk).
    by rewrite Hg1.
  - rewrite Nat2Z.id.
    rewrite (allEntries_push_back _ _ (length (m_PipelineRenderGroups m1))
               {| m_Pipeline := buildPipelineDesc m1 pSurface0;
                  m_PipelineHash := surfaceHash m1 pSurface0;
                  m_UsedAttributes := surfaceUsedAttributes pSurface0;
                  m_RenderSurfaces := [] |}) by (by apply list_lookup_middle).
    rewrite fmap_app, concat_app, Hg1. simpl. by rewrite !app_nil_r.
Qed.

(** The body of the unload loop: either no entry matches and neither the
    entries nor the table change, or one entry is taken out and its five
    texture indices are released. *)
Lemma unloadSurface_effect (owner : ptr) m pSurface m' :
  entriesValid m →
  unloadSurface owner m pSurface = Done m' →
  (allEntries m' = allEntries m ∧ m_Textures m' = m_Textures m)
  ∨ ∃ found,
      allEntries m ≡ₚ found :: allEntries m'
      ∧ validIndices (m_Textures m) (Indices found)
      ∧ m_Textures m' = releaseSlots (Indices found) (m_Textures m).
Proof.
  intros Hvalid. unfold unloadSurface.
  assert (∀ (scanned visited : list PipelineRenderGroup),
            m_PipelineRenderGroups m = visited ++ scanned →
            unloadFromGroups owner pSurface scanned (length visited) m = Done m' →
            (allEntries m' = allEntries m ∧ m_Textures m' = m_Textures m)
            ∨ ∃ found,
                allEntries m ≡ₚ found :: allEntries m'
                ∧ validIndices (m_Textures m) (Indices found)
                ∧ m_Textures m' = releaseSlots (Indices found) (m_Textures m))
    as Hscan.
  { induction scanned as [|g rest IH]; intros visited Hsplit; simpl.
    - intros [= <-]. by left.
    - destruct (findRenderSurface owner pSurface (m_RenderSurfaces g)) as [k|] eqn:Hfind.
      + apply findRenderSurface_Some in Hfind as (found & Hk & _).
        rewrite Hk.
        assert (validIndices (m_Textures m) (Indices found)) as Hindices.
        { apply (Hvalid g found).
          - rewrite Hsplit. apply elem_of_app. right. by left.
          - by eapply list_elem_of_lookup_2. }
        rewrite (releaseTextures_valid m (Indices found) Hindices). simpl.
        intros [= <-]. right. exists found. split; [|by split].
        unfold allEntries. simpl. rewrite Hsplit.
        replace (length visited) with (length visited + 0)%nat by lia.
        rewrite alter_app_r. simpl.
        rewrite !fmap_app, !concat_app. simpl.
        rewrite Permutation_middle. apply Permutation_app_head.
        by rewrite (delete_Permutation _ _ _ Hk) at 1.
      + intros Hrest. apply (IH (visited ++ [g])).
        * by rewrite <- app_assoc.
        * rewrite length_app. simpl.
          by replace (length visited + 1)%nat with (S (length visited)) by lia. }
  apply (Hscan (m_PipelineRenderGroups m) []). done.
Qed.

Lemma references_Permutation surfaces (surfaces' : list PipelineSurfaceRenderInfo)
    (i : nat) :
  surfaces ≡ₚ surfaces' → references surfaces i = references surfaces' i.
Proof.
  unfold references. induction 1 as [|x l l' _ IH|x y l|l l' l'' _ IH1 _ IH2]; simpl;
    [done | by rewrite IH | lia | congruence].
Qed.

Lemma references_nonneg surfaces (i : nat) : 0 ≤ references surfaces i.
Proof.
  unfold references. induction surfaces as [|x l IH]; [done |].
  cbn [foldr]. unfold referencesOf in *.
  pose proof (hits_range (AlbedoTextureIndex (Indices x)) i).
  pose proof (hits_range (MetalRoughSpecGlossTextureIndex (Indices x)) i).
  pose proof (hits_range (NormalTextureIndex (Indices x)) i).
  pose proof (hits_range (EmissiveTextureIndex (Indices x)) i).
  pose proof (hits_range (OcclusionTextureIndex (Indices x)) i). lia.
Qed.

Lemma loadSurface_referencesCounted (uninitialised : Z) (owner : ptr) m pSurface :
  referencesCounted m →
  referencesCounted (loadSurface uninitialised owner m pSurface).
Proof.
  intros Hcounted i. destruct (HasTranslucency pSurface) eqn:Htrans.
  { unfold loadSurface. rewrite Htrans. apply Hcounted. }
  destruct (loadSurface_tables uninitialised owner m pSurface Htrans) as [-> _].
  rewrite (references_Permutation _ _ i
             (loadSurface_allEntries uninitialised owner m pSurface Htrans)).
  rewrite resolveTextures_counts. cbn [references foldr Indices].
  fold (references (allEntries m) i).
  specialize (Hcounted i).
  apply (wrap32_shift _ _
           (referencesOf (resolveTextures uninitialised (GetMaterial pSurface) m).1.1 i))
    in Hcounted.
  rewrite Hcounted. f_equal. lia.
Qed.

Lemma unloadSurface_referencesCounted (owner : ptr) m pSurface m' :
  entriesValid m →
  unloadSurface owner m pSurface = Done m' →
  referencesCounted m → referencesCounted m'.
Proof.
  intros Hvalid Hun Hcounted i.
  destruct (unloadSurface_effect owner m pSurface m' Hvalid Hun)
    as [[-> ->]|(found & Hperm & Hindices & ->)]; [apply Hcounted |].
  rewrite (releaseSlots_counts _ _ i Hindices).
  specialize (Hcounted i).
  rewrite (references_Permutation _ _ i Hperm) in Hcounted.
  cbn [references foldr] in Hcounted. fold (references (allEntries m') i) in Hcounted.
  apply (wrap32_shift _ _ (- referencesOf (Indices found) i)) in Hcounted.
  replace (countAt (m_Textures m) i - referencesOf (Indices found) i)
    with (countAt (m_Textures m) i + - referencesOf (Indices found) i) by lia.
  rewrite Hcounted. f_equal. lia.
Qed.

(** X14: the reference count of a texture slot is the number of texture
    indices of registered surface entries that denote the slot.  In every
    state the content notifications reach from the initialised module, the
    count of each slot equals that number modulo 2^32, hence equals it
    while fewer than 2^32 indices denote the slot, and is 0 for every slot
    once no surface is registered; no registered index denotes a slot
    beyond the table. *)
Theorem notifications_counts_are_references (vs mv : bool) (ns : list Notification) m :
  notifications (emptyModule vs mv) ns = Done m →
  (∀ (i : nat) b, m_Textures m !! i = Some b →
     count b = wrap32 (references (allEntries m) i)
     ∧ (references (allEntries m) i < 2 ^ 32 → count b = references (allEntries m) i)
     ∧ (allEntries m = [] → count b = 0))
  ∧ ∀ (i : nat) info, info ∈ allEntries m → (length (m_Textures m) ≤ i)%nat →
      referencesOf (Indices info) i = 0.
Proof.
  intros Hreach.
  assert (countsInRange (m_Textures m)) as Hrange.
  { apply (notifications_tables_preserve
             (λ textures (samplers : list SamplerDesc),
                uniqueHandles textures ∧ countsInRange textures)
          ) with (ns := ns) (m := emptyModule vs mv); [| | |done].
    - intros m0 pMaterial textureClass s [Hu Hr]. by apply AddTexture_invariant.
    - intros m0 index m1 Hrem [Hu Hr]. by eapply RemoveTexture_invariant.
    - apply emptyModule_invariant. }
  destruct (notifications_related
              (λ m1 m2, entriesValid m1 ∧ referencesCounted m1 →
                        entriesValid m2 ∧ referencesCounted m2))
    with (ns := ns) (m := emptyModule (SamplerDesc := SamplerDesc) vs mv) (m' := m)
    as [Hvalid Hcounted]; [| | | | |done | |].
  - by intros m0.
  - intros m1 m2 m3 H12 H23 H1. auto.
  - intros uninitialised owner m0 pSurface [Hv Hc]. split.
    + by apply loadSurface_valid.
    + by apply loadSurface_referencesCounted.
  - intros m0 m1 Hpub [Hv Hc].
    apply publishTable_Done in Hpub as (Hg & _ & Ht & _). split.
    + intros g info Hg' Hinfo. rewrite Ht. apply (Hv g info); [|done].
      by rewrite <- Hg.
    + intros i. unfold allEntries. rewrite Hg, Ht. apply Hc.
  - intros owner m0 pSurface m1 Hun [Hv Hc]. split.
    + destruct (unloadSurface_valid owner m0 pSurface Hv) as (m2 & Hun' & Hv').
      rewrite Hun in Hun'. by injection Hun' as <-.
    + by eapply unloadSurface_referencesCounted.
  - split.
    + intros g info Hg. by apply not_elem_of_nil in Hg.
    + intros i. done.
  - split.
    + intros i b0 Hi.
      assert (count b0 = wrap32 (references (allEntries m) i)) as Hcount.
      { specialize (Hcounted i). unfold countAt in Hcounted. rewrite Hi in Hcounted.
        simpl in Hcounted. rewrite <- Hcounted. symmetry. apply wrap32_small.
        by apply (Hrange i). }
      split; [done |]. split.
      * intros Hsmall. rewrite Hcount. apply wrap32_small.
        pose proof (references_nonneg (allEntries m) i). lia.
      * intros Hnone. rewrite Hcount, Hnone. done.
    + intros i info Hinfo Hlen.
      apply elem_of_allEntries in Hinfo as (g & Hg & Hinfo).
      destruct (Hvalid g info Hg Hinfo) as (Ha & Hm & Hn & He & Ho).
      unfold referencesOf, hits, validIndex in *.
      repeat (rewrite decide_False by lia). done.
Qed.

(** ** Free slots *)

Lemma slotsBelow_mono (n n' : Z) textures :
  n ≤ n' → slotsBelow n textures → slotsBelow n' textures.
Proof.
  intros Hle Hslots i b0 Hi. destruct (Hslots i b0 Hi) as [Hinv Hrange].
  split; [done | lia].
Qed.

Lemma slotsBelow_insert (n : Z) textures (k : nat) b :
  slotsBelow n textures → slotInvariant b → 0 ≤ count b < n →
  slotsBelow n (<[k := b]> textures).
Proof.
  intros Hslots Hinv Hrange i b0 Hi.
  apply list_lookup_insert_Some in Hi as [(-> & -> & Hlt)|[Hik Hi]]; [done | eauto].
Qed.

(** [AddTexture] of a texture object that is not null keeps every slot
    free exactly when its count is zero, as long as no count is at the
    maximum of [uint32_t]. *)
Lemma AddTexture_slotsBelow m pMaterial (textureClass : TextureClass) (s n : Z) :
  texturesPresent pMaterial → 0 < n → n < 2 ^ 32 →
  slotsBelow n (m_Textures m) →
  slotsBelow (n + 1) (m_Textures (AddTexture m pMaterial textureClass s).2).
Proof.
  intros Hpresent Hpos Hn Hslots.
  destruct (GetTextureInfo pMaterial textureClass) as [ti|] eqn:Hti.
  2: { unfold AddTexture. rewrite Hti. simpl. apply (slotsBelow_mono n); [lia | done]. }
  specialize (Hpresent textureClass ti Hti).
  assert (slotInvariant {| pTexture := tex_pTexture ti; count := 1 |}) as Hfresh.
  { unfold slotInvariant. simpl. split; [done | lia]. }
  destruct (AddTexture_present m pMaterial textureClass s ti Hti)
    as (_ & _ & _ & _ & _ & _ & Hcases).
  destruct Hcases as [(k & b0 & Hk & Hb0 & _ & _ & ->)|[_ Hfree]].
  - destruct (Hslots k b0 Hk) as [_ Hrange].
    apply slotsBelow_insert; [by apply (slotsBelow_mono n); [lia |] | |].
    + unfold slotInvariant, bumpCount. simpl.
      rewrite wrap32_small by lia. split; [congruence | lia].
    + unfold bumpCount. simpl. rewrite wrap32_small by lia. lia.
  - destruct (firstFreeSlot (m_Textures m)) as [j|]; destruct Hfree as [_ ->].
    + apply slotsBelow_insert; [by apply (slotsBelow_mono n); [lia |] | done |].
      simpl. lia.
    + intros i b0 Hi.
      apply lookup_snoc_Some in Hi as [[_ Hi]|[_ <-]].
      * destruct (Hslots i b0 Hi) as [Hinv Hrange]. split; [done | lia].
      * split; [done |]. simpl. lia.
Qed.

Lemma resolveTextures_slotsBelow (uninitialised : Z) pMaterial m (n : Z) :
  texturesPresent pMaterial → 0 < n → n + 5 ≤ 2 ^ 32 →
  slotsBelow n (m_Textures m) →
  slotsBelow (n + 5) (m_Textures (resolveTextures uninitialised pMaterial m).2).
Proof.
  intros Hpresent Hpos Hn Hslots.
  apply (slotsBelow_mono n (n + 0)) in Hslots; [|lia].
  unfold resolveTextures, resolveTexture.
  destruct (HasPBRInfo pMaterial), (HasPBRMetalRough pMaterial),
    (HasPBRSpecGloss pMaterial);
    repeat match goal with
    | Hacc : slotsBelow ?k (m_Textures ?m0) |- context [AddTexture ?m0 ?mat ?cls ?s0] =>
        apply (AddTexture_slotsBelow m0 mat cls s0 k Hpresent ltac:(lia) ltac:(lia))
          in Hacc;
        destruct (AddTexture m0 mat cls s0) as [[? ?] ?];
        cbn [fst snd] in Hacc; cbv beta iota zeta
    end;
    cbn [fst snd]; (eapply slotsBelow_mono; [|eassumption]); lia.
Qed.

Lemma countAt_range (n : Z) textures (i : nat) :
  0 < n → slotsBelow n textures → 0 ≤ countAt textures i < n.
Proof.
  intros Hpos Hslots. unfold countAt.
  destruct (textures !! i) as [b0|] eqn:Hi; simpl; [|lia].
  by destruct (Hslots i b0 Hi).
Qed.

(** One release of a slot that is referenced: the count goes down by
    exactly one and the slot invariant is kept. *)
Lemma releaseSlot_slotsBelow (n : Z) (index : Z) textures (need : nat → Z) :
  0 < n → n ≤ 2 ^ 32 →
  slotsBelow n textures →
  validIndex textures index →
  (∀ i : nat, 0 ≤ need i) →
  (∀ i : nat, need i + hits index i ≤ countAt textures i) →
  slotsBelow n (releaseSlot index textures)
  ∧ ∀ i : nat, need i ≤ countAt (releaseSlot index textures) i.
Proof.
  intros Hpos Hn Hslots Hvalid Hneed Hcount. unfold releaseSlot.
  destruct (decide (index >= 0)) as [Hindex|Hindex].
  2: { split; [done |]. intros i. specialize (Hcount i).
       rewrite hits_sentinel in Hcount by lia. lia. }
  destruct Hvalid as [Hlt|Hlt]; [lia |].
  destruct (lookup_lt_is_Some_2 textures (Z.to_nat index) ltac:(lia)) as [b0 Hb0].
  destruct (Hslots _ _ Hb0) as [Hinv Hrange].
  assert (1 ≤ count b0) as Hone.
  { specialize (Hcount (Z.to_nat index)). specialize (Hneed (Z.to_nat index)).
    unfold hits, countAt in Hcount. rewrite Hb0 in Hcount. simpl in Hcount.
    rewrite decide_True in Hcount by lia. lia. }
  split.
  - intros i b1 Hi. destruct (decide (Z.to_nat index = i)) as [<-|Hne].
    + rewrite list_lookup_alter_eq, Hb0 in Hi. injection Hi as <-.
      split; [apply slotInvariant_releaseOne; [lia | done] |].
      rewrite count_releaseOne, wrap32_small by lia. lia.
    + rewrite list_lookup_alter_ne in Hi by done. by apply (Hslots i).
  - intros i. specialize (Hcount i). unfold countAt, hits in *.
    destruct (decide (Z.to_nat index = i)) as [<-|Hne].
    + rewrite list_lookup_alter_eq, Hb0. rewrite Hb0 in Hcount. simpl in *.
      rewrite decide_True in Hcount by lia.
      rewrite count_releaseOne, wrap32_small by lia. lia.
    + rewrite list_lookup_alter_ne by done.
      rewrite decide_False in Hcount by lia. lia.
Qed.

(** The five releases of an entry whose references the counts cover. *)
Lemma releaseSlots_slotsBelow (n : Z) (t : TextureIndices) textures :
  0 < n → n ≤ 2 ^ 32 →
  slotsBelow n textures →
  validIndices textures t →
  (∀ i : nat, referencesOf t i ≤ countAt textures i) →
  slotsBelow n (releaseSlots t textures).
Proof.
  intros Hpos Hn Hslots (Ha & Hm & Hn' & He & Ho) Hcount. unfold releaseSlots.
  assert (∀ (index : Z) (i : nat), 0 ≤ hits index i) as Hhits.
  { intros index i. pose proof (hits_range index i). lia. }
  destruct (releaseSlot_slotsBelow n (AlbedoTextureIndex t) textures
              (λ i, hits (MetalRoughSpecGlossTextureIndex t) i
                    + hits (NormalTextureIndex t) i + hits (EmissiveTextureIndex t) i
                    + hits (OcclusionTextureIndex t) i))
    as [Hs1 Hc1]; [done.. | | |].
  { intros i. pose proof (Hhits (MetalRoughSpecGlossTextureIndex t) i).
    pose proof (Hhits (NormalTextureIndex t) i).
    pose proof (Hhits (EmissiveTextureIndex t) i).
    pose proof (Hhits (OcclusionTextureIndex t) i). lia. }
  { intros i. specialize (Hcount i). unfold referencesOf in Hcount. lia. }
  set (t1 := releaseSlot (AlbedoTextureIndex t) textures) in *.
  destruct (releaseSlot_slotsBelow n (MetalRoughSpecGlossTextureIndex t) t1
              (λ i, hits (NormalTextureIndex t) i + hits (EmissiveTextureIndex t) i
                    + hits (OcclusionTextureIndex t) i))
    as [Hs2 Hc2]; [done | done | done | by apply validIndex_releaseSlot | | |].
  { intros i. pose proof (Hhits (NormalTextureIndex t) i).
    pose proof (Hhits (EmissiveTextureIndex t) i).
    pose proof (Hhits (OcclusionTextureIndex t) i). lia. }
  { intros i. specialize (Hc1 i). simpl in Hc1. lia. }
  set (t2 := releaseSlot (MetalRoughSpecGlossTextureIndex t) t1) in *.
  destruct (releaseSlot_slotsBelow n (NormalTextureIndex t) t2
              (λ i, hits (EmissiveTextureIndex t) i + hits (OcclusionTextureIndex t) i))
    as [Hs3 Hc3];
    [done | done | done | by do 2 apply validIndex_releaseSlot | | |].
  { intros i. pose proof (Hhits (EmissiveTextureIndex t) i).
    pose proof (Hhits (OcclusionTextureIndex t) i). lia. }
  { intros i. specialize (Hc2 i). simpl in Hc2. lia. }
  set (t3 := releaseSlot (NormalTextureIndex t) t2) in *.
  destruct (releaseSlot_slotsBelow n (EmissiveTextureIndex t) t3
              (λ i, hits (OcclusionTextureIndex t) i))
    as [Hs4 Hc4];
    [done | done | done | by do 3 apply validIndex_releaseSlot | | |].
  { intros i. apply Hhits. }
  { intros i. specialize (Hc3 i). simpl in Hc3. lia. }
  set (t4 := releaseSlot (EmissiveTextureIndex t) t3) in *.
  destruct (releaseSlot_slotsBelow n (OcclusionTextureIndex t) t4 (λ _, 0))
    as [Hs5 _];
    [done | done | done | by do 4 apply validIndex_releaseSlot | | |]; [done | |done].
  intros i. specialize (Hc4 i). simpl in Hc4. lia.
Qed.

Lemma references_bound surfaces (i : nat) :
  references surfaces i ≤ 5 * Z.of_nat (length surfaces).
Proof.
  unfold references. induction surfaces as [|x l IH]; [done |].
  cbn [foldr length]. unfold referencesOf in *.
  pose proof (hits_range (AlbedoTextureIndex (Indices x)) i).
  pose proof (hits_range (MetalRoughSpecGlossTextureIndex (Indices x)) i).
  pose proof (hits_range (NormalTextureIndex (Indices x)) i).
  pose proof (hits_range (EmissiveTextureIndex (Indices x)) i).
  pose proof (hits_range (OcclusionTextureIndex (Indices x)) i). lia.
Qed.

(** With every count in range and fewer than 2^32 references in all, the
    counts are the reference numbers themselves. *)
Lemma referencesCounted_exact m (n : Z) (i : nat) :
  0 < n → n ≤ 2 ^ 32 →
  slotsBelow n (m_Textures m) →
  5 * Z.of_nat (length (allEntries m)) < 2 ^ 32 →
  referencesCounted m →
  countAt (m_Textures m) i = references (allEntries m) i.
Proof.
  intros Hpos Hn Hslots Hfew Hcounted. specialize (Hcounted i).
  pose proof (countAt_range n (m_Textures m) i Hpos Hslots).
  pose proof (references_nonneg (allEntries m) i).
  pose proof (references_bound (allEntries m) i).
  rewrite !wrap32_small in Hcounted by lia. done.
Qed.

Lemma loadSurface_accounted (uninitialised : Z) (owner : ptr) m pSurface :
  tableAccounted m →
  texturesPresent (GetMaterial pSurface) →
  5 * (Z.of_nat (length (allEntries m)) + 1) + 1 ≤ 2 ^ 32 →
  tableAccounted (loadSurface uninitialised owner m pSurface)
  ∧ (length (allEntries (loadSurface uninitialised owner m pSurface))
     ≤ S (length (allEntries m)))%nat.
Proof.
  intros (Hvalid & Hcounted & Hslots) Hpresent Hfew.
  destruct (HasTranslucency pSurface) eqn:Htrans.
  { unfold loadSurface. rewrite Htrans. split; [done | lia]. }
  pose proof (Permutation_length
                (loadSurface_allEntries uninitialised owner m pSurface Htrans)) as Hlen.
  simpl in Hlen. split; [|lia].
  split; [by apply loadSurface_valid |].
  split; [by apply loadSurface_referencesCounted |].
  destruct (loadSurface_tables uninitialised owner m pSurface Htrans) as [-> _].
  rewrite Hlen.
  replace (5 * Z.of_nat (S (length (allEntries m))) + 1)
    with (5 * Z.of_nat (length (allEntries m)) + 1 + 5) by lia.
  apply resolveTextures_slotsBelow; [done | lia | lia | done].
Qed.

Lemma unloadSurface_accounted (owner : ptr) m pSurface m' :
  tableAccounted m →
  5 * Z.of_nat (length (allEntries m)) + 1 ≤ 2 ^ 32 →
  unloadSurface owner m pSurface = Done m' →
  tableAccounted m'
  ∧ (length (allEntries m') ≤ length (allEntries m))%nat.
Proof.
  intros (Hvalid & Hcounted & Hslots) Hfew Hun.
  assert (entriesValid m') as Hvalid'.
  { destruct (unloadSurface_valid owner m pSurface Hvalid) as (m2 & Hun' & Hv').
    rewrite Hun in Hun'. by injection Hun' as <-. }
  pose proof (unloadSurface_referencesCounted owner m pSurface m' Hvalid Hun Hcounted)
    as Hcounted'.
  destruct (unloadSurface_effect owner m pSurface m' Hvalid Hun)
    as [[Hentries Htextures]|(found & Hperm & Hindices & Htextures)].
  { unfold tableAccounted. rewrite Hentries, Htextures. split; [|lia].
    split; [done |]. split; [done | done]. }
  pose proof (Permutation_length Hperm) as Hlen. simpl in Hlen.
  split; [|lia]. split; [done |]. split; [done |].
  set (n := 5 * Z.of_nat (length (allEntries m)) + 1) in *.
  assert (slotsBelow n (m_Textures m')) as Hslots'.
  { rewrite Htextures. apply releaseSlots_slotsBelow; [lia | lia | done | done |].
    intros i.
    rewrite (referencesCounted_exact m n i) by (done || lia).
    rewrite (references_Permutation _ _ i Hperm). cbn [references foldr].
    fold (references (allEntries m') i).
    pose proof (references_nonneg (allEntries m') i). lia. }
  intros i b0 Hi. destruct (Hslots' i b0 Hi) as [Hinv Hrange]. split; [done |].
  pose proof (referencesCounted_exact m' n i ltac:(lia) ltac:(lia) Hslots'
                ltac:(lia) Hcounted') as Hexact.
  unfold countAt in Hexact. rewrite Hi in Hexact. simpl in Hexact.
  pose proof (references_bound (allEntries m') i). lia.
Qed.

Lemma loadSurfaces_accounted (uninitialised : Z) pairs :
  ∀ m,
    tableAccounted m →
    (∀ p, p ∈ pairs → texturesPresent (GetMaterial p.2)) →
    5 * (Z.of_nat (length (allEntries m)) + Z.of_nat (length pairs)) + 1 ≤ 2 ^ 32 →
    tableAccounted (foldl (λ m0 p, loadSurface uninitialised p.1 m0 p.2) m pairs)
    ∧ (length (allEntries (foldl (λ m0 p, loadSurface uninitialised p.1 m0 p.2) m pairs))
       ≤ length (allEntries m) + length pairs)%nat.
Proof.
  induction pairs as [|[owner pSurface] rest IH]; intros m Hm Hpresent Hfew.
  { simpl. split; [done | lia]. }
  cbn [length] in Hfew.
  destruct (loadSurface_accounted uninitialised owner m pSurface Hm) as [Hm1 Hlen1].
  { apply (Hpresent (owner, pSurface)). by left. }
  { lia. }
  destruct (IH (loadSurface uninitialised owner m pSurface) Hm1) as [Hm2 Hlen2].
  { intros p Hp. apply Hpresent. by right. }
  { lia. }
  simpl. split; [done | lia].
Qed.

Lemma notify_accounted (n : Notification) m m' :
  tableAccounted m →
  (∀ pSurface, pSurface ∈ notifiedSurfaces [n] → texturesPresent (GetMaterial pSurface)) →
  5 * (Z.of_nat (length (allEntries m)) + Z.of_nat (length (notifiedSurfaces [n]))) + 1
  ≤ 2 ^ 32 →
  notify m n = Done m' →
  tableAccounted m'
  ∧ (length (allEntries m') ≤ length (allEntries m) + length (notifiedSurfaces [n]))%nat.
Proof.
  intros Hm Hpresent Hfew.
  destruct n as [uninitialised block|block].
  - assert (notifiedSurfaces [Loaded uninitialised block] = blockSurfaces block) as Hn.
    { unfold notifiedSurfaces. simpl. apply app_nil_r. }
    rewrite Hn in Hpresent, Hfew |- *. simpl.
    unfold OnNewContentLoaded. intros Hpub.
    apply publishTable_Done in Hpub as (Hg & _ & Ht & _).
    rewrite <- blockPairs_surfaces in Hpresent, Hfew |- *.
    rewrite length_fmap in Hfew |- *.
    destruct (loadSurfaces_accounted uninitialised (blockPairs block) m Hm)
      as [(Hv & Hc & Hs) Hlen]; [| done |].
    { intros p Hp. apply Hpresent. apply list_elem_of_fmap. by exists p. }
    rewrite <- loadEntities_blockPairs in Hv, Hc, Hs, Hlen.
    assert (allEntries m' = allEntries (loadEntities uninitialised m block)) as Hentries
      by (unfold allEntries; by rewrite Hg).
    rewrite Hentries. split; [|done]. split; [|split].
    + intros g info Hg' Hinfo. rewrite Ht. apply (Hv g info); [|done]. by rewrite <- Hg.
    + intros i. rewrite Hentries, Ht. apply Hc.
    + by rewrite Hentries, Ht.
  - simpl. rewrite OnContentUnloaded_blockPairs. intros Hun.
    assert (tableAccounted m'
            ∧ (length (allEntries m') ≤ length (allEntries m))%nat) as [Hm' Hlen];
      [|split; [done | lia]].
    revert Hun.
    apply (foldO_preserves
             (λ m0, tableAccounted m0
                    ∧ (length (allEntries m0) ≤ length (allEntries m))%nat));
      [|split; [done | lia]].
    intros m1 [owner pSurface] m2 [Hm1 Hlen1] Hstep. simpl in Hstep.
    destruct (unloadSurface_accounted owner m1 pSurface m2 Hm1 ltac:(lia) Hstep)
      as [Hm2 Hlen2].
    split; [done | lia].
Qed.

Lemma notifications_accounted (ns : list Notification) :
  ∀ m m',
    tableAccounted m →
    (∀ pSurface, pSurface ∈ notifiedSurfaces ns → texturesPresent (GetMaterial pSurface)) →
    5 * (Z.of_nat (length (allEntries m)) + Z.of_nat (length (notifiedSurfaces ns))) + 1
    ≤ 2 ^ 32 →
    notifications m ns = Done m' →
    tableAccounted m'
    ∧ (length (allEntries m') ≤ length (allEntries m) + length (notifiedSurfaces ns))%nat.
Proof.
  induction ns as [|n rest IH]; intros m m' Hm Hpresent Hfew; unfold notifications; simpl.
  { intros [= <-]. split; [done | lia]. }
  assert (notifiedSurfaces (n :: rest) = notifiedSurfaces [n] ++ notifiedSurfaces rest)
    as Hsplit.
  { unfold notifiedSurfaces. simpl. by rewrite app_nil_r. }
  rewrite Hsplit in Hpresent, Hfew |- *. rewrite length_app in Hfew |- *.
  destruct (notify m n) as [m1| |] eqn:Hstep; simpl; try discriminate.
  destruct (notify_accounted n m m1 Hm) as [Hm1 Hlen1]; [| lia | done |].
  { intros pSurface Hin. apply Hpresent. apply elem_of_app. by left. }
  intros Hrest.
  destruct (IH m1 m' Hm1) as [Hm' Hlen']; [| lia | done |].
  { intros pSurface Hin. apply Hpresent. apply elem_of_app. by right. }
  split; [done | lia].
Qed.

(** X15: a texture slot is free exactly when no registered surface entry
    refers to it.  For notifications that load, in all, so few surfaces
    that no count can reach the maximum of [uint32_t] (five times their
    number stays below 2^32), and whose materials carry no null texture
    object: in every state reached from the initialised module the count
    of each slot is exactly the number of texture indices of registered
    entries that denote it, the handle of the slot is null exactly when
    that number is zero, and once no surface is registered every slot of
    the table is released (null handle, count 0). *)
Theorem notifications_slot_free_iff_unreferenced (vs mv : bool)
    (ns : list Notification) m :
  5 * Z.of_nat (length (notifiedSurfaces ns)) + 1 ≤ 2 ^ 32 →
  (∀ pSurface, pSurface ∈ notifiedSurfaces ns → texturesPresent (GetMaterial pSurface)) →
  notifications (emptyModule vs mv) ns = Done m →
  ∀ (i : nat) b, m_Textures m !! i = Some b →
    count b = references (allEntries m) i
    ∧ (pTexture b = nullptr ↔ references (allEntries m) i = 0)
    ∧ (allEntries m = [] → b = {| pTexture := nullptr; count := 0 |}).
Proof.
  intros Hfew Hpresent Hreach.
  destruct (notifications_accounted ns (emptyModule vs mv) m)
    as [(Hvalid & Hcounted & Hslots) Hlen]; [| done | simpl; lia | done |].
  { split; [|split].
    - intros g info Hg. by apply not_elem_of_nil in Hg.
    - intros i. done.
    - intros i b0 Hi. discriminate Hi. }
  simpl in Hlen.
  intros i b0 Hi. destruct (Hslots i b0 Hi) as [Hinv Hrange].
  assert (count b0 = references (allEntries m) i) as Hcount.
  { pose proof (referencesCounted_exact m
                  (5 * Z.of_nat (length (allEntries m)) + 1) i
                  ltac:(lia) ltac:(lia) Hslots ltac:(lia) Hcounted) as Hexact.
    unfold countAt in Hexact. by rewrite Hi in Hexact. }
  split; [done |]. split; [by rewrite <- Hcount |].
  intros Hnone. rewrite Hnone in Hcount. simpl in Hcount.
  destruct b0 as [handle c]. simpl in *. subst c.
  f_equal. by apply Hinv.
Qed.

End Properties.

(** * The statements on the sample content *)

Lemma AddTexture_absent_RemoveTexture_sentinel_witness :
  GetTextureInfo Sample.materialA Emissive = None
  ∧ -5 < 0
  ∧ AddTexture Sample.tableA Sample.materialA Emissive 7 = (-1, 7, Sample.tableA)
  ∧ RemoveTexture Sample.tableA (-1) = Done Sample.tableA
  ∧ RemoveTexture Sample.tableA (-5) = Done Sample.tableA.
Proof.
  split; [reflexivity |]. split; [reflexivity |].
  apply (AddTexture_absent_RemoveTexture_sentinel Sample.tableA Sample.materialA
           Emissive 7 (-5)); reflexivity.
Defined.

Lemma RemoveTexture_wraps_at_zero_witness :
  ∃ m', RemoveTexture Sample.releasedSlot 0 = Done m'
        ∧ m_Textures m' = [{| pTexture := nullptr; count := 4294967295 |}].
Proof.
  destruct (RemoveTexture_wraps_at_zero Sample.releasedSlot 0
              {| pTexture := nullptr; count := 0 |})
    as (m' & Hremove & Htextures & _); [lia | reflexivity |].
  exists m'. split; [exact Hremove |]. rewrite Htextures. reflexivity.
Defined.

Lemma bindless_table_reference_counting_witness :
  tableCalls Sample.empty Sample.tableCallsA = Done Sample.tableA
  ∧ (AddTexture Sample.tableA Sample.materialA Albedo 0).1.1 = 0
  ∧ m_Textures (AddTexture Sample.tableA Sample.materialA Albedo 0).2
    = [{| pTexture := 100%N; count := 3 |}; {| pTexture := 101%N; count := 1 |}].
Proof.
  assert (tableCalls Sample.empty Sample.tableCallsA = Done Sample.tableA) as Hreach
    by (vm_compute; reflexivity).
  split; [exact Hreach |].
  destruct (bindless_table_reference_counting false false Sample.tableCallsA
              Sample.tableA Hreach) as (Hadd & _ & _).
  destruct (Hadd Sample.materialA Albedo 0 (Sample.texture 100 0) 0%nat
              {| pTexture := 100%N; count := 2 |})
    as (Hslot & Htextures & _);
    [reflexivity | discriminate | reflexivity | reflexivity |].
  split; [exact Hslot |]. rewrite Htextures. reflexivity.
Defined.



Lemma OnContentUnloaded_removes_first_match_witness :
  ∃ m', unloadSurface 2%N Sample.loadedAB Sample.surfaceB = Done m'
        ∧ m_PipelineRenderGroups m'
          = [eraseSurface 1 (Sample.groupA [Sample.entry 1%N Sample.surfaceA;
                                            Sample.entry 2%N Sample.surfaceB])]
        ∧ m_Textures m' = [{| pTexture := 100%N; count := 1 |};
                           {| pTexture := 101%N; count := 1 |}].
Proof.
  destruct (OnContentUnloaded_removes_first_match Sample.loadedAB 2%N Sample.surfaceB)
    as (_ & Hfound & _).
  destruct (Hfound []
              (Sample.groupA [Sample.entry 1%N Sample.surfaceA;
                              Sample.entry 2%N Sample.surfaceB]) [] 1%nat)
    as (found & m' & Hfirst & _ & _ & Hunload & _ & Htextures & Hgroups & _).
  - reflexivity.
  - intros g' Hg'. apply not_elem_of_nil in Hg'. destruct Hg'.
  - reflexivity.
  - intros found [= <-]. vm_compute. intuition discriminate.
  - injection Hfirst as <-.
    exists m'. split; [exact Hunload |]. split; [exact Hgroups |].
    rewrite Htextures. reflexivity.
Defined.

Lemma Execute_draws_active_surfaces_witness :
  renderGroup (Sample.frame PreUpscale Sample.onlyEntity1)
    (Sample.groupA [Sample.entry 1%N Sample.surfaceA; Sample.entry 2%N Sample.surfaceB])
  = Done Sample.groupPassA
  ∧ length (drawCalls Sample.groupPassA) = 1%nat
  ∧ allocatedSlots InstanceInformationCB Sample.groupPassA = 1
  ∧ allocatedSlots TextureIndicesCB Sample.groupPassA = 1
  ∧ drawnEntries Sample.groupPassA = [(Sample.entry 1%N Sample.surfaceA, 0)].
Proof.
  assert (renderGroup (Sample.frame PreUpscale Sample.onlyEntity1)
            (Sample.groupA [Sample.entry 1%N Sample.surfaceA;
                            Sample.entry 2%N Sample.surfaceB])
          = Done Sample.groupPassA) as Hpass by reflexivity.
  split; [exact Hpass |].
  destruct (Execute_draws_active_surfaces (Sample.frame PreUpscale Sample.onlyEntity1)
              Sample.loadedAB) as (Hgroup & _ & _).
  destruct (Hgroup _ _ Hpass) as (Hdraws & Hinstance & Htexture & Hentries & _).
  split; [apply Nat2Z.inj; exact Hdraws |].
  split; [exact Hinstance |]. split; [exact Htexture | exact Hentries].
Defined.

Lemma viewport_follows_upscaler_state_witness :
  ∃ m' cmds,
    Execute (Sample.frame PreUpscale Sample.onlyEntity1) Sample.loadedAB = Done (m', cmds)
    ∧ viewportCommands cmds = [(0, 0, 1280, 720)].
Proof.
  destruct (viewport_follows_upscaler_state (Sample.frame PreUpscale Sample.onlyEntity1)
              Sample.loadedAB) as [_ Hviewport].
  eexists _, _. split; [reflexivity |].
  eapply Hviewport. reflexivity.
Defined.

Lemma load_one_opaque_surface_witness :
  ∃ m' g,
    OnNewContentLoaded 0 Sample.empty Sample.blockA = Done m'
    ∧ m_PipelineRenderGroups m' = [g]
    ∧ m_UsedAttributes g = 7
    ∧ m_Textures m' = [{| pTexture := 100%N; count := 1 |};
                       {| pTexture := 101%N; count := 1 |}].
Proof.
  destruct (load_one_opaque_surface false false 0 1%N Sample.surfaceA
              (Sample.texture 100 0) (Sample.texture 101 0))
    as (m' & g & loadedEntry & Hload & Hgroups & _ & Hmask & _ & _ & _ & _ & _ & _ & _ & _
        & Htextures & _);
    try reflexivity; try discriminate.
  exists m', g. split; [exact Hload |]. split; [exact Hgroups |].
  split; [exact Hmask | exact Htextures].
Defined.

Lemma pair_in_at_most_one_group_witness :
  addressConsistent (notifiedSurfaces
                       [Loaded 0 Sample.blockA; Loaded 0 Sample.blockB;
                        Unloaded Sample.blockB])
  ∧ notifications Sample.empty
      [Loaded 0 Sample.blockA; Loaded 0 Sample.blockB; Unloaded Sample.blockB]
    = Done Sample.loadedA
  ∧ 0%nat = 0%nat.
Proof.
  assert (addressConsistent (notifiedSurfaces
                               [Loaded 0 Sample.blockA; Loaded 0 Sample.blockB;
                                Unloaded Sample.blockB])) as Haddress.
  { intros s1 s2 Hs1 Hs2 Hsame.
    apply elem_of_cons in Hs1 as [->|Hs1]; apply elem_of_cons in Hs2 as [->|Hs2];
      try reflexivity.
    - apply list_elem_of_singleton in Hs2 as ->. discriminate Hsame.
    - apply list_elem_of_singleton in Hs1 as ->. discriminate Hsame.
    - apply list_elem_of_singleton in Hs1 as ->.
      apply list_elem_of_singleton in Hs2 as ->. reflexivity. }
  assert (notifications Sample.empty
            [Loaded 0 Sample.blockA; Loaded 0 Sample.blockB; Unloaded Sample.blockB]
          = Done Sample.loadedA) as Hreach by (vm_compute; reflexivity).
  split; [exact Haddress |]. split; [exact Hreach |].
  apply (pair_in_at_most_one_group false false _ Sample.loadedA Haddress Hreach
           0%nat 0%nat (Sample.groupA [Sample.entry 1%N Sample.surfaceA])
           (Sample.groupA [Sample.entry 1%N Sample.surfaceA])
           (Sample.entry 1%N Sample.surfaceA) (Sample.entry 1%N Sample.surfaceA));
    try reflexivity; apply list_elem_of_singleton; reflexivity.
Defined.

(** C5: a load batch whose textures use eleven samplers, with the sampler
    ceiling at 20, passes both capacity assertions of the re-publish
    although the live sampler count, 11, exceeds half of the ceiling, 10:
    the sampler assertion compares with [MAX_SAMPLERS_COUNT], the texture
    assertion with [MAX_TEXTURES_COUNT / 2]. *)
Theorem sampler_assertion_passes_above_half :
  ∃ m', OnNewContentLoaded 0 Sample.empty Sample.elevenSamplers = Done m'
        ∧ Z.of_nat (length (m_Samplers m')) = 11
        ∧ MAX_SAMPLERS_COUNT / 2 = 10
        ∧ Z.of_nat (length (m_Textures m')) ≤ MAX_TEXTURES_COUNT / 2.
Proof.
  exists (match OnNewContentLoaded 0 Sample.empty Sample.elevenSamplers with
          | Done m' => m'
          | _ => Sample.empty
          end).
  split; [vm_compute; reflexivity |]. vm_compute. intuition discriminate.
Qed.

(** * Further statements on the sample content *)


Lemma OnContentUnloaded_keeps_samplers_and_groups_witness :
  OnContentUnloaded Sample.loadedAB Sample.blockB = Done Sample.loadedA
  ∧ m_Samplers Sample.loadedA = m_Samplers Sample.loadedAB
  ∧ groupKey <$> m_PipelineRenderGroups Sample.loadedA
    = groupKey <$> m_PipelineRenderGroups Sample.loadedAB.
Proof.
  assert (OnContentUnloaded Sample.loadedAB Sample.blockB = Done Sample.loadedA)
    as Hunload by (vm_compute; reflexivity).
  split; [exact Hunload |].
  destruct (OnContentUnloaded_keeps_samplers_and_groups Sample.loadedAB Sample.blockB
              Sample.loadedA Hunload) as (Hsamplers & _ & _ & _ & Hkeys).
  split; [exact Hsamplers | exact Hkeys].
Defined.

Lemma notifications_tables_deduplicated_witness :
  notifications Sample.empty
    [Loaded 0 Sample.blockA; Loaded 0 Sample.blockB; Unloaded Sample.blockB]
  = Done Sample.loadedA
  ∧ NoDup (m_Samplers Sample.loadedA)
  ∧ uniqueHandles (m_Textures Sample.loadedA).
Proof.
  assert (notifications Sample.empty
            [Loaded 0 Sample.blockA; Loaded 0 Sample.blockB; Unloaded Sample.blockB]
          = Done Sample.loadedA) as Hreach by (vm_compute; reflexivity).
  split; [exact Hreach |].
  destruct (notifications_tables_deduplicated false false _ Sample.loadedA Hreach)
    as (Hsamplers & Hhandles & _).
  split; [exact Hsamplers | exact Hhandles].
Defined.

Lemma notifications_never_out_of_range_witness :
  notifications Sample.empty
    [Loaded 0 Sample.blockA; Loaded 0 Sample.blockB; Unloaded Sample.blockB]
  = Done Sample.loadedA
  ∧ entriesValid Sample.loadedA
  ∧ ∃ m', OnContentUnloaded Sample.loadedA Sample.blockB = Done m'.
Proof.
  assert (notifications Sample.empty
            [Loaded 0 Sample.blockA; Loaded 0 Sample.blockB; Unloaded Sample.blockB]
          = Done Sample.loadedA) as Hreach by (vm_compute; reflexivity).
  split; [exact Hreach |].
  destruct (notifications_never_out_of_range false false
              [Loaded 0 Sample.blockA; Loaded 0 Sample.blockB; Unloaded Sample.blockB])
    as [_ Hstates].
  destruct (Hstates Sample.loadedA Hreach) as [Hvalid Hunload].
  split; [exact Hvalid | exact (Hunload Sample.blockB)].
Defined.

Lemma load_then_unload_restores_surface_lists_witness :
  entriesValid Sample.empty
  ∧ ∃ m',
      unloadSurface 1%N (loadSurface 0 1%N Sample.empty Sample.surfaceA) Sample.surfaceA
      = Done m'
      ∧ (m_PipelineRenderGroups m' = []
         ∨ ∃ g, m_PipelineRenderGroups m' = [g] ∧ m_RenderSurfaces g = []).
Proof.
  assert (entriesValid Sample.empty) as Hvalid.
  { intros g info Hg. apply not_elem_of_nil in Hg. destruct Hg. }
  split; [exact Hvalid |].
  destruct (load_then_unload_restores_surface_lists 0 1%N Sample.empty Sample.surfaceA
              Hvalid) as (m' & Hunload & Hgroups & _).
  { intros g info Hg. apply not_elem_of_nil in Hg. destruct Hg. }
  exists m'. split; [exact Hunload |].
  destruct Hgroups as [Hsame | (g & Hsnoc & Hnone & _)].
  - left. exact Hsame.
  - right. exists g. split; [exact Hsnoc | exact Hnone].
Defined.

Lemma OnNewContentLoaded_publishes_every_slot_witness :
  ∃ m', OnNewContentLoaded 0 Sample.empty Sample.blockA = Done m'
        ∧ m_Textures m' !! 1%nat = Some {| pTexture := 101%N; count := 1 |}
        ∧ ps_TextureSRV (m_pParameterSet m') !! 1 = Some 101%N.
Proof.
  assert (OnNewContentLoaded 0 Sample.empty Sample.blockA = Done Sample.loadedA)
    as Hload by (vm_compute; reflexivity).
  exists Sample.loadedA. split; [exact Hload |].
  destruct (OnNewContentLoaded_publishes_every_slot 0 Sample.empty Sample.blockA
              Sample.loadedA Hload) as (_ & _ & Htextures & _).
  split; [reflexivity |].
  apply (Htextures 1%nat {| pTexture := 101%N; count := 1 |}). reflexivity.
Defined.


Lemma Execute_binds_every_group_witness :
  ∃ m' cmds,
    Execute (Sample.frame PreUpscale Sample.onlyEntity1) Sample.loadedAB = Done (m', cmds)
    ∧ boundPipelines cmds = [buildPipelineDesc Sample.empty Sample.surfaceA].
Proof.
  eexists _, _. split; [reflexivity |].
  eapply (Execute_binds_every_group (Sample.frame PreUpscale Sample.onlyEntity1)
            Sample.loadedAB).
  reflexivity.
Defined.

Lemma selectVertexBuffers_skinning_witness :
  selectVertexBuffers (Sample.skinned 4) 7 (Sample.entry 1%N Sample.surfaceA)
  = Done [SkinnedPositions 1%N 0; SkinnedNormals 1%N 0; SkinnedPreviousPosition 1%N 0]
  ∧ selectVertexBuffers (Sample.skinned 4) 1 (Sample.entry 1%N Sample.surfaceA)
    = OutOfRange.
Proof.
  destruct (selectVertexBuffers_skinning (Sample.skinned 4) 1
              (Sample.entry 1%N Sample.surfaceA)) as [_ Hskinned].
  destruct (Hskinned 4) as [Hshort _]; [reflexivity | discriminate |].
  split; [reflexivity |]. apply Hshort. vm_compute. lia.
Defined.

Lemma notifications_one_pipeline_per_group_witness :
  notifications Sample.empty
    [Loaded 0 Sample.blockA; Loaded 0 Sample.blockB; Unloaded Sample.blockB]
  = Done Sample.loadedA
  ∧ createdPipelines Sample.loadedA
    = m_Pipeline <$> m_PipelineRenderGroups Sample.loadedA.
Proof.
  assert (notifications Sample.empty
            [Loaded 0 Sample.blockA; Loaded 0 Sample.blockB; Unloaded Sample.blockB]
          = Done Sample.loadedA) as Hreach by (vm_compute; reflexivity).
  split; [exact Hreach |].
  destruct (notifications_one_pipeline_per_group false false _ Sample.loadedA Hreach)
    as (_ & _ & Hcreated & _).
  exact Hcreated.
Defined.

Lemma notifications_append_only_witness :
  notifications Sample.loadedA [Loaded 0 Sample.blockB; Unloaded Sample.blockA]
  = Done (Sample.loaded 1 [Sample.entry 2%N Sample.surfaceB])
  ∧ groupKeys Sample.loadedA
    `prefix_of` groupKeys (Sample.loaded 1 [Sample.entry 2%N Sample.surfaceB]).
Proof.
  assert (notifications Sample.loadedA [Loaded 0 Sample.blockB; Unloaded Sample.blockA]
          = Done (Sample.loaded 1 [Sample.entry 2%N Sample.surfaceB])) as Hreach
    by (vm_compute; reflexivity).
  split; [exact Hreach |].
  destruct (notifications_append_only _ Sample.loadedA _ Hreach) as (Hkeys & _).
  exact Hkeys.
Defined.

Lemma AddTexture_then_RemoveTexture_restores_witness :
  Forall slotInvariant (m_Textures Sample.tableA)
  ∧ ∃ m', RemoveTexture (AddTexture Sample.tableA Sample.materialA Albedo 0).2
            (AddTexture Sample.tableA Sample.materialA Albedo 0).1.1 = Done m'
          ∧ m_PipelineRenderGroups m' = m_PipelineRenderGroups Sample.tableA.
Proof.
  assert (Forall slotInvariant (m_Textures Sample.tableA)) as Hslots.
  { repeat constructor; discriminate. }
  split; [exact Hslots |].
  destruct (AddTexture_then_RemoveTexture_restores Sample.tableA Sample.materialA
              Albedo 0 Hslots) as (m' & Hremove & _ & _ & Hgroups & _).
  - intros [|[|i]] b [= <-]; simpl; lia.
  - intros ti [= <-]. discriminate.
  - exists m'. split; [exact Hremove | exact Hgroups].
Defined.

Lemma load_then_unload_block_leaves_no_surface_witness :
  allEntries Sample.empty = []
  ∧ OnNewContentLoaded 0 Sample.empty Sample.blockA = Done Sample.loadedA
  ∧ length (allEntries Sample.loadedA) = 1%nat
  ∧ ∃ m2, OnContentUnloaded Sample.loadedA Sample.blockA = Done m2
          ∧ allEntries m2 = [].
Proof.
  assert (OnNewContentLoaded 0 Sample.empty Sample.blockA = Done Sample.loadedA)
    as Hload by (vm_compute; reflexivity).
  split; [reflexivity |]. split; [exact Hload |].
  destruct (load_then_unload_block_leaves_no_surface 0 Sample.empty Sample.blockA
              Sample.loadedA) as (Hcount & m2 & Hunload & Hempty & _).
  - reflexivity.
  - intros x y Hx Hy _.
    apply list_elem_of_singleton in Hx as ->.
    apply list_elem_of_singleton in Hy as ->. reflexivity.
  - exact Hload.
  - split; [exact Hcount |]. exists m2. split; [exact Hunload | exact Hempty].
Defined.

Lemma notifications_counts_are_references_witness :
  notifications Sample.empty
    [Loaded 0 Sample.blockA; Loaded 0 Sample.blockB; Unloaded Sample.blockB]
  = Done Sample.loadedA
  ∧ references (allEntries Sample.loadedA) 0 = 1
  ∧ 1 = wrap32 (references (allEntries Sample.loadedA) 0).
Proof.
  assert (notifications Sample.empty
            [Loaded 0 Sample.blockA; Loaded 0 Sample.blockB; Unloaded Sample.blockB]
          = Done Sample.loadedA) as Hreach by (vm_compute; reflexivity).
  split; [exact Hreach |]. split; [reflexivity |].
  destruct (notifications_counts_are_references false false _ Sample.loadedA Hreach)
    as [Hcounts _].
  destruct (Hcounts 0%nat {| pTexture := 100%N; count := 1 |}) as [Hcount _];
    [reflexivity |].
  exact Hcount.
Defined.

Lemma notifications_slot_free_iff_unreferenced_witness :
  notifications Sample.empty
    [Loaded 0 Sample.blockA; Loaded 0 Sample.blockB; Unloaded Sample.blockB]
  = Done Sample.loadedA
  ∧ 1 = references (allEntries Sample.loadedA) 1
  ∧ (101%N = nullptr ↔ references (allEntries Sample.loadedA) 1 = 0).
Proof.
  assert (notifications Sample.empty
            [Loaded 0 Sample.blockA; Loaded 0 Sample.blockB; Unloaded Sample.blockB]
          = Done Sample.loadedA) as Hreach by (vm_compute; reflexivity).
  split; [exact Hreach |].
  destruct (notifications_slot_free_iff_unreferenced false false
              [Loaded 0 Sample.blockA; Loaded 0 Sample.blockB; Unloaded Sample.blockB]
              Sample.loadedA) with (i := 1%nat) (b := {| pTexture := 101%N; count := 1 |})
    as (Hcount & Hfree & _).
  - vm_compute. discriminate.
  - assert (notifiedSurfaces
              [Loaded 0 Sample.blockA; Loaded 0 Sample.blockB; Unloaded Sample.blockB]
            = [Sample.surfaceA; Sample.surfaceB]) as -> by reflexivity.
    intros pSurface Hin textureClass ti Hti.
    apply elem_of_cons in Hin as [->|Hin];
      [|apply list_elem_of_singleton in Hin as ->];
      destruct textureClass; vm_compute in Hti; try discriminate Hti;
      injection Hti as <-; intros Hnull; discriminate Hnull.
  - exact Hreach.
  - reflexivity.
  - split; [exact Hcount | exact Hfree].
Defined.
